(** * Virtual research-data generator: embedding and verified properties

    A shallow embedding of the numeric core of
    [virtual-research-data-generator/scripts]:
    - [generate_continuous.py]  ([ContinuousVariableGenerator], [generate_continuous_variable]),
    - [generate_survival.py]    ([SurvivalDataGenerator]: [generate_exponential], [generate_weibull],
                                 [generate_with_hazard_ratio], [generate_censoring],
                                 [adjust_hazard_ratio]; [generate_survival_data]),
    - [add_realism.py]          ([RealismEnhancer]: [add_missing_values], [add_misclassification],
                                 [round_to_precision], [enforce_range], [add_dropout],
                                 [generate_unique_ids]),
    - [validate_statistics.py]  ([StatisticalValidator.validate_odds_ratio], [_check_value],
                                 [get_summary]).

    numpy's [float64] is an interface ([Float]) with two instances: [xreal],
    the IEEE value set (finite reals, signed infinities, NaN) with exact
    arithmetic, and [binary64], the bit-exact IEEE-754 double of
    [SpecFloat].  Python code that raises, draws from [np.random] or divides
    runs in the monad [Py]: it threads the process-wide generator state and
    a counter of float divisions by zero, and returns a value or an
    exception. *)

From Stdlib Require Import String ZArith List Bool Lia.
From Stdlib Require Import Reals Lra RiemannInt.
From Stdlib Require Import SpecFloat.
From Stdlib Require Import Ascii DecimalString DecimalPos DecimalZ.
Import ListNotations.

Set Implicit Arguments.

(* ================================================================== *)
(** * 1. The float64 interface *)
(* ================================================================== *)

(** The operations of numpy's [float64] scalars the scripts use.
    Comparisons are the IEEE ones: every comparison with NaN is false. *)
Class Float (F : Type) : Type := {
  fadd : F -> F -> F;
  fsub : F -> F -> F;
  fmul : F -> F -> F;
  fdiv : F -> F -> F;
  fsqrt : F -> F;
  fabs : F -> F;
  feqb : F -> F -> bool;
  fltb : F -> F -> bool;
  fleb : F -> F -> bool;
  fisnan : F -> bool;
  of_int : Z -> F;            (* int -> float64 conversion *)
  finf : F;                   (* np.inf *)
  frint : F -> F;             (* np.round: to nearest integer, ties to even *)
  ffloor : F -> F;            (* np.floor *)
  fceil : F -> F              (* np.ceil *)
}.

(** [np.log], [np.exp] and [scipy.stats.norm.cdf]. *)
Class Transcend (F : Type) : Type := {
  flog : F -> F;
  fexp : F -> F;
  norm_cdf : F -> F
}.

Declare Scope fl_scope.
Delimit Scope fl_scope with fl.
Infix "+" := fadd : fl_scope.
Infix "-" := fsub : fl_scope.
Infix "*" := fmul : fl_scope.
Infix "/" := fdiv : fl_scope.
Infix "=?" := feqb : fl_scope.
Infix "<?" := fltb : fl_scope.
Infix "<=?" := fleb : fl_scope.

(** What the proofs that are generic in the float type need from IEEE. *)
Class FloatLaws (F : Type) `{Float F} : Prop := {
  fleb_nan_l : forall a b : F, fisnan a = true -> fleb a b = false;
  fleb_nan_r : forall a b : F, fisnan b = true -> fleb a b = false;
  fleb_refl : forall a : F, fisnan a = false -> fleb a a = true
}.
Arguments FloatLaws F {_}.

(** The comparisons order the values that are not NaN. *)
Class FloatOrder (F : Type) `{Float F} : Prop := {
  fleb_total : forall a b : F,
    fisnan a = false -> fisnan b = false -> fleb a b = false -> fleb b a = true;
  fleb_trans : forall a b c : F,
    fleb a b = true -> fleb b c = true -> fleb a c = true;
  fltb_fleb : forall a b : F, fltb a b = true -> fleb a b = true;
  fltb_not_fleb : forall a b : F, fltb a b = true -> fleb b a = false
}.
Arguments FloatOrder F {_}.

(* ------------------------------------------------------------------ *)
(** ** 1.1 Exact arithmetic on the IEEE value set *)
(* ------------------------------------------------------------------ *)

(** [XInf false] is [+inf], [XInf true] is [-inf]; zero is unsigned. *)
Inductive xreal : Type :=
| XFin (r : R)
| XInf (neg : bool)
| XNaN.

Definition Req_bool (a b : R) : bool := if Req_dec_T a b then true else false.
Definition Rlt_bool (a b : R) : bool := if Rlt_dec a b then true else false.
Definition Rle_bool (a b : R) : bool := if Rle_dec a b then true else false.

Definition xopp (x : xreal) : xreal :=
  match x with
  | XFin a => XFin (- a)
  | XInf s => XInf (negb s)
  | XNaN => XNaN
  end.

Definition xadd (x y : xreal) : xreal :=
  match x, y with
  | XNaN, _ | _, XNaN => XNaN
  | XFin a, XFin b => XFin (a + b)
  | XInf s, XInf t => if Bool.eqb s t then XInf s else XNaN
  | XInf s, XFin _ => XInf s
  | XFin _, XInf t => XInf t
  end.

Definition xsub (x y : xreal) : xreal := xadd x (xopp y).

Definition xmul (x y : xreal) : xreal :=
  match x, y with
  | XNaN, _ | _, XNaN => XNaN
  | XFin a, XFin b => XFin (a * b)
  | XInf s, XInf t => XInf (xorb s t)
  | XInf s, XFin b => if Req_bool b 0 then XNaN else XInf (xorb s (Rlt_bool b 0))
  | XFin a, XInf t => if Req_bool a 0 then XNaN else XInf (xorb (Rlt_bool a 0) t)
  end.

Definition xdiv (x y : xreal) : xreal :=
  match x, y with
  | XNaN, _ | _, XNaN => XNaN
  | XFin a, XFin b =>
      if Req_bool b 0
      then (if Req_bool a 0 then XNaN else XInf (Rlt_bool a 0))
      else XFin (a / b)
  | XFin _, XInf _ => XFin 0
  | XInf s, XFin b => XInf (xorb s (Rlt_bool b 0))
  | XInf _, XInf _ => XNaN
  end.

Definition xsqrt (x : xreal) : xreal :=
  match x with
  | XFin a => if Rlt_bool a 0 then XNaN else XFin (sqrt a)
  | XInf false => XInf false
  | XInf true => XNaN
  | XNaN => XNaN
  end.

Definition xabs (x : xreal) : xreal :=
  match x with
  | XFin a => XFin (Rabs a)
  | XInf _ => XInf false
  | XNaN => XNaN
  end.

Definition xeqb (x y : xreal) : bool :=
  match x, y with
  | XFin a, XFin b => Req_bool a b
  | XInf s, XInf t => Bool.eqb s t
  | _, _ => false
  end.

Definition xltb (x y : xreal) : bool :=
  match x, y with
  | XNaN, _ | _, XNaN => false
  | XFin a, XFin b => Rlt_bool a b
  | XInf s, XInf t => s && negb t
  | XInf s, XFin _ => s
  | XFin _, XInf t => negb t
  end.

Definition xleb (x y : xreal) : bool :=
  match x, y with
  | XNaN, _ | _, XNaN => false
  | XFin a, XFin b => Rle_bool a b
  | XInf s, XInf t => s || negb t
  | XInf s, XFin _ => s
  | XFin _, XInf t => negb t
  end.

Definition xisnan (x : xreal) : bool :=
  match x with XNaN => true | _ => false end.

(** Integer part functions on the reals. *)
Definition Rfloor (r : R) : Z := (up r - 1)%Z.
Definition Rceil (r : R) : Z := (- Rfloor (- r))%Z.
Definition Rrint (r : R) : Z :=
  let n := Rfloor r in
  let f := (r - IZR n)%R in
  if Rlt_bool f (1 / 2) then n
  else if Rlt_bool (1 / 2) f then (n + 1)%Z
  else if Z.even n then n else (n + 1)%Z.

Definition xlift_int (f : R -> Z) (x : xreal) : xreal :=
  match x with
  | XFin a => XFin (IZR (f a))
  | _ => x
  end.

#[export] Instance xreal_Float : Float xreal := {|
  fadd := xadd; fsub := xsub; fmul := xmul; fdiv := xdiv;
  fsqrt := xsqrt; fabs := xabs;
  feqb := xeqb; fltb := xltb; fleb := xleb; fisnan := xisnan;
  of_int := fun z => XFin (IZR z);
  finf := XInf false;
  frint := xlift_int Rrint; ffloor := xlift_int Rfloor; fceil := xlift_int Rceil
|}.

(* ------------------------------------------------------------------ *)
(** ** 1.2 IEEE-754 binary64 *)
(* ------------------------------------------------------------------ *)

Module B64.

Definition prec : Z := 53.
Definition emax : Z := 1024.

Definition binary64 : Type := spec_float.

Definition of_Z (z : Z) : binary64 := binary_normalize prec emax z 0 false.

(** The double nearest to the decimal [m * 10^-k]: both [m] and [10^k] are
    exact doubles for the literals used here and the division rounds
    correctly, so this is the value Python reads the literal as. *)
Definition dec (m : Z) (k : Z) : binary64 :=
  SFdiv prec emax (of_Z m) (of_Z (10 ^ k)%Z).

Definition isnan (x : binary64) : bool :=
  match x with S754_nan => true | _ => false end.

(** Rounding a double to an integral double.  [pick q r d] chooses between
    [q] and [q + 1] for the magnitude [q + r / d] with [0 <= r < d]. *)
Definition to_integral (pick : bool -> Z -> Z -> Z -> Z) (x : binary64) : binary64 :=
  match x with
  | S754_finite s m e =>
      match e with
      | Zneg p =>
          let d := Z.pow_pos 2 p in
          let q := Z.div (Zpos m) d in
          let r := Z.modulo (Zpos m) d in
          let k := pick s q r d in
          if Z.eqb k 0 then S754_zero s
          else binary_normalize prec emax (if s then Z.opp k else k) 0 s
      | _ => x
      end
  | _ => x
  end.

Definition pick_even (s : bool) (q r d : Z) : Z :=
  match Z.compare (2 * r) d with
  | Lt => q
  | Gt => (q + 1)%Z
  | Eq => if Z.even q then q else (q + 1)%Z
  end.

(** Toward minus infinity: magnitudes of negative numbers round up. *)
Definition pick_floor (s : bool) (q r d : Z) : Z :=
  if s then (if Z.eqb r 0 then q else (q + 1)%Z) else q.

Definition pick_ceil (s : bool) (q r d : Z) : Z :=
  if s then q else (if Z.eqb r 0 then q else (q + 1)%Z).

#[global] Instance binary64_Float : Float binary64 := {|
  fadd := SFadd prec emax; fsub := SFsub prec emax;
  fmul := SFmul prec emax; fdiv := SFdiv prec emax;
  fsqrt := SFsqrt prec emax; fabs := SFabs;
  feqb := SFeqb; fltb := SFltb; fleb := SFleb; fisnan := isnan;
  of_int := of_Z;
  finf := S754_infinity false;
  frint := to_integral pick_even;
  ffloor := to_integral pick_floor;
  fceil := to_integral pick_ceil
|}.

End B64.

(* ------------------------------------------------------------------ *)
(** ** 1.3 Logarithm, exponential and the normal distribution function *)
(* ------------------------------------------------------------------ *)

Definition gauss_density (t : R) : R := (exp (- (t * t) / 2) / sqrt (2 * PI))%R.

Definition gauss_density_continuous : continuity gauss_density.
Proof. apply derivable_continuous. unfold gauss_density. reg. Qed.

Definition gauss_integrable (x : R) (Hx : (0 <= x)%R) :
  Riemann_integrable gauss_density 0 x :=
  continuity_implies_RiemannInt Hx (fun t _ => gauss_density_continuous t).

Definition Ropp_nonneg (x : R) (Hx : ~ (0 <= x)%R) : (0 <= - x)%R.
Proof. lra. Qed.

(** The standard normal distribution function,
    [Phi x = 1/2 + integral of the density from 0 to x]. *)
Definition Phi (x : R) : R :=
  match Rle_dec 0 x with
  | left Hx => (1 / 2 + RiemannInt (gauss_integrable Hx))%R
  | right Hx => (1 / 2 - RiemannInt (gauss_integrable (Ropp_nonneg Hx)))%R
  end.

Definition xlog (x : xreal) : xreal :=
  match x with
  | XFin a => if Rlt_bool a 0 then XNaN
              else if Req_bool a 0 then XInf true else XFin (ln a)
  | XInf false => XInf false
  | XInf true => XNaN
  | XNaN => XNaN
  end.

Definition xexp (x : xreal) : xreal :=
  match x with
  | XFin a => XFin (exp a)
  | XInf false => XInf false
  | XInf true => XFin 0
  | XNaN => XNaN
  end.

Definition xnorm_cdf (x : xreal) : xreal :=
  match x with
  | XFin a => XFin (Phi a)
  | XInf false => XFin 1
  | XInf true => XFin 0
  | XNaN => XNaN
  end.

#[export] Instance xreal_Transcend : Transcend xreal := {|
  flog := xlog; fexp := xexp; norm_cdf := xnorm_cdf
|}.

(* ------------------------------------------------------------------ *)
(** ** 1.4 NaN, the sign bit and powers *)
(* ------------------------------------------------------------------ *)

(** [np.nan] and [np.signbit]. *)
Class FloatBits (F : Type) : Type := {
  fnan : F;
  fsignbit : F -> bool
}.

#[export] Instance xreal_FloatBits : FloatBits xreal := {|
  fnan := XNaN;
  fsignbit := fun x =>
    match x with
    | XFin a => Rlt_bool a 0
    | XInf s => s
    | XNaN => false
    end
|}.

#[export] Instance binary64_FloatBits : FloatBits B64.binary64 := {|
  fnan := S754_nan;
  fsignbit := fun x =>
    match x with
    | S754_zero s | S754_infinity s | S754_finite s _ _ => s
    | S754_nan => false
    end
|}.

(** [x ** y] on float64 scalars, C's [pow]. *)
Class Power (F : Type) : Type := {
  fpow : F -> F -> F
}.

Definition is_integer (y : R) : bool := Req_bool (IZR (Rfloor y)) y.

(** [pow] on the IEEE value set: [pow(x, 0) = 1] and [pow(1, y) = 1] for
    every operand, a negative base has real powers at the integers only. *)
Definition xpow (x y : xreal) : xreal :=
  match x, y with
  | _, XFin b =>
      if Req_bool b 0 then XFin 1
      else match x with
           | XNaN => XNaN
           | XFin a =>
               if Rlt_bool 0 a then XFin (Rpower a b)
               else if Req_bool a 0
                    then (if Rlt_bool 0 b then XFin 0 else XInf false)
                    else if is_integer b
                         then XFin ((if Z.odd (Rfloor b) then -1 else 1)
                                    * Rpower (- a) b)
                         else XNaN
           | XInf false => if Rlt_bool 0 b then XInf false else XFin 0
           | XInf true =>
               if Rlt_bool 0 b
               then XInf (is_integer b && Z.odd (Rfloor b))
               else XFin 0
           end
  | XNaN, _ => XNaN
  | XFin a, XInf s =>
      if Req_bool (Rabs a) 1 then XFin 1
      else if Rlt_bool (Rabs a) 1
           then (if s then XInf false else XFin 0)
           else (if s then XFin 0 else XInf false)
  | XInf _, XInf s => if s then XFin 0 else XInf false
  | XFin a, XNaN => if Req_bool a 1 then XFin 1 else XNaN
  | XInf _, XNaN => XNaN
  end.

#[export] Instance xreal_Power : Power xreal := {| fpow := xpow |}.

(* ================================================================== *)
(** * 2. numpy's process-wide random generator *)
(* ================================================================== *)

(** [np.random.*] and [scipy.stats.*.rvs] all draw from one generator that
    belongs to the process.  The generator itself is library code: its
    state type, its seeding function and its draws are the parameters of
    the model.  A draw of [n] values maps a state to the values and the
    next state. *)
Class NumpyRandom (F : Type) : Type := {
  BitGen : Type;
  seed_state : Z -> BitGen;                                   (* np.random.seed(s) *)
  draw_random : nat -> BitGen -> list F * BitGen;             (* np.random.random(n) *)
  draw_normal : F -> F -> nat -> BitGen -> list F * BitGen;   (* np.random.normal(loc, scale, n) *)
  draw_lognormal : F -> F -> nat -> BitGen -> list F * BitGen;
  draw_uniform : F -> F -> nat -> BitGen -> list F * BitGen;  (* np.random.uniform(low, high, n) *)
  draw_skewnorm : F -> nat -> BitGen -> list F * BitGen;      (* stats.skewnorm.rvs(a, size=n) *)
  draw_binomial : Z -> F -> nat -> BitGen -> list Z * BitGen  (* np.random.binomial(k, p, n) *)
}.

(** Every draw of [n] values has [n] values. *)
Class NumpyRandomLaws (F : Type) `{NumpyRandom F} : Prop := {
  draw_random_length : forall n g, length (fst (draw_random n g)) = n;
  draw_uniform_length : forall lo hi n g, length (fst (draw_uniform lo hi n g)) = n;
  draw_binomial_length : forall k p n g, length (fst (draw_binomial k p n g)) = n
}.
Arguments NumpyRandomLaws F {_}.

(** More draws of the same generator. *)
Class NumpyRandomMore (F : Type) `{NumpyRandom F} : Type := {
  draw_exponential : F -> nat -> BitGen -> list F * BitGen;   (* np.random.exponential(scale, n) *)
  draw_weibull : F -> nat -> BitGen -> list F * BitGen;       (* np.random.weibull(a, n) *)
  draw_choice : list Z -> BitGen -> Z * BitGen                (* np.random.choice(a), a not empty *)
}.
Arguments NumpyRandomMore F {_}.

(** Their draws of [n] values have [n] values, and a choice is an element
    of the list it is made from. *)
Class NumpyRandomMoreLaws (F : Type) `{NumpyRandom F} `{!NumpyRandomMore F}
  : Prop := {
  draw_normal_length :
    forall loc scale n g, length (fst (draw_normal loc scale n g)) = n;
  draw_exponential_length :
    forall scale n g, length (fst (draw_exponential scale n g)) = n;
  draw_weibull_length :
    forall a n g, length (fst (draw_weibull a n g)) = n;
  draw_choice_In :
    forall a g, a <> [] -> In (fst (draw_choice a g)) a
}.
Arguments NumpyRandomMoreLaws F {_ _}.

(* ================================================================== *)
(** * 3. The monad of Python computations *)
(* ================================================================== *)

Inductive exn : Type :=
| ValueError
| IndexError
| ZeroDivisionError.

Inductive outcome (A : Type) : Type :=
| Ok (a : A)
| Raise (e : exn).
Arguments Raise {A} e.

Section PyMonad.
Context {F : Type} `{Float F} `{NumpyRandom F}.

(** What a Python computation of the scripts can change: the state of the
    process-wide generator, and how many float divisions had a zero
    divisor (numpy reports each with a RuntimeWarning and goes on). *)
Record World : Type := {
  np_random : BitGen;
  zero_divisions : nat
}.

Definition Py (A : Type) : Type := World -> outcome A * World.

Definition ret {A} (a : A) : Py A := fun w => (Ok a, w).

Definition raise {A} (e : exn) : Py A := fun w => (Raise e, w).

Definition bind {A B} (c : Py A) (k : A -> Py B) : Py B :=
  fun w =>
    match c w with
    | (Ok a, w') => k a w'
    | (Raise e, w') => (Raise e, w')
    end.

Definition set_random (g : BitGen) : Py unit :=
  fun w => (Ok tt, {| np_random := g; zero_divisions := zero_divisions w |}).

Definition note_zero_divisions (k : nat) : Py unit :=
  fun w => (Ok tt, {| np_random := np_random w;
                      zero_divisions := k + zero_divisions w |}).

(** A draw from the process-wide generator. *)
Definition draw {A} (d : BitGen -> A * BitGen) : Py A :=
  fun w => let (a, g) := d (np_random w) in
           (Ok a, {| np_random := g; zero_divisions := zero_divisions w |}).
End PyMonad.

Declare Scope py_scope.
Delimit Scope py_scope with py.
Notation "x <- c ;; k" := (bind c (fun x => k))
  (at level 61, c at next level, right associativity) : py_scope.
Notation "' pat <- c ;; k" := (bind c (fun x => match x with pat => k end))
  (at level 61, pat pattern, c at next level, right associativity) : py_scope.
Notation "c ;; k" := (bind c (fun _ => k))
  (at level 61, right associativity) : py_scope.

(* ================================================================== *)
(** * 4. numpy array primitives *)
(* ================================================================== *)

Section Numpy.
Context {F : Type} `{Float F} `{NumpyRandom F}.
Local Open Scope py_scope.
Local Open Scope fl_scope.

Definition len {A} (l : list A) : Z := Z.of_nat (length l).

(** A size argument: numpy refuses negative dimensions. *)
Definition size_arg (n : Z) : Py nat :=
  if (n <? 0)%Z then raise ValueError else ret (Z.to_nat n).

(** [np.random.seed(s)] accepts [0 <= s < 2^32]. *)
Definition np_random_seed (s : Z) : Py unit :=
  if ((0 <=? s) && (s <? 2 ^ 32))%Z then set_random (seed_state s)
  else raise ValueError.

Definition np_random_random (n : Z) : Py (list F) :=
  k <- size_arg n ;; draw (draw_random k).
Definition np_random_normal (loc scale : F) (n : Z) : Py (list F) :=
  k <- size_arg n ;; draw (draw_normal loc scale k).
Definition np_random_lognormal (mu sigma : F) (n : Z) : Py (list F) :=
  k <- size_arg n ;; draw (draw_lognormal mu sigma k).
Definition np_random_uniform (low high : F) (n : Z) : Py (list F) :=
  k <- size_arg n ;; draw (draw_uniform low high k).
Definition skewnorm_rvs (a : F) (n : Z) : Py (list F) :=
  k <- size_arg n ;; draw (draw_skewnorm a k).
Definition np_random_binomial (k : Z) (p : F) (n : Z) : Py (list Z) :=
  m <- size_arg n ;; draw (draw_binomial k p m).

(** Division of float64 scalars: never raises; a zero divisor is counted. *)
Definition true_divide (a b : F) : Py F :=
  (if b =? of_int 0 then note_zero_divisions 1 else ret tt) ;;
  ret (a / b).

(** An array divided by a scalar: one division per element. *)
Definition true_divide_array (l : list F) (b : F) : Py (list F) :=
  (if b =? of_int 0 then note_zero_divisions (length l) else ret tt) ;;
  ret (map (fun a => a / b) l).

(** Division of Python floats: a zero divisor raises. *)
Definition py_divide (a b : F) : Py F :=
  if b =? of_int 0 then raise ZeroDivisionError else ret (a / b).

(** [np.sum]: the sum of the elements, [0.0] for the empty array.  (numpy
    adds long arrays pairwise; the order is immaterial in exact
    arithmetic.) *)
Definition np_sum (l : list F) : F := fold_left fadd l (of_int 0).

(** [np.mean(l)], [l.mean()]: the sum divided by the number of elements. *)
Definition np_mean (l : list F) : Py F :=
  true_divide (np_sum l) (of_int (len l)).

(** [np.var(l, ddof)]: the mean of the array, then the sum of the squared
    deviations from it divided by [max(n - ddof, 0)]. *)
Definition np_var (l : list F) (ddof : Z) : Py F :=
  arrmean <- true_divide (np_sum l) (of_int (len l)) ;;
  let x := map (fun v => (v - arrmean) * (v - arrmean)) l in
  true_divide (np_sum x) (of_int (Z.max (len l - ddof) 0)).

(** [l.std()]. *)
Definition np_std (l : list F) : Py F :=
  v <- np_var l 0 ;; ret (fsqrt v).

(** [np.maximum], [np.minimum] on scalars: a NaN operand is returned. *)
Definition np_maximum (a b : F) : F :=
  if (b <=? a) || fisnan a then a else b.
Definition np_minimum (a b : F) : F :=
  if (a <=? b) || fisnan a then a else b.

(** [np.max]: refuses the empty array. *)
Definition np_max (l : list F) : Py F :=
  match l with
  | [] => raise ValueError
  | x :: l' => ret (fold_left np_maximum l' x)
  end.

(** An elementwise binary operation on two one-dimensional arrays:
    an array of length one is broadcast, other lengths must agree. *)
Fixpoint zip_with {A B C} (f : A -> B -> C) (xs : list A) (ys : list B) : list C :=
  match xs, ys with
  | x :: xs', y :: ys' => f x y :: zip_with f xs' ys'
  | _, _ => []
  end.

Definition broadcast2 {A B C} (f : A -> B -> C) (xs : list A) (ys : list B)
  : Py (list C) :=
  if Nat.eqb (length xs) (length ys) then ret (zip_with f xs ys)
  else match xs, ys with
       | [x], _ => ret (map (f x) ys)
       | _, [y] => ret (map (fun x => f x y) xs)
       | _, _ => raise ValueError
       end.

(** [a[mask]] for a boolean array [mask]: the elements where the mask is
    true; the mask must be as long as the array. *)
Fixpoint select {A} (a : list A) (mask : list bool) : list A :=
  match a, mask with
  | x :: a', b :: mask' => if b then x :: select a' mask' else select a' mask'
  | _, _ => []
  end.

Definition getitem_mask {A} (a : list A) (mask : list bool) : Py (list A) :=
  if Nat.eqb (length a) (length mask) then ret (select a mask)
  else raise IndexError.

(** [a[mask] = vals]: the elements where the mask is true are replaced, in
    order, by the elements of [vals]. *)
Fixpoint put_mask {A} (a : list A) (mask : list bool) (vals : list A) : list A :=
  match a, mask with
  | x :: a', true :: mask' =>
      match vals with
      | v :: vals' => v :: put_mask a' mask' vals'
      | [] => x :: put_mask a' mask' []
      end
  | x :: a', false :: mask' => x :: put_mask a' mask' vals
  | _, _ => a
  end.

Definition count_true (mask : list bool) : nat := length (filter (fun b : bool => b) mask).

Definition setitem_mask {A} (a : list A) (mask : list bool) (vals : list A)
  : Py (list A) :=
  if negb (Nat.eqb (length a) (length mask)) then raise IndexError
  else if Nat.eqb (count_true mask) (length vals) then ret (put_mask a mask vals)
  else match vals with
       | [v] => ret (put_mask a mask (repeat v (count_true mask)))
       | _ => raise ValueError
       end.
End Numpy.

(** More of numpy: the argument checks of [numpy.random.mtrand], array
    constructors, sorting, the median and the sorted unique values. *)
Section NumpyMore.
Context {F : Type} `{Float F} `{FloatBits F} `{NumpyRandom F}
        `{!NumpyRandomMore F}.
Local Open Scope py_scope.
Local Open Scope fl_scope.

(** numpy.random refuses a scale or a shape whose sign bit is set; a NaN is
    let through. *)
Definition non_negative (x : F) : Py unit :=
  if negb (fisnan x) && fsignbit x then raise ValueError else ret tt.

Definition mtrand_normal (loc scale : F) (n : Z) : Py (list F) :=
  non_negative scale ;; np_random_normal loc scale n.

Definition mtrand_exponential (scale : F) (n : Z) : Py (list F) :=
  non_negative scale ;; k <- size_arg n ;; draw (draw_exponential scale k).

Definition mtrand_weibull (a : F) (n : Z) : Py (list F) :=
  non_negative a ;; k <- size_arg n ;; draw (draw_weibull a k).

(** [np.random.choice(a)] refuses an empty list. *)
Definition mtrand_choice (a : list Z) : Py Z :=
  match a with
  | [] => raise ValueError
  | _ => draw (draw_choice a)
  end.

Definition np_zeros (n : Z) : Py (list F) :=
  k <- size_arg n ;; ret (repeat (of_int 0) k).

(** [np.concatenate] needs one array at least. *)
Definition np_concatenate {A} (arrays : list (list A)) : Py (list A) :=
  match arrays with
  | [] => raise ValueError
  | _ => ret (concat arrays)
  end.

Fixpoint sort_insert (x : F) (l : list F) : list F :=
  match l with
  | [] => [x]
  | y :: l' => if (x <=? y) || fisnan y then x :: l else y :: sort_insert x l'
  end.

(** [np.sort]: ascending, NaN last. *)
Definition np_sort (l : list F) : list F := fold_right sort_insert [] l.

(** [np.median]: the mean of the middle element, or of the two middle
    elements, of the sorted array; NaN when the array holds a NaN. *)
Definition np_median (l : list F) : Py F :=
  let part := np_sort l in
  let sz := length l in
  let index := Nat.div sz 2 in
  let middle := if Nat.even sz then firstn 2 (skipn (index - 1) part)
                else firstn 1 (skipn index part) in
  rout <- np_mean middle ;;
  if existsb fisnan l then ret fnan else ret rout.

Fixpoint unique_insert (x : Z) (l : list Z) : list Z :=
  match l with
  | [] => [x]
  | y :: l' =>
      if (x <? y)%Z then x :: l
      else if (x =? y)%Z then l
      else y :: unique_insert x l'
  end.

(** [np.unique] of an integer array: its values, ascending, each once. *)
Definition np_unique (l : list Z) : list Z := fold_right unique_insert [] l.
End NumpyMore.

(* ================================================================== *)
(** * 5. generate_continuous.py *)
(* ================================================================== *)

Module ContinuousVariableGenerator.
Section Methods.
Context {F : Type} `{Float F} `{Transcend F} `{NumpyRandom F}.
Local Open Scope py_scope.
Local Open Scope fl_scope.

(** All an instance holds is the seed it was built with. *)
Record instance : Type := { random_seed : option Z }.

(** [__init__]: a given seed reseeds the process-wide generator. *)
Definition __init__ (random_seed : option Z) : Py instance :=
  let self := {| random_seed := random_seed |} in
  match random_seed with
  | Some s => np_random_seed s ;; ret self
  | None => ret self
  end.

Definition _truncate (self : instance) (data : list F) (min_val max_val : option F)
  : list F :=
  let data := match min_val with
              | Some lo => map (fun x => np_maximum x lo) data
              | None => data
              end in
  let data := match max_val with
              | Some hi => map (fun x => np_minimum x hi) data
              | None => data
              end in
  data.

Definition is_given {A} (o : option A) : bool :=
  match o with Some _ => true | None => false end.

Definition generate_normal (self : instance) (n : Z) (mean std : F)
    (min_val max_val : option F) : Py (list F) :=
  data <- np_random_normal mean std n ;;
  if is_given min_val || is_given max_val
  then ret (_truncate self data min_val max_val)
  else ret data.

(** [mean] and [std] are Python floats: [std ** 2] is their product and
    [var / mean ** 2] is Python's division, which raises on zero;
    [mean ** 2 / np.sqrt(...)] divides by a numpy scalar. *)
Definition _lognormal_params (self : instance) (mean std : F) : Py (F * F) :=
  let var := std * std in
  q <- true_divide (mean * mean) (fsqrt (var + mean * mean)) ;;
  let mu := flog q in
  r <- py_divide var (mean * mean) ;;
  let sigma := fsqrt (flog (of_int 1 + r)) in
  ret (mu, sigma).

Definition generate_lognormal (self : instance) (n : Z) (mean std : F)
    (min_val max_val : option F) : Py (list F) :=
  '(mu, sigma) <- _lognormal_params self mean std ;;
  data <- np_random_lognormal mu sigma n ;;
  if is_given min_val || is_given max_val
  then ret (_truncate self data min_val max_val)
  else ret data.

Definition generate_skewed (self : instance) (n : Z) (mean std skewness : F)
    (min_val max_val : option F) : Py (list F) :=
  let a := skewness * of_int 5 in
  data <- skewnorm_rvs a n ;;
  m <- np_mean data ;;
  let centred := map (fun x => x - m) data in
  s <- np_std data ;;
  scaled <- true_divide_array centred s ;;
  let data := map (fun x => x * std + mean) scaled in
  if is_given min_val || is_given max_val
  then ret (_truncate self data min_val max_val)
  else ret data.

Definition generate_uniform (self : instance) (n : Z) (low high : F) : Py (list F) :=
  np_random_uniform low high n.

Definition _calculate_cohens_d (self : instance) (data : list F) (group : list Z)
  : Py F :=
  group0 <- getitem_mask data (map (fun g => Z.eqb g 0) group) ;;
  group1 <- getitem_mask data (map (fun g => Z.eqb g 1) group) ;;
  let n0 := len group0 in
  let n1 := len group1 in
  var0 <- np_var group0 1 ;;
  var1 <- np_var group1 1 ;;
  q <- true_divide (of_int (n0 - 1) * var0 + of_int (n1 - 1) * var1)
                   (of_int (n0 + n1 - 2)) ;;
  let pooled_std := fsqrt q in
  m1 <- np_mean group1 ;;
  m0 <- np_mean group0 ;;
  true_divide (m1 - m0) pooled_std.

Definition adjust_effect_size (self : instance) (data : list F) (group : list Z)
    (target_effect_size : F) (current_effect_size : option F) : Py (list F) :=
  current_effect_size <-
    match current_effect_size with
    | None => _calculate_cohens_d self data group
    | Some c => ret c
    end ;;
  if current_effect_size =? of_int 0 then ret data
  else
    adjustment_factor <- true_divide target_effect_size current_effect_size ;;
    let adjusted_data := data in
    let group1_mask := map (fun g => Z.eqb g 1) group in
    rest <- getitem_mask data (map negb group1_mask) ;;
    v0 <- np_var rest 0 ;;
    grp1 <- getitem_mask data group1_mask ;;
    v1 <- np_var grp1 0 ;;
    q <- true_divide (v0 + v1) (of_int 2) ;;
    let pooled_std := fsqrt q in
    grp1 <- getitem_mask data group1_mask ;;
    m1 <- np_mean grp1 ;;
    rest <- getitem_mask data (map negb group1_mask) ;;
    m0 <- np_mean rest ;;
    let mean_diff := m1 - m0 in
    let new_mean_diff := mean_diff * adjustment_factor in
    grp1 <- getitem_mask data group1_mask ;;
    setitem_mask adjusted_data group1_mask
      (map (fun x => x - mean_diff + new_mean_diff) grp1).
End Methods.

Section MoreMethods.
Context {F : Type} `{Float F} `{FloatBits F} `{NumpyRandom F}.
Local Open Scope py_scope.
Local Open Scope fl_scope.

(** The loop of [generate_group_means] over
    [enumerate(zip(n_per_group, group_means))], from the index [i] on. *)
Fixpoint group_means_loop (i : Z) (pairs : list (Z * F)) (common_std : F)
    (data : list (list F)) (groups : list Z) : Py (list (list F) * list Z) :=
  match pairs with
  | [] => ret (data, groups)
  | (n, mean) :: pairs' =>
      group_data <- mtrand_normal mean common_std n ;;
      group_means_loop (i + 1) pairs' common_std
        (data ++ [group_data]) (groups ++ repeat i (Z.to_nat n))
  end.

Definition generate_group_means (self : instance) (n_per_group : list Z)
    (group_means : list F) (common_std : F) (min_val max_val : option F)
  : Py (list F * list Z) :=
  '(data, groups) <- group_means_loop 0 (combine n_per_group group_means)
                                      common_std [] [] ;;
  data <- np_concatenate data ;;
  if is_given min_val || is_given max_val
  then ret (_truncate self data min_val max_val, groups)
  else ret (data, groups).
End MoreMethods.
End ContinuousVariableGenerator.

Section GenerateContinuousVariable.
Context {F : Type} `{Float F} `{Transcend F} `{NumpyRandom F}.
Local Open Scope py_scope.
Local Open Scope fl_scope.
Import ContinuousVariableGenerator.

(** The module-level convenience function; [low] and [high] are the two
    keyword arguments it reads from [**kwargs]. *)
Definition generate_continuous_variable (n : Z) (distribution : string)
    (mean std : F) (min_val max_val : option F) (skewness : F)
    (random_seed : option Z) (low high : option F) : Py (list F) :=
  generator <- __init__ random_seed ;;
  if String.eqb distribution "normal" then
    generate_normal generator n mean std min_val max_val
  else if String.eqb distribution "lognormal" then
    generate_lognormal generator n mean std min_val max_val
  else if String.eqb distribution "skewed" then
    generate_skewed generator n mean std skewness min_val max_val
  else if String.eqb distribution "uniform" then
    let low := match low with
               | Some v => v
               | None => mean - std * fsqrt (of_int 3)
               end in
    let high := match high with
                | Some v => v
                | None => mean + std * fsqrt (of_int 3)
                end in
    generate_uniform generator n low high
  else raise ValueError.
End GenerateContinuousVariable.

(* ================================================================== *)
(** * 6. generate_survival.py *)
(* ================================================================== *)

(** [np.percentile(a, q)] is library code, a parameter of the model. *)
Class NumpyStats (F : Type) : Type := {
  np_percentile : list F -> F -> F
}.

Section Literals.
Context {F : Type} `{Float F}.
Local Open Scope fl_scope.

(** The float literal with decimal digits [m] and [k] digits after the
    point: the float nearest to [m / 10^k]. *)
Definition lit (m : Z) (k : Z) : F := of_int m / of_int (10 ^ k)%Z.
End Literals.

Module SurvivalDataGenerator.
Section Methods.
Context {F : Type} `{Float F} `{NumpyRandom F} `{NumpyStats F}.
Local Open Scope py_scope.
Local Open Scope fl_scope.

Record instance : Type := { random_seed : option Z }.

Definition __init__ (random_seed : option Z) : Py instance :=
  let self := {| random_seed := random_seed |} in
  match random_seed with
  | Some s => np_random_seed s ;; ret self
  | None => ret self
  end.

(** The branch on [censoring_type] of [generate_censoring]: the censoring
    time of every record. *)
Definition censoring_times (self : instance) (survival_time : list F)
    (censoring_rate : F) (censoring_type : string) (max_followup : option F)
  : Py (list F) :=
  let n := len survival_time in
  if String.eqb censoring_type "random" then
    max_followup <- match max_followup with
                    | None => m <- np_max survival_time ;; ret (m * lit 15 1)
                    | Some v => ret v
                    end ;;
    np_random_uniform (of_int 0) (max_followup * of_int 2) n
  else if String.eqb censoring_type "administrative" then
    let max_followup :=
      match max_followup with
      | None => np_percentile survival_time
                  (of_int 100 * (of_int 1 - censoring_rate))
      | Some v => v
      end in
    ret (repeat max_followup (Z.to_nat n))
  else if String.eqb censoring_type "mixed" then
    max_followup <- match max_followup with
                    | None => m <- np_max survival_time ;; ret (m * lit 12 1)
                    | Some v => ret v
                    end ;;
    random_censor <- np_random_uniform (of_int 0) (max_followup * of_int 2) n ;;
    let admin_censor := repeat max_followup (Z.to_nat n) in
    mix_probs <- np_random_binomial 1 (lit 5 1) n ;;
    choices <- broadcast2 pair random_censor admin_censor ;;
    broadcast2 (fun (m : Z) (c : F * F) => if Z.eqb m 0 then snd c else fst c)
               mix_probs choices
  else raise ValueError.

Definition generate_censoring (self : instance) (survival_time : list F)
    (censoring_rate : F) (censoring_type : string) (max_followup : option F)
  : Py (list F * list Z) :=
  censoring_time <- censoring_times self survival_time censoring_rate
                                    censoring_type max_followup ;;
  observed_time <- broadcast2 np_minimum survival_time censoring_time ;;
  event <- broadcast2 (fun s c => if s <=? c then 1%Z else 0%Z)
                      survival_time censoring_time ;;
  ret (observed_time, event).
End Methods.

Section MoreMethods.
Context {F : Type} `{Float F} `{Transcend F} `{FloatBits F} `{Power F}
        `{NumpyRandom F} `{!NumpyRandomMore F} `{NumpyStats F}.
Local Open Scope py_scope.
Local Open Scope fl_scope.

(** [np.log(2) / median_survival] and [1 / lambda_param] divide numpy
    scalars. *)
Definition generate_exponential (self : instance) (n : Z) (median_survival : F)
    (max_time : option F) : Py (list F) :=
  lambda_param <- true_divide (flog (of_int 2)) median_survival ;;
  scale <- true_divide (of_int 1) lambda_param ;;
  survival_time <- mtrand_exponential scale n ;;
  match max_time with
  | Some m => ret (map (fun s => np_minimum s m) survival_time)
  | None => ret survival_time
  end.

(** [1 / shape] divides Python numbers and raises on zero. *)
Definition generate_weibull (self : instance) (n : Z) (median_survival shape : F)
    (max_time : option F) : Py (list F) :=
  r <- py_divide (of_int 1) shape ;;
  scale <- true_divide median_survival (fpow (flog (of_int 2)) r) ;;
  x <- mtrand_weibull shape n ;;
  let survival_time := map (fun v => scale * v) x in
  match max_time with
  | Some m => ret (map (fun s => np_minimum s m) survival_time)
  | None => ret survival_time
  end.

(** The right-hand side of an assignment is evaluated before the indexed
    assignment is made. *)
Definition generate_with_hazard_ratio (self : instance) (n : Z)
    (exposure : list Z) (baseline_median hazard_ratio : F)
    (distribution : string) (shape : F) (max_time : option F) : Py (list F) :=
  survival_time <- np_zeros n ;;
  let unexposed_mask := map (fun e => Z.eqb e 0) exposure in
  let exposed_mask := map (fun e => Z.eqb e 1) exposure in
  vals <- (if String.eqb distribution "exponential"
           then generate_exponential self (Z.of_nat (count_true unexposed_mask))
                                     baseline_median max_time
           else generate_weibull self (Z.of_nat (count_true unexposed_mask))
                                 baseline_median shape max_time) ;;
  survival_time <- setitem_mask survival_time unexposed_mask vals ;;
  exposed_median <- py_divide baseline_median hazard_ratio ;;
  vals <- (if String.eqb distribution "exponential"
           then generate_exponential self (Z.of_nat (count_true exposed_mask))
                                     exposed_median max_time
           else generate_weibull self (Z.of_nat (count_true exposed_mask))
                                 exposed_median shape max_time) ;;
  setitem_mask survival_time exposed_mask vals.

Definition _estimate_hazard_ratio (self : instance) (survival_time : list F)
    (exposure : list Z) : Py (option F) :=
  group0 <- getitem_mask survival_time (map (fun e => Z.eqb e 0) exposure) ;;
  median0 <- np_median group0 ;;
  group1 <- getitem_mask survival_time (map (fun e => Z.eqb e 1) exposure) ;;
  median1 <- np_median group1 ;;
  if median1 =? of_int 0 then ret None
  else hr <- true_divide median0 median1 ;; ret (Some hr).

(** A given [current_hr] is a Python float, whose division raises on zero;
    an estimated one is a numpy scalar. *)
Definition adjust_hazard_ratio (self : instance) (survival_time : list F)
    (exposure : list Z) (target_hr : F) (current_hr : option F) : Py (list F) :=
  estimate <- match current_hr with
              | None => _estimate_hazard_ratio self survival_time exposure
              | Some c => ret (Some c)
              end ;;
  match estimate with
  | None => ret survival_time
  | Some c =>
      if c =? of_int 0 then ret survival_time
      else
        adjustment_factor <- match current_hr with
                             | None => true_divide c target_hr
                             | Some _ => py_divide c target_hr
                             end ;;
        let adjusted := survival_time in
        let exposed_mask := map (fun e => Z.eqb e 1) exposure in
        exposed <- getitem_mask survival_time exposed_mask ;;
        setitem_mask adjusted exposed_mask
          (map (fun s => s * adjustment_factor) exposed)
  end.
End MoreMethods.
End SurvivalDataGenerator.

Section GenerateSurvivalData.
Context {F : Type} `{Float F} `{Transcend F} `{FloatBits F} `{Power F}
        `{NumpyRandom F} `{!NumpyRandomMore F} `{NumpyStats F}.
Local Open Scope py_scope.
Local Open Scope fl_scope.
Import SurvivalDataGenerator.

(** The module-level convenience function: [max_time] is also the
    [max_followup] of the mixed censoring. *)
Definition generate_survival_data (n : Z) (median_survival censoring_rate : F)
    (distribution : string) (shape : F) (max_time : option F)
    (random_seed : option Z) : Py (list F * list Z) :=
  generator <- __init__ random_seed ;;
  survival_time <-
    (if String.eqb distribution "exponential" then
       generate_exponential generator n median_survival max_time
     else if String.eqb distribution "weibull" then
       generate_weibull generator n median_survival shape max_time
     else raise ValueError) ;;
  generate_censoring generator survival_time censoring_rate "mixed" max_time.
End GenerateSurvivalData.

(* ================================================================== *)
(** * 7. add_realism.py *)
(* ================================================================== *)

(** The enumeration of the missing-data mechanisms, and the [mechanism]
    argument: a member of it, or any other Python value (which is equal to
    no member). *)
Inductive MissingMechanism : Type := MCAR | MAR | MNAR.

Inductive mechanism_value : Type :=
| Member (m : MissingMechanism)
| OtherValue.

(** [str(k)] of a Python int and [s.zfill(width)]. *)
Definition py_str (k : Z) : string := NilZero.string_of_int (Z.to_int k).

Fixpoint zeros (n : nat) : string :=
  match n with
  | O => EmptyString
  | S n' => String "0"%char (zeros n')
  end.

Definition zfill (s : string) (width : Z) : string :=
  let fill := Z.to_nat (width - Z.of_nat (String.length s)) in
  match s with
  | String c s' =>
      if (Ascii.eqb c "+"%char || Ascii.eqb c "-"%char)%bool
      then String c (zeros fill ++ s')
      else zeros fill ++ s
  | EmptyString => zeros fill
  end.

Module RealismEnhancer.
Section Methods.
Context {F : Type} `{Float F} `{NumpyRandom F}.
Local Open Scope py_scope.
Local Open Scope fl_scope.

Record instance : Type := { random_seed : option Z }.

Definition __init__ (random_seed : option Z) : Py instance :=
  let self := {| random_seed := random_seed |} in
  match random_seed with
  | Some s => np_random_seed s ;; ret self
  | None => ret self
  end.

Definition round_to_precision (self : instance) (data : list F) (precision : F)
    (method : string) : Py (list F) :=
  if String.eqb method "round" then
    q <- true_divide_array data precision ;;
    ret (map (fun x => frint x * precision) q)
  else if String.eqb method "floor" then
    q <- true_divide_array data precision ;;
    ret (map (fun x => ffloor x * precision) q)
  else if String.eqb method "ceil" then
    q <- true_divide_array data precision ;;
    ret (map (fun x => fceil x * precision) q)
  else raise ValueError.

Definition enforce_range (self : instance) (data : list F) (min_val max_val : option F)
  : list F :=
  let result := data in
  let result := match min_val with
                | Some lo => map (fun x => np_maximum x lo) result
                | None => result
                end in
  let result := match max_val with
                | Some hi => map (fun x => np_minimum x hi) result
                | None => result
                end in
  result.

(** The loop over [data.items()]: every array is indexed with the mask. *)
Fixpoint filter_items (items : list (string * list F)) (retained_mask : list bool)
  : Py (list (string * list F)) :=
  match items with
  | [] => ret []
  | (key, values) :: rest =>
      kept <- getitem_mask values retained_mask ;;
      filtered <- filter_items rest retained_mask ;;
      ret ((key, kept) :: filtered)
  end.

(** A dict is the list of its items in insertion order. *)
Definition add_dropout (self : instance) (data : list (string * list F))
    (dropout_rate : F) (dropout_mechanism : string)
  : Py (list (string * list F) * list bool) :=
  n <- match data with
       | [] => raise IndexError
       | (_, values) :: _ => ret (len values)
       end ;;
  dropout_mask <-
    (if String.eqb dropout_mechanism "random" then
       r <- np_random_random n ;;
       ret (map (fun x => x <? dropout_rate) r)
     else if String.eqb dropout_mechanism "related" then
       r <- np_random_random n ;;
       ret (map (fun x => x <? dropout_rate) r)
     else raise ValueError) ;;
  let retained_mask := map negb dropout_mask in
  filtered_data <- filter_items data retained_mask ;;
  ret (filtered_data, dropout_mask).
End Methods.

Section MoreMethods.
Context {F : Type} `{Float F} `{FloatBits F} `{NumpyRandom F}
        `{!NumpyRandomMore F} `{NumpyStats F}.
Local Open Scope py_scope.
Local Open Scope fl_scope.

Definition add_missing_values (self : instance) (data : list F)
    (missing_rate : F) (mechanism : mechanism_value)
    (related_var : option (list F)) : Py (list F) :=
  let n := len data in
  let result := data in
  missing_mask <-
    match mechanism with
    | Member MCAR =>
        r <- np_random_random n ;;
        ret (map (fun x => x <? missing_rate) r)
    | Member MAR =>
        match related_var with
        | None => raise ValueError
        | Some related_var =>
            let q0 := np_percentile related_var (of_int 25) in
            let q1 := np_percentile related_var (of_int 50) in
            let q2 := np_percentile related_var (of_int 75) in
            missing_probs <- np_zeros n ;;
            missing_probs <-
              setitem_mask missing_probs
                (map (fun v => v <=? q0) related_var)
                [missing_rate * lit 5 1] ;;
            missing_probs <-
              setitem_mask missing_probs
                (map (fun v => (q0 <? v) && (v <=? q1)) related_var)
                [missing_rate] ;;
            missing_probs <-
              setitem_mask missing_probs
                (map (fun v => (q1 <? v) && (v <=? q2)) related_var)
                [missing_rate * lit 15 1] ;;
            missing_probs <-
              setitem_mask missing_probs
                (map (fun v => q2 <? v) related_var)
                [missing_rate * of_int 2] ;;
            r <- np_random_random n ;;
            broadcast2 fltb r missing_probs
        end
    | Member MNAR =>
        let q0 := np_percentile data (of_int 25) in
        let q1 := np_percentile data (of_int 50) in
        let q2 := np_percentile data (of_int 75) in
        missing_probs <- np_zeros n ;;
        missing_probs <-
          setitem_mask missing_probs
            (map (fun v => v <=? q0) data)
            [missing_rate * lit 5 1] ;;
        missing_probs <-
          setitem_mask missing_probs
            (map (fun v => (q0 <? v) && (v <=? q1)) data)
            [missing_rate] ;;
        missing_probs <-
          setitem_mask missing_probs
            (map (fun v => (q1 <? v) && (v <=? q2)) data)
            [missing_rate * lit 15 1] ;;
        missing_probs <-
          setitem_mask missing_probs
            (map (fun v => q2 <? v) data)
            [missing_rate * lit 25 1] ;;
        r <- np_random_random n ;;
        broadcast2 fltb r missing_probs
    | OtherValue => raise ValueError
    end ;;
  setitem_mask result missing_mask [fnan].

(** The loop of [add_misclassification] over the selected indices, in
    order: a selected element is replaced by a choice among the other
    categories, when there is one.  The data are integer category codes. *)
Fixpoint misclassify (categories : list Z) (result : list Z)
    (error_mask : list bool) : Py (list Z) :=
  match result, error_mask with
  | current_cat :: result', selected :: error_mask' =>
      cat <- (if selected then
                let other_cats :=
                  filter (fun c => negb (Z.eqb c current_cat)) categories in
                if (0 <? len other_cats)%Z then mtrand_choice other_cats
                else ret current_cat
              else ret current_cat) ;;
      rest <- misclassify categories result' error_mask' ;;
      ret (cat :: rest)
  | _, _ => ret result
  end.

Definition add_misclassification (self : instance) (data : list Z)
    (error_rate : F) (categories : option (list Z)) : Py (list Z) :=
  let result := data in
  let n := len data in
  let categories := match categories with
                    | None => np_unique data
                    | Some c => c
                    end in
  r <- np_random_random n ;;
  let error_mask := map (fun x => x <? error_rate) r in
  let n_errors := count_true error_mask in
  if Nat.eqb n_errors 0 then ret result
  else misclassify categories result error_mask.

Definition generate_unique_ids (self : instance) (n : Z) (prefix : string)
    (digits : Z) : list string :=
  map (fun i => (prefix ++ zfill (py_str (Z.of_nat i + 1)) digits)%string)
      (seq 0 (Z.to_nat n)).
End MoreMethods.
End RealismEnhancer.

(* ================================================================== *)
(** * 8. validate_statistics.py *)
(* ================================================================== *)

Module StatisticalValidator.
Section Methods.
Context {F : Type} `{Float F} `{Transcend F} `{NumpyRandom F}.
Local Open Scope py_scope.
Local Open Scope fl_scope.

(** The message of an odds-ratio result is empty or the formatted odds
    ratio and interval; the record keeps the three numbers it prints. *)
Inductive message_text : Type :=
| EmptyMessage
| OddsRatioMessage (actual_or ci_low ci_high : F).

Record ValidationResult : Type := {
  passed : bool;
  metric_name : string;
  expected_value : F;
  actual_value : F;
  tolerance : F;
  p_value : option F;
  confidence_interval : option F * option F;
  message : message_text
}.

Record instance : Type := {
  self_tolerance : F;
  results : list ValidationResult
}.

Definition __init__ (tolerance : F) : instance :=
  {| self_tolerance := tolerance; results := [] |}.

Definition _check_value (self : instance) (actual expected : F) : Py bool :=
  if expected =? of_int 0 then ret (fabs actual <? self_tolerance self)
  else
    relative_error <- true_divide (fabs (actual - expected)) (fabs expected) ;;
    ret (relative_error <=? self_tolerance self).

(** [np.sum(x & y)] for two boolean arrays. *)
Definition count_both (x y : list bool) : Py Z :=
  m <- broadcast2 andb x y ;; ret (Z.of_nat (count_true m)).

Definition validate_odds_ratio (self : instance) (outcome exposure : list Z)
    (expected_or : F) (expected_significant : bool) (alpha : F)
  : Py (ValidationResult * instance) :=
  let is1 := map (fun v => Z.eqb v 1) in
  let is0 := map (fun v => Z.eqb v 0) in
  a <- count_both (is1 exposure) (is1 outcome) ;;
  b <- count_both (is1 exposure) (is0 outcome) ;;
  c <- count_both (is0 exposure) (is1 outcome) ;;
  d <- count_both (is0 exposure) (is0 outcome) ;;
  actual_or <-
    (if (b =? 0)%Z || (c =? 0)%Z
     then ret (if (0 <? a * d)%Z then finf else of_int 0)
     else true_divide (of_int (a * d)) (of_int (b * c))) ;;
  '(ci, p_value) <-
    (if (0 <? a)%Z && (0 <? b)%Z && (0 <? c)%Z && (0 <? d)%Z then
       ra <- true_divide (of_int 1) (of_int a) ;;
       rb <- true_divide (of_int 1) (of_int b) ;;
       rc <- true_divide (of_int 1) (of_int c) ;;
       rd <- true_divide (of_int 1) (of_int d) ;;
       let se_log_or := fsqrt (ra + rb + rc + rd) in
       let log_or := flog actual_or in
       let ci_log := (log_or - lit 196 2 * se_log_or,
                      log_or + lit 196 2 * se_log_or) in
       let ci := (Some (fexp (fst ci_log)), Some (fexp (snd ci_log))) in
       z <- true_divide log_or se_log_or ;;
       let p_value := of_int 2 * (of_int 1 - norm_cdf (fabs z)) in
       ret (ci, Some p_value)
     else ret ((None, None), None)) ;;
  or_ok <- _check_value self actual_or expected_or ;;
  let sig_ok :=
    match p_value with
    | Some p => if expected_significant then p <? alpha else alpha <=? p
    | None => false
    end in
  let passed := or_ok && sig_ok in
  let result :=
    {| passed := passed;
       metric_name := "比值比(OR)";
       expected_value := expected_or;
       actual_value := actual_or;
       tolerance := self_tolerance self;
       p_value := p_value;
       confidence_interval := ci;
       message :=
         match ci with
         | (Some lo, Some hi) =>
             if lo =? of_int 0 then EmptyMessage
             else OddsRatioMessage actual_or lo hi
         | _ => EmptyMessage
         end |} in
  ret (result, {| self_tolerance := self_tolerance self;
                  results := results self ++ [result] |}).
End Methods.

Section Summary.
Context {F : Type} `{Float F}.
Local Open Scope fl_scope.

(** The dict [get_summary] returns, by its keys. *)
Record summary : Type := {
  summary_total : Z;
  summary_passed : Z;
  summary_failed : Z;
  summary_pass_rate : F;
  summary_all_passed : bool;
  summary_results : list (@ValidationResult F)
}.

Definition get_summary (self : @instance F) : summary :=
  let total := len (results self) in
  let passed := len (filter (fun r => passed r) (results self)) in
  {| summary_total := total;
     summary_passed := passed;
     summary_failed := total - passed;
     summary_pass_rate := if (0 <? total)%Z then of_int passed / of_int total
                          else of_int 0;
     summary_all_passed := (passed =? total)%Z;
     summary_results := results self |}.
End Summary.
End StatisticalValidator.

(* ================================================================== *)
(** * 9. Calls, runs and a reference library *)
(* ================================================================== *)

Section SamplerCalls.
Context {F : Type} `{Float F} `{Transcend F} `{NumpyRandom F}.
Import ContinuousVariableGenerator.



(** A computation is determined by the generator state when worlds with
    the same generator state give it the same outcome and leave the same
    generator state. *)
Definition stream_determined {A} (c : Py A) : Prop :=
  forall w1 w2 : World,
    np_random w1 = np_random w2 ->
    fst (c w1) = fst (c w2) /\ np_random (snd (c w1)) = np_random (snd (c w2)).
End SamplerCalls.

(** A small implementation of the library interfaces, to run the model on
    concrete inputs.  numpy's own generator is not part of the repository;
    this one is a linear congruential generator whose distributions are
    affine images of its uniform draw. *)
Module Reference.
Section Library.
Context {F : Type} `{Float F}.
Local Open Scope fl_scope.

Definition lcg_next (g : Z) : Z := ((1103515245 * g + 12345) mod 2 ^ 31)%Z.

Definition unit_draw (g : Z) : F := of_int g / of_int (2 ^ 31)%Z.

Fixpoint draws {A} (f : Z -> A) (n : nat) (g : Z) : list A * Z :=
  match n with
  | O => ([], g)
  | S n' =>
      let g' := lcg_next g in
      let (l, g'') := draws f n' g' in
      (f g' :: l, g'')
  end.

Definition lcg : NumpyRandom F := {|
  BitGen := Z;
  seed_state := fun s => s;
  draw_random := draws unit_draw;
  draw_normal := fun loc scale =>
    draws (fun g => loc + scale * (unit_draw g - lit 5 1));
  draw_lognormal := fun mu sigma =>
    draws (fun g => of_int 1 + fabs (mu + sigma * unit_draw g));
  draw_uniform := fun low high =>
    draws (fun g => low + (high - low) * unit_draw g);
  draw_skewnorm := fun a => draws (fun g => a * unit_draw g);
  draw_binomial := fun k p => draws (fun g => if unit_draw g <? p then k else 0%Z)
|}.

Fixpoint insert_sorted (x : F) (l : list F) : list F :=
  match l with
  | [] => [x]
  | y :: l' => if x <=? y then x :: l else y :: insert_sorted x l'
  end.

(** The largest index [j < n] (counted from [base]) with [j <= h]. *)
Fixpoint index_below (h : F) (base : Z) (n : nat) : Z :=
  match n with
  | O => base
  | S n' => if of_int (base + 1) <=? h then index_below h (base + 1) n' else base
  end.

(** Linear interpolation between the order statistics. *)
Definition percentile_linear (a : list F) (q : F) : F :=
  let sorted := fold_right insert_sorted [] a in
  let h := of_int (len a - 1) * (q / of_int 100) in
  let j := index_below h 0 (length a - 1) in
  let nan := of_int 0 / of_int 0 in
  let x0 := nth (Z.to_nat j) sorted nan in
  let x1 := nth (Z.to_nat (Z.min (j + 1) (len a - 1))) sorted nan in
  x0 + (h - of_int j) * (x1 - x0).

Definition stats : NumpyStats F := {| np_percentile := percentile_linear |}.

(** The world of a process that has just started. *)
Definition start : @World F lcg := @Build_World F lcg 0%Z 0.
End Library.

(** The other draws of the reference generator. *)
Section LibraryMore.
Context {F : Type} `{Float F}.
Local Open Scope fl_scope.

Definition lcg_more : @NumpyRandomMore F lcg :=
  @Build_NumpyRandomMore F lcg
    (fun (scale : F) => draws (fun g => scale * unit_draw g))
    (fun (a : F) => draws (fun g => unit_draw g))
    (fun (a : list Z) (g : Z) =>
       let g' := lcg_next g in
       (nth (Z.to_nat (g' mod len a)) a 0%Z, g')).
End LibraryMore.

(** The reference library at the two float types, and the world of a
    process that has just started. *)
Definition lcg64 : NumpyRandom B64.binary64 := lcg.
Definition stats64 : NumpyStats B64.binary64 := stats.
Definition start64 : @World B64.binary64 lcg64 := start.
Definition lcgx : NumpyRandom xreal := lcg.
Definition statsx : NumpyStats xreal := stats.
Definition startx : @World xreal lcgx := start.
End Reference.

(** A 2x2 table with one exposed case, one exposed control, six unexposed
    cases and one unexposed control: its odds ratio is 1/6. *)
Definition exposure9 : list Z := [1; 1; 0; 0; 0; 0; 0; 0; 0]%Z.
Definition outcome9 : list Z := [1; 0; 1; 1; 1; 1; 1; 1; 0]%Z.

(* ================================================================== *)
(** * 10. The values the methods compute *)
(* ================================================================== *)

(** Pure counterparts of the monadic code: the value each method returns
    and the world it leaves, written as functions of the arguments.  The
    run lemmas of the next part prove that the methods compute them. *)

Section Values.
Context {F : Type} `{Float F} `{Transcend F} `{NumpyRandom F}.
Local Open Scope fl_scope.

(** The world after a division of [k] elements by [b]. *)
Definition after_division (k : nat) (b : F) (w : World) : World :=
  if b =? of_int 0
  then {| np_random := np_random w; zero_divisions := k + zero_divisions w |}
  else w.

(** The world after a sequence of scalar divisions, by their divisors. *)
Definition after_divisions (ds : list F) (w : World) : World :=
  fold_left (fun w b => after_division 1 b w) ds w.

(** The value of [np.var]. *)
Definition var_value (l : list F) (ddof : Z) : F :=
  let arrmean := np_sum l / of_int (len l) in
  np_sum (map (fun v => (v - arrmean) * (v - arrmean)) l)
  / of_int (Z.max (len l - ddof) 0).

(** The mask [group == k]. *)
Definition is_group (k : Z) (group : list Z) : list bool :=
  map (fun g => Z.eqb g k) group.

(** The value and the divisors of [_calculate_cohens_d]. *)
Definition cohens_d_value (data : list F) (group : list Z) : F :=
  let group0 := select data (is_group 0 group) in
  let group1 := select data (is_group 1 group) in
  let n0 := len group0 in
  let n1 := len group1 in
  let pooled_std :=
    fsqrt ((of_int (n0 - 1) * var_value group0 1
            + of_int (n1 - 1) * var_value group1 1)
           / of_int (n0 + n1 - 2)) in
  (np_sum group1 / of_int n1 - np_sum group0 / of_int n0) / pooled_std.

Definition cohens_d_divisors (data : list F) (group : list Z) : list F :=
  let group0 := select data (is_group 0 group) in
  let group1 := select data (is_group 1 group) in
  let n0 := len group0 in
  let n1 := len group1 in
  [ of_int n0; of_int (Z.max (n0 - 1) 0);
    of_int n1; of_int (Z.max (n1 - 1) 0);
    of_int (n0 + n1 - 2);
    of_int n1; of_int n0;
    fsqrt ((of_int (n0 - 1) * var_value group0 1
            + of_int (n1 - 1) * var_value group1 1)
           / of_int (n0 + n1 - 2)) ].

(** The difference of the group means [adjust_effect_size] computes. *)
Definition mean_difference (data : list F) (group : list Z) : F :=
  let grp1 := select data (is_group 1 group) in
  let rest := select data (map negb (is_group 1 group)) in
  np_sum grp1 / of_int (len grp1) - np_sum rest / of_int (len rest).

(** The array [adjust_effect_size] builds when the current effect size
    [c] is not zero: the elements of group 1 are shifted. *)
Definition shifted (data : list F) (group : list Z) (target c : F) : list F :=
  let mean_diff := mean_difference data group in
  let new_mean_diff := mean_diff * (target / c) in
  zip_with (fun x (b : bool) => if b then x - mean_diff + new_mean_diff else x)
           data (is_group 1 group).

(** The labels of [generate_group_means] for the group sizes [ns], from
    the index [i] on: each index as many times as its group is large. *)
Fixpoint group_labels (i : Z) (ns : list Z) : list Z :=
  match ns with
  | [] => []
  | n :: ns' => repeat i (Z.to_nat n) ++ group_labels (i + 1) ns'
  end.

(** A seed in numpy's range, and the world after [np.random.seed(s)]. *)
Definition valid_seed (s : Z) : bool := ((0 <=? s) && (s <? 2 ^ 32))%Z.

Definition seeded (s : Z) (w : World) : World :=
  {| np_random := seed_state s; zero_divisions := zero_divisions w |}.

(** Clipping one element as [enforce_range] does. *)
Definition clip (lo hi : option F) (x : F) : F :=
  let x := match lo with Some l => np_maximum x l | None => x end in
  match hi with Some h => np_minimum x h | None => x end.

(** The cell of the 2x2 table with exposure [e] and outcome [o]. *)
Definition table_cell (e o : Z) (exposure outcome : list Z) : Z :=
  Z.of_nat (count_true (zip_with andb (is_group e exposure) (is_group o outcome))).

(** The magnitude test of [_check_value]. *)
Definition within_tolerance (tol actual expected : F) : bool :=
  if expected =? of_int 0 then fabs actual <? tol
  else fabs (actual - expected) / fabs expected <=? tol.

(** The significance test of [validate_odds_ratio]. *)
Definition significance_matches (expected_significant : bool) (alpha : F)
    (p_value : option F) : bool :=
  match p_value with
  | Some p => if expected_significant then p <? alpha else alpha <=? p
  | None => false
  end.

(** The odds ratio [validate_odds_ratio] reports for a table. *)
Definition odds_ratio_value (a b c d : Z) : F :=
  if ((b =? 0) || (c =? 0))%Z
  then (if (0 <? a * d)%Z then finf else of_int 0)
  else of_int (a * d) / of_int (b * c).

Definition all_positive (a b c d : Z) : bool :=
  ((0 <? a) && (0 <? b) && (0 <? c) && (0 <? d))%Z.

(** The standard error of the log odds ratio, and the interval and the
    p-value computed from it when every cell is positive. *)
Definition log_odds_se (a b c d : Z) : F :=
  fsqrt (of_int 1 / of_int a + of_int 1 / of_int b
         + of_int 1 / of_int c + of_int 1 / of_int d).

Definition odds_ratio_interval (a b c d : Z) : option F * option F :=
  if all_positive a b c d then
    let log_or := flog (odds_ratio_value a b c d) in
    (Some (fexp (log_or - lit 196 2 * log_odds_se a b c d)),
     Some (fexp (log_or + lit 196 2 * log_odds_se a b c d)))
  else (None, None).

Definition odds_ratio_p_value (a b c d : Z) : option F :=
  if all_positive a b c d then
    let z := flog (odds_ratio_value a b c d) / log_odds_se a b c d in
    Some (of_int 2 * (of_int 1 - norm_cdf (fabs z)))
  else None.

(** The record [validate_odds_ratio] returns for a table. *)
Definition odds_ratio_result (tol : F) (a b c d : Z) (expected_or : F)
    (expected_significant : bool) (alpha : F)
  : StatisticalValidator.ValidationResult :=
  {| StatisticalValidator.passed :=
       within_tolerance tol (odds_ratio_value a b c d) expected_or
       && significance_matches expected_significant alpha
            (odds_ratio_p_value a b c d);
     StatisticalValidator.metric_name := "比值比(OR)";
     StatisticalValidator.expected_value := expected_or;
     StatisticalValidator.actual_value := odds_ratio_value a b c d;
     StatisticalValidator.tolerance := tol;
     StatisticalValidator.p_value := odds_ratio_p_value a b c d;
     StatisticalValidator.confidence_interval := odds_ratio_interval a b c d;
     StatisticalValidator.message :=
       match odds_ratio_interval a b c d with
       | (Some lo, Some hi) =>
           if lo =? of_int 0 then StatisticalValidator.EmptyMessage
           else StatisticalValidator.OddsRatioMessage
                  (odds_ratio_value a b c d) lo hi
       | _ => StatisticalValidator.EmptyMessage
       end |}.
End Values.

(** Sums, means and variances of arrays of real numbers. *)
Section RealValues.
Local Open Scope R_scope.

Definition Rsum (l : list R) : R := fold_left Rplus l 0.

Definition Rmean (l : list R) : R := Rsum l / IZR (len l).

(** The variance with one degree of freedom removed. *)
Definition Rvar1 (l : list R) : R :=
  Rsum (map (fun v => (v - Rmean l) * (v - Rmean l)) l) / IZR (len l - 1).

(** The variance with no degree of freedom removed. *)
Definition Rvar0 (l : list R) : R :=
  Rsum (map (fun v => (v - Rmean l) * (v - Rmean l)) l) / IZR (len l).

(** The sorted array and the median of an array of real numbers: the mean
    of the middle element or of the two middle elements. *)
Fixpoint Rinsert (x : R) (l : list R) : list R :=
  match l with
  | [] => [x]
  | y :: l' => if Rle_bool x y then x :: l else y :: Rinsert x l'
  end.

Definition Rsort (l : list R) : list R := fold_right Rinsert [] l.

Definition Rmedian (l : list R) : R :=
  let part := Rsort l in
  let sz := length l in
  let index := Nat.div sz 2 in
  Rmean (if Nat.even sz then firstn 2 (skipn (index - 1) part)
         else firstn 1 (skipn index part)).

(** The pooled variance of two groups. *)
Definition pooled_variance (g0 g1 : list R) : R :=
  (IZR (len g0 - 1) * Rvar1 g0 + IZR (len g1 - 1) * Rvar1 g1)
  / IZR (len g0 + len g1 - 2).
End RealValues.

Unset Implicit Arguments.

(* ================================================================== *)
(** * 11. Running computations *)
(* ================================================================== *)

Section RunLemmas.
Context {F : Type} `{Float F} `{NumpyRandom F}.
Local Open Scope fl_scope.

Lemma bind_ok {A B} (c : Py A) (k : A -> Py B) (w w' : World) (a : A) :
  c w = (Ok a, w') -> bind c k w = k a w'.
Proof. intros E. unfold bind. rewrite E. reflexivity. Qed.

Lemma bind_raise {A B} (c : Py A) (k : A -> Py B) (w w' : World) (e : exn) :
  c w = (Raise e, w') -> bind c k w = (Raise e, w').
Proof. intros E. unfold bind. rewrite E. reflexivity. Qed.

Lemma true_divide_run (a b : F) (w : World) :
  true_divide a b w = (Ok (a / b), after_division 1 b w).
Proof.
  unfold true_divide, after_division, bind, note_zero_divisions, ret.
  destruct (b =? of_int 0); reflexivity.
Qed.

Lemma true_divide_array_run (l : list F) (b : F) (w : World) :
  true_divide_array l b w = (Ok (map (fun a => a / b) l), after_division (length l) b w).
Proof.
  unfold true_divide_array, after_division, bind, note_zero_divisions, ret.
  destruct (b =? of_int 0); reflexivity.
Qed.

Lemma after_division_random (k : nat) (b : F) (w : World) :
  np_random (after_division k b w) = np_random w.
Proof. unfold after_division. destruct (b =? of_int 0); reflexivity. Qed.

Lemma after_division_nonzero (k : nat) (b : F) (w : World) :
  (b =? of_int 0) = false -> after_division k b w = w.
Proof. unfold after_division. intros ->. reflexivity. Qed.

Lemma np_mean_run (l : list F) (w : World) :
  np_mean l w = (Ok (np_sum l / of_int (len l)), after_division 1 (of_int (len l)) w).
Proof. apply true_divide_run. Qed.

Lemma np_var_run (l : list F) (ddof : Z) (w : World) :
  np_var l ddof w =
  (Ok (var_value l ddof),
   after_division 1 (of_int (Z.max (len l - ddof) 0))
     (after_division 1 (of_int (len l)) w)).
Proof.
  unfold np_var. erewrite bind_ok by apply true_divide_run.
  apply true_divide_run.
Qed.

Lemma getitem_mask_run {A} (a : list A) (mask : list bool) (w : World) :
  length a = length mask ->
  getitem_mask a mask w = (Ok (select a mask), w).
Proof.
  intros E. unfold getitem_mask. rewrite E, Nat.eqb_refl. reflexivity.
Qed.


Lemma select_length {A} (a : list A) (mask : list bool) :
  length a = length mask -> length (select a mask) = count_true mask.
Proof.
  revert mask. induction a as [|x a IH]; intros [|b mask] E; simpl in *; try lia.
  - reflexivity.
  - injection E as E. destruct b; simpl; rewrite IH by assumption; reflexivity.
Qed.

(** Masked assignment of the image of the selected elements. *)
Lemma put_mask_map_select {A} (f : A -> A) (a : list A) (mask : list bool) :
  put_mask a mask (map f (select a mask)) =
  zip_with (fun x (b : bool) => if b then f x else x) a mask
  ++ skipn (length mask) a.
Proof.
  revert mask. induction a as [|x a IH]; intros [|b mask]; simpl; try reflexivity.
  destruct b; simpl; rewrite IH; reflexivity.
Qed.

Lemma setitem_mask_map_select {A} (f : A -> A) (a : list A) (mask : list bool)
    (w : World) :
  length a = length mask ->
  setitem_mask a mask (map f (select a mask)) w =
  (Ok (zip_with (fun x (b : bool) => if b then f x else x) a mask), w).
Proof.
  intros E. unfold setitem_mask.
  rewrite E, Nat.eqb_refl. simpl.
  rewrite length_map, select_length by assumption.
  rewrite Nat.eqb_refl, put_mask_map_select.
  rewrite <- E, skipn_all, app_nil_r. reflexivity.
Qed.

Lemma zip_with_length {A B C} (f : A -> B -> C) (xs : list A) (ys : list B) :
  length xs = length ys -> length (zip_with f xs ys) = length xs.
Proof.
  revert ys. induction xs as [|x xs IH]; intros [|y ys] E; simpl in *; try lia.
  injection E as E. rewrite IH by assumption. reflexivity.
Qed.

End RunLemmas.

Section EffectSize.
Context {F : Type} `{Float F} `{NumpyRandom F}.
Local Open Scope fl_scope.
Import ContinuousVariableGenerator.

Lemma is_group_length (k : Z) (group : list Z) :
  length (is_group k group) = length group.
Proof. apply length_map. Qed.

Lemma calculate_cohens_d_run (self : instance) (data : list F) (group : list Z)
    (w : World) :
  length data = length group ->
  _calculate_cohens_d self data group w =
  (Ok (cohens_d_value data group),
   after_divisions (cohens_d_divisors data group) w).
Proof.
  intros E. unfold _calculate_cohens_d.
  erewrite bind_ok
    by (apply getitem_mask_run; rewrite length_map; exact E).
  erewrite bind_ok
    by (apply getitem_mask_run; rewrite length_map; exact E).
  erewrite bind_ok by apply np_var_run.
  erewrite bind_ok by apply np_var_run.
  erewrite bind_ok by apply true_divide_run.
  erewrite bind_ok by apply np_mean_run.
  erewrite bind_ok by apply np_mean_run.
  rewrite true_divide_run. reflexivity.
Qed.



Lemma adjust_effect_size_given_nonzero (self : instance) (data : list F)
    (group : list Z) (target c : F) (w : World) :
  length data = length group ->
  (c =? of_int 0) = false ->
  exists w' : World,
    adjust_effect_size self data group target (Some c) w
    = (Ok (shifted data group target c), w')
    /\ np_random w' = np_random w.
Proof.
  intros E Hc. unfold adjust_effect_size.
  erewrite bind_ok by reflexivity. rewrite Hc.
  assert (E1 : length data = length (is_group 1 group))
    by (rewrite is_group_length; exact E).
  assert (E0 : length data = length (map negb (is_group 1 group)))
    by (rewrite length_map; exact E1).
  fold (is_group 1 group).
  erewrite bind_ok by apply true_divide_run.
  erewrite bind_ok by (apply getitem_mask_run; exact E0).
  erewrite bind_ok by apply np_var_run.
  erewrite bind_ok by (apply getitem_mask_run; exact E1).
  erewrite bind_ok by apply np_var_run.
  erewrite bind_ok by apply true_divide_run.
  erewrite bind_ok by (apply getitem_mask_run; exact E1).
  erewrite bind_ok by apply np_mean_run.
  erewrite bind_ok by (apply getitem_mask_run; exact E0).
  erewrite bind_ok by apply np_mean_run.
  erewrite bind_ok by (apply getitem_mask_run; exact E1).
  eexists. split.
  - apply setitem_mask_map_select with
      (f := fun x => x - mean_difference data group
                     + mean_difference data group * (target / c)).
    exact E1.
  - repeat rewrite after_division_random. reflexivity.
Qed.

Lemma adjust_effect_size_computed (self : instance) (data : list F)
    (group : list Z) (target d : F) (w w1 : World) :
  _calculate_cohens_d self data group w = (Ok d, w1) ->
  adjust_effect_size self data group target None w
  = adjust_effect_size self data group target (Some d) w1.
Proof.
  intros E. unfold adjust_effect_size.
  erewrite bind_ok by exact E.
  erewrite (bind_ok (ret d)) by reflexivity. reflexivity.
Qed.


End EffectSize.

(* ================================================================== *)
(** * 12. Seeded samplers and the process-wide generator *)
(* ================================================================== *)

Section Streams.
Context {F : Type} `{Float F} `{Transcend F} `{NumpyRandom F}.
Local Open Scope py_scope.
Local Open Scope fl_scope.

Lemma sd_ret {A} (a : A) : stream_determined (ret a).
Proof. intros w1 w2 E. split; [reflexivity | exact E]. Qed.

Lemma sd_raise {A} (e : exn) : stream_determined (@raise F _ A e).
Proof. intros w1 w2 E. split; [reflexivity | exact E]. Qed.

Lemma sd_bind {A B} (c : Py A) (k : A -> Py B) :
  stream_determined c -> (forall a, stream_determined (k a)) ->
  stream_determined (bind c k).
Proof.
  intros Hc Hk w1 w2 E. unfold bind.
  destruct (Hc w1 w2 E) as [E1 E2].
  destruct (c w1) as [[a1|e1] v1], (c w2) as [[a2|e2] v2]; simpl in *;
    try discriminate.
  - injection E1 as ->. apply Hk. exact E2.
  - injection E1 as ->. split; [reflexivity | assumption].
Qed.

Lemma sd_draw {A} (d : BitGen -> A * BitGen) : stream_determined (draw d).
Proof.
  intros w1 w2 E. unfold draw. rewrite E.
  destruct (d (np_random w2)) as [a g]. split; reflexivity.
Qed.

Lemma sd_set_random (g : BitGen) : stream_determined (set_random g).
Proof. intros w1 w2 E. split; reflexivity. Qed.

Lemma sd_note (k : nat) : stream_determined (note_zero_divisions k).
Proof. intros w1 w2 E. split; [reflexivity | exact E]. Qed.

Lemma sd_size_arg (n : Z) : stream_determined (size_arg n).
Proof. unfold size_arg. destruct (n <? 0)%Z; [apply sd_raise | apply sd_ret]. Qed.

Lemma sd_true_divide (a b : F) : stream_determined (true_divide a b).
Proof.
  unfold true_divide. apply sd_bind; [|intros; apply sd_ret].
  destruct (b =? of_int 0); [apply sd_note | apply sd_ret].
Qed.

Lemma sd_true_divide_array (l : list F) (b : F) :
  stream_determined (true_divide_array l b).
Proof.
  unfold true_divide_array. apply sd_bind; [|intros; apply sd_ret].
  destruct (b =? of_int 0); [apply sd_note | apply sd_ret].
Qed.

Lemma sd_py_divide (a b : F) : stream_determined (py_divide a b).
Proof.
  unfold py_divide. destruct (b =? of_int 0); [apply sd_raise | apply sd_ret].
Qed.

Lemma sd_np_random_seed (s : Z) : stream_determined (np_random_seed s).
Proof.
  unfold np_random_seed.
  destruct ((0 <=? s) && (s <? 2 ^ 32))%Z; [apply sd_set_random | apply sd_raise].
Qed.

Create HintDb stream.
Hint Resolve sd_ret sd_raise sd_draw sd_set_random sd_note sd_size_arg
  sd_true_divide sd_true_divide_array sd_py_divide sd_np_random_seed : stream.

Ltac stream_step :=
  match goal with
  | |- stream_determined (bind _ _) => apply sd_bind; [ | intros ]
  | |- stream_determined (if ?b then _ else _) => destruct b
  | |- stream_determined (match ?x with _ => _ end) => destruct x
  | |- stream_determined _ => solve [ auto with stream ]
  end.

Ltac stream := repeat stream_step.

Lemma sd_np_mean (l : list F) : stream_determined (np_mean l).
Proof. apply sd_true_divide. Qed.

Lemma sd_np_var (l : list F) (ddof : Z) : stream_determined (np_var l ddof).
Proof. unfold np_var. stream. Qed.

Lemma sd_np_std (l : list F) : stream_determined (np_std l).
Proof. unfold np_std. stream. apply sd_np_var. Qed.

Hint Resolve sd_np_mean sd_np_var sd_np_std : stream.

Import ContinuousVariableGenerator.











End Streams.



(* ================================================================== *)
(** * 13. Comparisons of the two float types *)
(* ================================================================== *)

Lemma Req_bool_true (a b : R) : a = b -> Req_bool a b = true.
Proof. intros E. unfold Req_bool. destruct (Req_dec_T a b); [reflexivity | contradiction]. Qed.

Lemma Req_bool_false (a b : R) : a <> b -> Req_bool a b = false.
Proof. intros E. unfold Req_bool. destruct (Req_dec_T a b); [contradiction | reflexivity]. Qed.

Lemma Rlt_bool_true (a b : R) : (a < b)%R -> Rlt_bool a b = true.
Proof. intros E. unfold Rlt_bool. destruct (Rlt_dec a b); [reflexivity | contradiction]. Qed.

Lemma Rlt_bool_false (a b : R) : (b <= a)%R -> Rlt_bool a b = false.
Proof. intros E. unfold Rlt_bool. destruct (Rlt_dec a b); [lra | reflexivity]. Qed.

Lemma Rle_bool_true (a b : R) : (a <= b)%R -> Rle_bool a b = true.
Proof. intros E. unfold Rle_bool. destruct (Rle_dec a b); [reflexivity | contradiction]. Qed.

Lemma Rle_bool_false (a b : R) : (b < a)%R -> Rle_bool a b = false.
Proof. intros E. unfold Rle_bool. destruct (Rle_dec a b); [lra | reflexivity]. Qed.

#[export] Instance xreal_FloatLaws : FloatLaws xreal.
Proof.
  split.
  - intros [a|s|] b E; try discriminate. reflexivity.
  - intros [a|s|] [b|t|] E; try discriminate; reflexivity.
  - intros [a|s|] E; try discriminate; simpl.
    + apply Rle_bool_true. lra.
    + destruct s; reflexivity.
Qed.

Lemma SFcompare_refl (x : spec_float) :
  B64.isnan x = false -> SFcompare x x = Some Eq.
Proof.
  destruct x as [s|s| |s m e]; simpl; intros E; try discriminate.
  - reflexivity.
  - destruct s; reflexivity.
  - rewrite Z.compare_refl, Pos.compare_cont_refl. destruct s; reflexivity.
Qed.

#[export] Instance binary64_FloatLaws : FloatLaws B64.binary64.
Proof.
  split.
  - intros [s|s| |s m e] b E; try discriminate. reflexivity.
  - intros a [s|s| |s m e] E; try discriminate.
    unfold fleb; simpl. unfold SFleb. destruct a; reflexivity.
  - intros a E. unfold fleb; simpl. unfold SFleb.
    rewrite SFcompare_refl by exact E. reflexivity.
Qed.

(* ================================================================== *)
(** * 14. enforce_range and add_dropout *)
(* ================================================================== *)

Section Range.
Context {F : Type} `{FloatLaws F}.
Local Open Scope fl_scope.
Import RealismEnhancer.

Lemma enforce_range_map (self : instance) (data : list F) (lo hi : option F) :
  enforce_range self data lo hi = map (clip lo hi) data.
Proof.
  unfold enforce_range, clip. destruct lo, hi; try rewrite map_map;
    try reflexivity.
  symmetry. apply map_id.
Qed.

Lemma np_maximum_self (a : F) : np_maximum a a = a.
Proof. unfold np_maximum. destruct ((a <=? a) || fisnan a); reflexivity. Qed.

Lemma np_minimum_self (a : F) : np_minimum a a = a.
Proof. unfold np_minimum. destruct ((a <=? a) || fisnan a); reflexivity. Qed.

Lemma np_maximum_idem (x l : F) : np_maximum (np_maximum x l) l = np_maximum x l.
Proof.
  unfold np_maximum at 2 3.
  destruct ((l <=? x) || fisnan x) eqn:E.
  - unfold np_maximum. rewrite E. reflexivity.
  - apply np_maximum_self.
Qed.

Lemma np_minimum_idem (x h : F) : np_minimum (np_minimum x h) h = np_minimum x h.
Proof.
  unfold np_minimum at 2 3.
  destruct ((x <=? h) || fisnan x) eqn:E.
  - unfold np_minimum. rewrite E. reflexivity.
  - apply np_minimum_self.
Qed.

Lemma clip_idempotent (lo hi : option F) (x : F) :
  clip lo hi (clip lo hi x) = clip lo hi x.
Proof.
  destruct lo as [l|], hi as [h|]; simpl.
  - (* both bounds *)
    set (u := np_maximum x l).
    unfold np_minimum at 2 3.
    destruct ((u <=? h) || fisnan u) eqn:Eu.
    + (* the upper bound leaves [u] *)
      subst u. rewrite np_maximum_idem.
      unfold np_minimum. rewrite Eu. reflexivity.
    + (* the result is [h] *)
      apply orb_false_iff in Eu. destruct Eu as [Euh Enu].
      unfold np_maximum at 1.
      destruct ((l <=? h) || fisnan h) eqn:Eh.
      * apply np_minimum_self.
      * apply orb_false_iff in Eh. destruct Eh as [Elh Enh].
        unfold np_minimum. rewrite Elh. simpl.
        destruct (fisnan l) eqn:Enl; [ | reflexivity ].
        (* a NaN lower bound makes [u] NaN *)
        exfalso. subst u. unfold np_maximum in Enu.
        rewrite (fleb_nan_l l x Enl) in Enu. simpl in Enu.
        destruct (fisnan x) eqn:Enx; congruence.
  - apply np_maximum_idem.
  - apply np_minimum_idem.
  - reflexivity.
Qed.

(** C9. For every array and every pair of optional bounds, applying
    [enforce_range] twice gives the array that applying it once gives,
    element by element (NaN elements and bounds included). *)
Theorem enforce_range_idempotent :
  forall (self : instance) (x : list F) (min_val max_val : option F),
    enforce_range self (enforce_range self x min_val max_val) min_val max_val
    = enforce_range self x min_val max_val.
Proof.
  intros. rewrite !enforce_range_map, map_map.
  apply map_ext. intros a. apply clip_idempotent.
Qed.
End Range.

(** The theorem at the bounds 0 and 10, on an array with a value below, a
    value inside, a value above, and a NaN. *)
Lemma enforce_range_idempotent_witness :
  RealismEnhancer.enforce_range {| RealismEnhancer.random_seed := None |}
    (RealismEnhancer.enforce_range {| RealismEnhancer.random_seed := None |}
       [B64.dec (-5) 1; B64.dec 37 1; B64.dec 125 1; S754_nan]
       (Some (B64.of_Z 0)) (Some (B64.of_Z 10)))
    (Some (B64.of_Z 0)) (Some (B64.of_Z 10))
  = RealismEnhancer.enforce_range {| RealismEnhancer.random_seed := None |}
      [B64.dec (-5) 1; B64.dec 37 1; B64.dec 125 1; S754_nan]
      (Some (B64.of_Z 0)) (Some (B64.of_Z 10)).
Proof.
  apply (@enforce_range_idempotent B64.binary64 B64.binary64_Float
           binary64_FloatLaws).
Defined.

Section Dropout.
Context {F : Type} `{Float F} `{NumpyRandom F}.
Import RealismEnhancer.

(** C8. For every data dict, dropout rate and world (the state of the
    random generator included), [add_dropout] with the mechanism
    ['related'] returns the same filtered dict and dropout mask, and leaves
    the same world, as with the mechanism ['random']. *)
Theorem add_dropout_related_equals_random :
  forall (self : instance) (data : list (string * list F)) (dropout_rate : F)
         (w : World),
    add_dropout self data dropout_rate "related" w
    = add_dropout self data dropout_rate "random" w.
Proof. intros self data dropout_rate w. reflexivity. Qed.
End Dropout.

(* ================================================================== *)
(** * 15. adjust_effect_size: the elements it leaves alone *)
(* ================================================================== *)

Section Frame.
Context {F : Type} `{Float F} `{NumpyRandom F}.
Local Open Scope fl_scope.
Import ContinuousVariableGenerator.


End Frame.


Lemma run_eq {A W} (a b : A) (w w' : W) :
  (Ok a, w) = (Ok b, w') -> a = b /\ w = w'.
Proof. intros E. split; congruence. Qed.

(* ================================================================== *)
(** * 16. adjust_effect_size: a zero effect size *)
(* ================================================================== *)

(** NaN propagation and division by zero in exact arithmetic. *)

Lemma xadd_not_nan (a b : xreal) :
  xisnan (xadd a b) = false -> xisnan a = false /\ xisnan b = false.
Proof. destruct a, b; simpl; auto; discriminate. Qed.

Lemma xopp_not_nan (a : xreal) : xisnan (xopp a) = false -> xisnan a = false.
Proof. destruct a; simpl; auto. Qed.

Lemma xsub_not_nan (a b : xreal) :
  xisnan (xsub a b) = false -> xisnan a = false /\ xisnan b = false.
Proof.
  unfold xsub. intros E. apply xadd_not_nan in E. destruct E as [Ea Eb].
  split; [exact Ea | apply xopp_not_nan; exact Eb].
Qed.

Lemma xmul_not_nan (a b : xreal) :
  xisnan (xmul a b) = false -> xisnan a = false /\ xisnan b = false.
Proof. destruct a, b; simpl; auto; discriminate. Qed.

Lemma xdiv_not_nan (a b : xreal) :
  xisnan (xdiv a b) = false -> xisnan a = false /\ xisnan b = false.
Proof. destruct a, b; simpl; auto; discriminate. Qed.

Lemma xsqrt_not_nan (a : xreal) : xisnan (xsqrt a) = false -> xisnan a = false.
Proof. destruct a; simpl; auto. Qed.



(** Zero divided by zero, and NaN divided by anything, is NaN. *)
Lemma xdiv_zero_or_nan_by_zero (a : xreal) :
  a = XFin 0 \/ a = XNaN -> xdiv a (XFin 0) = XNaN.
Proof.
  intros [-> | ->]; simpl; [ | reflexivity ].
  rewrite !Req_bool_true by reflexivity. reflexivity.
Qed.

Lemma IZR_nonzero (k : Z) : k <> 0%Z -> xeqb (XFin (IZR k)) (XFin 0) = false.
Proof. intros E. simpl. apply Req_bool_false. apply not_0_IZR. exact E. Qed.

Section Variance.
(** The sum of squared deviations of an array with at most one element is
    zero or NaN, so its variance with one degree of freedom removed is
    NaN. *)
Lemma var_value_short (l : list xreal) :
  (length l <= 1)%nat -> var_value l 1 = XNaN.
Proof.
  intros Hl. unfold var_value.
  assert (D : Z.max (len l - 1) 0 = 0%Z) by (unfold len; lia).
  rewrite D. simpl of_int. apply xdiv_zero_or_nan_by_zero.
  destruct l as [|x [|y l]]; simpl in Hl; try lia.
  - left. reflexivity.
  - unfold np_sum, len. simpl.
    destruct x as [r|s|]; simpl.
    + rewrite Req_bool_false by lra. simpl. left. f_equal. field.
    + right. rewrite Rlt_bool_false by lra. destruct s; reflexivity.
    + right. reflexivity.
Qed.

Lemma var_value_not_nan (l : list xreal) :
  xisnan (var_value l 1) = false -> (2 <= length l)%nat.
Proof.
  intros E. destruct (le_lt_dec (length l) 1) as [Hl|Hl]; [ | lia ].
  rewrite var_value_short in E by exact Hl. discriminate.
Qed.
End Variance.

Section ZeroEffect.
Context `{NumpyRandom xreal}.
Import ContinuousVariableGenerator.


(** Both groups have two elements or more when Cohen's d is a number. *)
Lemma cohens_d_groups (data : list xreal) (group : list Z) :
  xisnan (cohens_d_value data group) = false ->
  (2 <= length (select data (is_group 0 group)))%nat
  /\ (2 <= length (select data (is_group 1 group)))%nat.
Proof.
  unfold cohens_d_value. intros E.
  apply xdiv_not_nan in E. destruct E as [_ E].
  apply xsqrt_not_nan in E.
  apply xdiv_not_nan in E. destruct E as [E _].
  apply xadd_not_nan in E. destruct E as [E0 E1].
  apply xmul_not_nan in E0. apply xmul_not_nan in E1.
  split; apply var_value_not_nan; tauto.
Qed.


End ZeroEffect.

(* ================================================================== *)
(** * 17. adjust_effect_size: reaching the target *)
(* ================================================================== *)

(** Arrays of real numbers in exact arithmetic. *)

Section RealArrays.
Local Open Scope R_scope.

Lemma fold_left_Rplus (l : list R) (a : R) :
  fold_left Rplus l a = a + Rsum l.
Proof.
  unfold Rsum. revert a. induction l as [|x l IH]; intros a; simpl.
  - lra.
  - rewrite IH, (IH (0 + x)). lra.
Qed.

Lemma Rsum_cons (x : R) (l : list R) : Rsum (x :: l) = x + Rsum l.
Proof. unfold Rsum at 1. simpl. rewrite fold_left_Rplus. lra. Qed.

Lemma len_cons {A} (x : A) (l : list A) : len (x :: l) = (len l + 1)%Z.
Proof. unfold len. simpl length. lia. Qed.

Lemma len_nonneg {A} (l : list A) : (0 <= len l)%Z.
Proof. unfold len. lia. Qed.

Lemma len_map {A B} (f : A -> B) (l : list A) : len (map f l) = len l.
Proof. unfold len. rewrite length_map. reflexivity. Qed.

Lemma Rsum_shift (d : R) (l : list R) :
  Rsum (map (fun x => x + d) l) = Rsum l + IZR (len l) * d.
Proof.
  induction l as [|x l IH].
  - unfold Rsum, len. simpl. lra.
  - simpl map. rewrite !Rsum_cons, IH, len_cons, plus_IZR. lra.
Qed.

Lemma Rmean_shift (d : R) (l : list R) :
  l <> [] -> Rmean (map (fun x => x + d) l) = Rmean l + d.
Proof.
  intros Hl. unfold Rmean. rewrite Rsum_shift, len_map.
  assert (IZR (len l) <> 0).
  { apply not_0_IZR. destruct l; [contradiction | rewrite len_cons].
    pose proof (len_nonneg l). lia. }
  field. assumption.
Qed.

Lemma Rvar1_shift (d : R) (l : list R) :
  l <> [] -> Rvar1 (map (fun x => x + d) l) = Rvar1 l.
Proof.
  intros Hl. unfold Rvar1. rewrite Rmean_shift by exact Hl.
  rewrite map_map, len_map. f_equal. f_equal.
  apply map_ext. intros x. lra.
Qed.

(** Arrays of finite numbers. *)
Lemma fold_left_xadd_finite (l : list R) (a : R) :
  fold_left xadd (map XFin l) (XFin a) = XFin (fold_left Rplus l a).
Proof.
  revert a. induction l as [|x l IH]; intros a; simpl; [reflexivity | apply IH].
Qed.

Lemma np_sum_finite (l : list R) : np_sum (map XFin l) = XFin (Rsum l).
Proof. apply fold_left_xadd_finite. Qed.

Lemma xdiv_finite (a b : R) : b <> 0 -> xdiv (XFin a) (XFin b) = XFin (a / b).
Proof. intros Hb. simpl. rewrite Req_bool_false by exact Hb. reflexivity. Qed.

Lemma len_positive {A} (l : list A) : (1 <= length l)%nat -> IZR (len l) <> 0.
Proof. intros Hl. apply not_0_IZR. unfold len. lia. Qed.

Lemma mean_finite (l : list R) :
  (1 <= length l)%nat ->
  xdiv (np_sum (map XFin l)) (XFin (IZR (len (map XFin l)))) = XFin (Rmean l).
Proof.
  intros Hl. rewrite np_sum_finite, len_map, xdiv_finite
    by (apply len_positive; exact Hl).
  reflexivity.
Qed.

Lemma var_value_finite (l : list R) :
  (2 <= length l)%nat -> var_value (map XFin l) 1 = XFin (Rvar1 l).
Proof.
  intros Hl. unfold var_value.
  change (@fdiv xreal _) with xdiv. change (@of_int xreal _) with (fun z => XFin (IZR z)).
  cbv beta.
  rewrite mean_finite by lia.
  rewrite map_map.
  rewrite (map_ext _ (fun v => XFin ((v - Rmean l) * (v - Rmean l))))
    by (intros v; simpl; f_equal; lra).
  rewrite <- (map_map (fun v => (v - Rmean l) * (v - Rmean l)) XFin).
  rewrite np_sum_finite, len_map.
  rewrite Z.max_l by (unfold len; lia).
  rewrite xdiv_finite by (apply not_0_IZR; unfold len; lia).
  reflexivity.
Qed.

Lemma select_map {A B} (f : A -> B) (l : list A) (mask : list bool) :
  select (map f l) mask = map f (select l mask).
Proof.
  revert mask. induction l as [|x l IH]; intros [|b mask]; simpl; try reflexivity.
  destruct b; simpl; rewrite IH; reflexivity.
Qed.

Lemma zip_with_map_l {A B C D} (f : B -> C -> D) (g : A -> B) (l : list A)
    (m : list C) :
  zip_with f (map g l) m = zip_with (fun x y => f (g x) y) l m.
Proof.
  revert m. induction l as [|x l IH]; intros [|y m]; simpl; try reflexivity.
  rewrite IH. reflexivity.
Qed.

Lemma zip_with_ext {A B C} (f g : A -> B -> C) (l : list A) (m : list B) :
  (forall x y, f x y = g x y) -> zip_with f l m = zip_with g l m.
Proof.
  intros E. revert m. induction l as [|x l IH]; intros [|y m]; simpl;
    try reflexivity.
  rewrite E, IH. reflexivity.
Qed.

Lemma map_zip_with {A B C D} (f : A -> B -> C) (g : C -> D) (l : list A)
    (m : list B) :
  map g (zip_with f l m) = zip_with (fun x y => g (f x y)) l m.
Proof.
  revert m. induction l as [|x l IH]; intros [|y m]; simpl; try reflexivity.
  rewrite IH. reflexivity.
Qed.

(** Selecting group 1 from an array whose group 1 was mapped. *)
Lemma select_mapped_group (f : R -> R) (l : list R) (group : list Z) :
  select (zip_with (fun x (b : bool) => if b then f x else x) l (is_group 1 group))
         (is_group 1 group)
  = map f (select l (is_group 1 group)).
Proof.
  revert group. induction l as [|x l IH]; intros [|g group]; simpl;
    try reflexivity.
  destruct (Z.eqb g 1); simpl; rewrite IH; reflexivity.
Qed.

Lemma select_other_group (f : R -> R) (l : list R) (group : list Z) :
  select (zip_with (fun x (b : bool) => if b then f x else x) l (is_group 1 group))
         (is_group 0 group)
  = select l (is_group 0 group).
Proof.
  revert group. induction l as [|x l IH]; intros [|g group]; simpl;
    try reflexivity.
  destruct (Z.eqb_spec g 0) as [->|N]; simpl; rewrite IH; reflexivity.
Qed.

Lemma binary_group_complement (group : list Z) :
  Forall (fun g => g = 0%Z \/ g = 1%Z) group ->
  map negb (is_group 1 group) = is_group 0 group.
Proof.
  intros Hg. induction Hg as [|g group [-> | ->] _ IH]; simpl;
    try rewrite IH; reflexivity.
Qed.
End RealArrays.

Section Target.
Context `{NumpyRandom xreal}.
Import ContinuousVariableGenerator.
Local Open Scope R_scope.

Lemma cohens_d_value_finite (rs : list R) (group : list Z) :
  let g0 := select rs (is_group 0 group) in
  let g1 := select rs (is_group 1 group) in
  (2 <= length g0)%nat -> (2 <= length g1)%nat ->
  cohens_d_value (map XFin rs) group
  = xdiv (XFin (Rmean g1 - Rmean g0)) (xsqrt (XFin (pooled_variance g0 g1))).
Proof.
  intros g0 g1 H0 H1. unfold cohens_d_value.
  rewrite !select_map. fold g0 g1.
  rewrite !var_value_finite by assumption.
  change (@fdiv xreal _) with xdiv. change (@fsub xreal _) with xsub.
  change (@fsqrt xreal _) with xsqrt.
  rewrite !mean_finite by lia.
  rewrite !len_map.
  f_equal.
  f_equal. simpl.
  rewrite Req_bool_false by (apply not_0_IZR; unfold len; lia).
  reflexivity.
Qed.

(** A finite, nonzero Cohen's d is the mean difference over the root of
    a pooled variance that is not zero. *)
Lemma xdiv_sqrt_finite (m q c : R) :
  xdiv (XFin m) (xsqrt (XFin q)) = XFin c -> c <> 0 ->
  Rlt_bool q 0 = false /\ sqrt q <> 0 /\ c = m / sqrt q.
Proof.
  simpl. destruct (Rlt_bool q 0); [discriminate | ].
  simpl. unfold Req_bool at 1.
  destruct (Req_dec_T (sqrt q) 0) as [Z|NZ].
  - destruct (Req_bool m 0); discriminate.
  - intros [= <-] _. auto.
Qed.

Lemma mean_difference_finite (rs : list R) (group : list Z) :
  let g0 := select rs (is_group 0 group) in
  let g1 := select rs (is_group 1 group) in
  Forall (fun g => g = 0%Z \/ g = 1%Z) group ->
  (1 <= length g0)%nat -> (1 <= length g1)%nat ->
  mean_difference (map XFin rs) group = XFin (Rmean g1 - Rmean g0).
Proof.
  intros g0 g1 Hg H0 H1. unfold mean_difference.
  rewrite binary_group_complement by exact Hg.
  rewrite !select_map. fold g0 g1.
  change (@fdiv xreal _) with xdiv.
  rewrite !mean_finite by assumption. reflexivity.
Qed.

Lemma target_algebra (m1 m0 s t : R) :
  s <> 0 -> m1 - m0 <> 0 ->
  (m1 + ((m1 - m0) * (t / ((m1 - m0) / s)) - (m1 - m0)) - m0) / s = t.
Proof. intros Hs Hm. field. split; assumption. Qed.

Lemma shifted_finite (rs : list R) (group : list Z) (t c : R) :
  let g0 := select rs (is_group 0 group) in
  let g1 := select rs (is_group 1 group) in
  let md := Rmean g1 - Rmean g0 in
  Forall (fun g => g = 0%Z \/ g = 1%Z) group ->
  (1 <= length g0)%nat -> (1 <= length g1)%nat -> c <> 0 ->
  shifted (map XFin rs) group (XFin t) (XFin c)
  = map XFin (zip_with (fun x (b : bool) =>
                          if b then (fun v => v + (md * (t / c) - md)) x else x)
                       rs (is_group 1 group)).
Proof.
  intros g0 g1 md Hg H0 H1 Hc. unfold shifted.
  rewrite mean_difference_finite by assumption. fold g0 g1 md.
  rewrite zip_with_map_l, map_zip_with.
  apply zip_with_ext. intros x [|]; [ | reflexivity ].
  simpl. rewrite Req_bool_false by exact Hc. f_equal. lra.
Qed.

(** When the Cohen's d computed from an array of real numbers is a nonzero
    number [c], the adjusted array has the target as its Cohen's d. *)
Lemma adjust_effect_size_target_of_computed :
  forall (self : instance) (rs : list R) (group : list Z) (t c : R)
         (w w1 : World),
    length rs = length group ->
    Forall (fun g => g = 0%Z \/ g = 1%Z) group ->
    _calculate_cohens_d self (map XFin rs) group w = (Ok (XFin c), w1) ->
    c <> 0 ->
    exists (out : list xreal) (w2 w3 : World),
      adjust_effect_size self (map XFin rs) group (XFin t) None w = (Ok out, w2)
      /\ _calculate_cohens_d self out group w2 = (Ok (XFin t), w3).
Proof.
  intros self rs group t c w w1 L Hg E Hc.
  assert (L' : length (map XFin rs) = length group)
    by (rewrite length_map; exact L).
  pose proof E as E'.
  rewrite calculate_cohens_d_run in E' by exact L'.
  apply run_eq in E'. destruct E' as [Ev _].
  (* both groups have two elements or more *)
  destruct (cohens_d_groups (map XFin rs) group) as [H0 H1].
  { rewrite Ev. reflexivity. }
  rewrite select_map, length_map in H0, H1.
  set (g0 := select rs (is_group 0 group)) in *.
  set (g1 := select rs (is_group 1 group)) in *.
  rewrite cohens_d_value_finite in Ev by assumption. fold g0 g1 in Ev.
  destruct (xdiv_sqrt_finite _ _ _ Ev Hc) as (Hq & Hs & Hcd).
  (* the adjustment runs and shifts group 1 *)
  erewrite adjust_effect_size_computed by exact E.
  destruct (adjust_effect_size_given_nonzero self (map XFin rs) group (XFin t)
              (XFin c) w1 L') as (w2 & Ea & _).
  { simpl. apply Req_bool_false. exact Hc. }
  rewrite shifted_finite in Ea by (try assumption; subst g0 g1; lia).
  fold g0 g1 in Ea.
  set (md := Rmean g1 - Rmean g0) in *.
  set (out := zip_with _ rs (is_group 1 group)) in Ea.
  exists (map XFin out), w2. eexists. split; [exact Ea | ].
  (* Cohen's d of the shifted array *)
  assert (Lo : length (map XFin out) = length group).
  { rewrite length_map. unfold out. rewrite zip_with_length; [exact L | ].
    rewrite is_group_length. exact L. }
  rewrite calculate_cohens_d_run by exact Lo. f_equal.
  assert (G0 : select out (is_group 0 group) = g0)
    by apply select_other_group.
  assert (G1 : select out (is_group 1 group)
               = map (fun v => v + (md * (t / c) - md)) g1)
    by apply select_mapped_group.
  assert (N1 : g1 <> []) by (intros Z; rewrite Z in H1; simpl in H1; lia).
  rewrite cohens_d_value_finite
    by (rewrite ?G0, ?G1, ?length_map; assumption).
  rewrite G0, G1, Rmean_shift by exact N1.
  unfold pooled_variance. rewrite Rvar1_shift, len_map by exact N1.
  fold (pooled_variance g0 g1).
  simpl. rewrite Hq. simpl. rewrite Req_bool_false by exact Hs.
  f_equal. f_equal. rewrite Hcd. fold md.
  assert (Hmd : md <> 0).
  { intros Z. apply Hc. rewrite Hcd. fold md. rewrite Z. unfold Rdiv. lra. }
  subst md. apply target_algebra; assumption.
Qed.
(** With two elements or more in each group and a pooled standard deviation
    that is not zero, Cohen's d of an array of real numbers is the mean
    difference over the pooled standard deviation. *)
Lemma cohens_d_value_real (rs : list R) (group : list Z) :
  (2 <= length (select rs (is_group 0 group)))%nat ->
  (2 <= length (select rs (is_group 1 group)))%nat ->
  sqrt (pooled_variance (select rs (is_group 0 group))
                        (select rs (is_group 1 group))) <> 0 ->
  cohens_d_value (map XFin rs) group
  = XFin ((Rmean (select rs (is_group 1 group))
           - Rmean (select rs (is_group 0 group)))
          / sqrt (pooled_variance (select rs (is_group 0 group))
                                  (select rs (is_group 1 group)))).
Proof.
  intros H0 H1 Hs. rewrite cohens_d_value_finite by assumption.
  set (q := pooled_variance _ _) in *.
  assert (Hq : 0 < q).
  { destruct (Rlt_dec 0 q) as [P|N]; [exact P | ].
    exfalso. apply Hs. apply sqrt_neg_0. lra. }
  simpl. rewrite Rlt_bool_false by lra.
  simpl. rewrite Req_bool_false by exact Hs. reflexivity.
Qed.

(** C10. In exact arithmetic, for every array of real numbers and 0/1
    group array of the same length with two elements or more in each group,
    a pooled (ddof = 1) standard deviation that is not zero and a computed
    Cohen's d that is not zero, [adjust_effect_size] with the current effect
    size omitted returns an array whose Cohen's d, as [_calculate_cohens_d]
    computes it, is the target. *)
Theorem adjust_effect_size_reaches_target :
  forall (self : instance) (rs : list R) (group : list Z) (t : R) (w : World),
    length rs = length group ->
    Forall (fun g => g = 0%Z \/ g = 1%Z) group ->
    (2 <= length (select rs (is_group 0 group)))%nat ->
    (2 <= length (select rs (is_group 1 group)))%nat ->
    sqrt (pooled_variance (select rs (is_group 0 group))
                          (select rs (is_group 1 group))) <> 0 ->
    xeqb (cohens_d_value (map XFin rs) group) (XFin 0) = false ->
    exists (out : list xreal) (w2 w3 : World),
      adjust_effect_size self (map XFin rs) group (XFin t) None w = (Ok out, w2)
      /\ _calculate_cohens_d self out group w2 = (Ok (XFin t), w3).
Proof.
  intros self rs group t w L Hg H0 H1 Hs Hd.
  pose proof (cohens_d_value_real rs group H0 H1 Hs) as Ev.
  set (c := (Rmean (select rs (is_group 1 group))
             - Rmean (select rs (is_group 0 group)))
            / sqrt (pooled_variance (select rs (is_group 0 group))
                                    (select rs (is_group 1 group)))) in *.
  apply (adjust_effect_size_target_of_computed self rs group t c w
           (after_divisions (cohens_d_divisors (map XFin rs) group) w) L Hg).
  - rewrite calculate_cohens_d_run by (rewrite length_map; exact L).
    rewrite Ev. reflexivity.
  - intros Z. rewrite Ev, Z in Hd. simpl in Hd.
    rewrite Req_bool_true in Hd by reflexivity. discriminate.
Qed.
End Target.

(** Two groups of three values with variance 1 and means 1 and 4: Cohen's d
    is 3. *)
Lemma pooled_variance_sample :
  pooled_variance [0; 1; 2]%R [3; 4; 5]%R = 1%R.
Proof.
  unfold pooled_variance, Rvar1, Rmean, Rsum, len. simpl. field.
Qed.

Lemma cohens_d_sample :
  cohens_d_value (map XFin [0; 1; 2; 3; 4; 5]%R) [0; 0; 0; 1; 1; 1]%Z = XFin 3.
Proof.
  rewrite cohens_d_value_finite by (simpl; lia).
  simpl select. rewrite pooled_variance_sample.
  simpl. rewrite Rlt_bool_false by lra. rewrite sqrt_1.
  simpl. rewrite Req_bool_false by lra.
  f_equal. unfold Rmean, Rsum, len. simpl. field.
Qed.

(** The theorem at that array and the target 1/2. *)
Lemma adjust_effect_size_reaches_target_witness :
  exists (out : list xreal) (w2 w3 : World),
    ContinuousVariableGenerator.adjust_effect_size
      {| ContinuousVariableGenerator.random_seed := None |}
      (map XFin [0; 1; 2; 3; 4; 5]%R) [0; 0; 0; 1; 1; 1]%Z (XFin (1 / 2)) None
      Reference.startx
    = (Ok out, w2)
    /\ ContinuousVariableGenerator._calculate_cohens_d
         {| ContinuousVariableGenerator.random_seed := None |}
         out [0; 0; 0; 1; 1; 1]%Z w2
       = (Ok (XFin (1 / 2)), w3).
Proof.
  apply (@adjust_effect_size_reaches_target Reference.lcgx
           {| ContinuousVariableGenerator.random_seed := None |}
           [0; 1; 2; 3; 4; 5]%R [0; 0; 0; 1; 1; 1]%Z (1 / 2)%R
           Reference.startx).
  - reflexivity.
  - repeat (apply Forall_cons; [auto | ]). apply Forall_nil.
  - simpl. lia.
  - simpl. lia.
  - simpl select. rewrite pooled_variance_sample, sqrt_1. lra.
  - rewrite cohens_d_sample. simpl. apply Req_bool_false. lra.
Defined.



(* ================================================================== *)
(** * 18. generate_censoring *)
(* ================================================================== *)

Section Broadcast.
Context {F : Type} `{Float F} `{NumpyRandom F}.

Lemma broadcast2_run {A B C} (f : A -> B -> C) (xs : list A) (ys : list B)
    (w : World) :
  length xs = length ys ->
  broadcast2 f xs ys w = (Ok (zip_with f xs ys), w).
Proof. intros E. unfold broadcast2. rewrite E, Nat.eqb_refl. reflexivity. Qed.

Lemma size_arg_len {A} (l : list A) (w : World) :
  size_arg (len l) w = (Ok (length l), w).
Proof.
  unfold size_arg, len.
  destruct (Z.ltb_spec (Z.of_nat (length l)) 0) as [N|_]; [lia | ].
  rewrite Nat2Z.id. reflexivity.
Qed.

Lemma draw_run {A} (d : BitGen -> A * BitGen) (w : World) :
  draw d w = (Ok (fst (d (np_random w))),
              {| np_random := snd (d (np_random w));
                 zero_divisions := zero_divisions w |}).
Proof. unfold draw. destruct (d (np_random w)). reflexivity. Qed.

Lemma zip_with_In {A B C} (f : A -> B -> C) (xs : list A) (ys : list B) (z : C) :
  In z (zip_with f xs ys) ->
  exists x y, In x xs /\ In y ys /\ z = f x y.
Proof.
  revert ys. induction xs as [|x xs IH]; intros [|y ys]; simpl; try tauto.
  intros [<- | Hz].
  - exists x, y. auto.
  - destruct (IH ys Hz) as (x' & y' & Hx & Hy & E).
    exists x', y'. auto.
Qed.
End Broadcast.

Section Censoring.
Context {F : Type} `{FloatLaws F} `{NR : NumpyRandom F} `{!NumpyRandomLaws F}
        `{NumpyStats F}.
Local Open Scope fl_scope.
Import SurvivalDataGenerator.

Lemma np_random_uniform_len (lo hi : F) (l : list F) (w : World) :
  exists w' : World,
    np_random_uniform lo hi (len l) w
    = (Ok (fst (draw_uniform lo hi (length l) (np_random w))), w').
Proof.
  unfold np_random_uniform.
  erewrite bind_ok by apply size_arg_len. rewrite draw_run. eauto.
Qed.

Lemma np_random_binomial_len (k : Z) (p : F) (l : list F) (w : World) :
  exists w' : World,
    np_random_binomial k p (len l) w
    = (Ok (fst (draw_binomial k p (length l) (np_random w))), w').
Proof.
  unfold np_random_binomial.
  erewrite bind_ok by apply size_arg_len. rewrite draw_run. eauto.
Qed.

(** Every censoring branch yields one censoring time for each record. *)
Lemma censoring_times_length (self : instance) (survival_time : list F)
    (censoring_rate : F) (censoring_type : string) (max_followup : option F)
    (w w' : World) (cens : list F) :
  censoring_times self survival_time censoring_rate censoring_type max_followup w
  = (Ok cens, w') ->
  length cens = length survival_time.
Proof.
  unfold censoring_times.
  destruct (String.eqb censoring_type "random").
  { match goal with
    | |- bind ?c _ w = _ -> _ =>
        unfold bind at 1; destruct (c w) as [[m|e] w1]; [ | discriminate ]
    end.
    destruct (np_random_uniform_len (of_int 0) (m * of_int 2) survival_time w1)
      as (w2 & ->).
    intros E. apply run_eq in E. destruct E as [<- _].
    apply draw_uniform_length. }
  destruct (String.eqb censoring_type "administrative").
  { intros E. apply run_eq in E. destruct E as [<- _].
    rewrite repeat_length. unfold len. apply Nat2Z.id. }
  destruct (String.eqb censoring_type "mixed"); [ | discriminate ].
  match goal with
  | |- bind ?c _ w = _ -> _ =>
      unfold bind at 1; destruct (c w) as [[m|e] w1]; [ | discriminate ]
  end.
  destruct (np_random_uniform_len (of_int 0) (m * of_int 2) survival_time w1)
    as (w2 & E2).
  erewrite bind_ok by exact E2.
  destruct (np_random_binomial_len 1 (lit 5 1) survival_time w2) as (w3 & E3).
  erewrite bind_ok by exact E3.
  assert (L : length (fst (draw_uniform (of_int 0) (m * of_int 2)
                             (length survival_time) (np_random w1)))
              = length (repeat m (Z.to_nat (len survival_time)))).
  { rewrite draw_uniform_length, repeat_length. unfold len.
    symmetry. apply Nat2Z.id. }
  erewrite bind_ok by (apply broadcast2_run; exact L).
  rewrite broadcast2_run.
  - intros E. apply run_eq in E. destruct E as [<- _].
    rewrite zip_with_length.
    + apply draw_binomial_length.
    + rewrite zip_with_length by exact L.
      rewrite draw_binomial_length, draw_uniform_length. reflexivity.
  - rewrite zip_with_length by exact L.
    rewrite draw_binomial_length, draw_uniform_length. reflexivity.
Qed.


Lemma np_minimum_le_r (a b : F) :
  fisnan a = false -> fisnan b = false -> (np_minimum a b <=? b) = true.
Proof.
  intros Ha Hb. unfold np_minimum. rewrite Ha, orb_false_r.
  destruct (a <=? b) eqn:E; [exact E | apply fleb_refl; exact Hb].
Qed.

End Censoring.

(** The reference generator draws as many values as asked. *)
Section ReferenceLaws.
Context {F : Type} `{Float F}.

Lemma draws_length {A} (f : Z -> A) (n : nat) (g : Z) :
  length (fst (Reference.draws f n g)) = n.
Proof.
  revert g. induction n as [|n IH]; intros g; simpl; [reflexivity | ].
  specialize (IH (Reference.lcg_next g)).
  destruct (Reference.draws f n (Reference.lcg_next g)) as [l g'].
  simpl in *. rewrite IH. reflexivity.
Qed.

Lemma lcg_laws : @NumpyRandomLaws F Reference.lcg.
Proof. split; intros; apply draws_length. Qed.
End ReferenceLaws.



(* ================================================================== *)
(** * 19. validate_odds_ratio *)
(* ================================================================== *)

Section OddsRatio.
Context {F : Type} `{Float F} `{Transcend F} `{NumpyRandom F}.
Local Open Scope fl_scope.
Import StatisticalValidator.

Lemma check_value_run (self : instance) (actual expected : F) (w : World) :
  exists w' : World,
    _check_value self actual expected w
    = (Ok (within_tolerance (self_tolerance self) actual expected), w')
    /\ np_random w' = np_random w.
Proof.
  unfold _check_value, within_tolerance.
  destruct (expected =? of_int 0).
  - eexists. split; reflexivity.
  - erewrite bind_ok by apply true_divide_run. eexists.
    split; [reflexivity | apply after_division_random].
Qed.

Lemma count_both_run (e o : Z) (exposure outcome : list Z) (w : World) :
  length outcome = length exposure ->
  count_both (is_group e exposure) (is_group o outcome) w
  = (Ok (table_cell e o exposure outcome), w).
Proof.
  intros L. unfold count_both.
  erewrite bind_ok
    by (apply broadcast2_run; rewrite !is_group_length; symmetry; exact L).
  reflexivity.
Qed.

Lemma table_cell_nonneg (e o : Z) (exposure outcome : list Z) :
  (0 <= table_cell e o exposure outcome)%Z.
Proof. unfold table_cell. lia. Qed.

Lemma odds_ratio_run (a b c d : Z) (w : World) :
  exists w' : World,
    (if ((b =? 0) || (c =? 0))%Z
     then ret (if (0 <? a * d)%Z then finf else of_int 0)
     else true_divide (of_int (a * d)) (of_int (b * c))) w
    = (Ok (odds_ratio_value a b c d), w')
    /\ np_random w' = np_random w.
Proof.
  unfold odds_ratio_value. destruct ((b =? 0) || (c =? 0))%Z.
  - eexists. split; reflexivity.
  - rewrite true_divide_run. eexists.
    split; [reflexivity | apply after_division_random].
Qed.

Lemma validate_odds_ratio_run (self : instance) (outcome exposure : list Z)
    (expected_or : F) (expected_significant : bool) (alpha : F) (w : World) :
  length outcome = length exposure ->
  exists w' : World,
    validate_odds_ratio self outcome exposure expected_or
                        expected_significant alpha w
    = (Ok (let result :=
             odds_ratio_result (self_tolerance self)
               (table_cell 1 1 exposure outcome) (table_cell 1 0 exposure outcome)
               (table_cell 0 1 exposure outcome) (table_cell 0 0 exposure outcome)
               expected_or expected_significant alpha in
           (result, {| self_tolerance := self_tolerance self;
                       results := results self ++ [result] |})), w')
    /\ np_random w' = np_random w.
Proof.
  intros L. unfold validate_odds_ratio.
  fold (is_group 1 exposure) (is_group 1 outcome)
       (is_group 0 exposure) (is_group 0 outcome).
  erewrite bind_ok by (apply count_both_run; exact L).
  erewrite bind_ok by (apply count_both_run; exact L).
  erewrite bind_ok by (apply count_both_run; exact L).
  erewrite bind_ok by (apply count_both_run; exact L).
  set (a := table_cell 1 1 exposure outcome).
  set (b := table_cell 1 0 exposure outcome).
  set (c := table_cell 0 1 exposure outcome).
  set (d := table_cell 0 0 exposure outcome).
  destruct (odds_ratio_run a b c d w) as (w1 & Eor & R1).
  erewrite bind_ok by exact Eor.
  unfold odds_ratio_result, odds_ratio_p_value, odds_ratio_interval,
    log_odds_se, all_positive.
  destruct ((0 <? a)%Z && (0 <? b)%Z && (0 <? c)%Z && (0 <? d)%Z).
  - erewrite bind_ok.
    2:{ erewrite bind_ok by apply true_divide_run.
        erewrite bind_ok by apply true_divide_run.
        erewrite bind_ok by apply true_divide_run.
        erewrite bind_ok by apply true_divide_run.
        erewrite bind_ok by apply true_divide_run.
        reflexivity. }
    cbv beta iota.
    match goal with
    | |- context [bind (_check_value ?s ?x ?y) _ ?v] =>
        destruct (check_value_run s x y v) as (w' & Ek & R2)
    end.
    erewrite bind_ok by exact Ek.
    exists w'. split; [reflexivity | ].
    rewrite R2, !after_division_random. exact R1.
  - erewrite (bind_ok (ret (None, None, None))) by reflexivity.
    cbv beta iota.
    match goal with
    | |- context [bind (_check_value ?s ?x ?y) _ ?v] =>
        destruct (check_value_run s x y v) as (w' & Ek & R2)
    end.
    erewrite bind_ok by exact Ek.
    exists w'. split; [reflexivity | ].
    rewrite R2. exact R1.
Qed.

(** C2, as amended.  On arrays of one length [validate_odds_ratio] returns
    a result, appended to the validator's results, with [passed = true]
    exactly when the magnitude test holds (for [expected_or = 0]:
    [|actual| < tolerance]; otherwise: relative error at most the
    tolerance) and the p-value exists and is on the expected side of
    [alpha].  When a cell of the table is zero the p-value is [None] and
    [passed] is false. *)
Theorem validate_odds_ratio_passed :
  forall (self : instance) (outcome exposure : list Z) (expected_or : F)
         (expected_significant : bool) (alpha : F) (w : World),
    length outcome = length exposure ->
    exists (result : ValidationResult) (w' : World),
      validate_odds_ratio self outcome exposure expected_or
                          expected_significant alpha w
      = (Ok (result, {| self_tolerance := self_tolerance self;
                        results := results self ++ [result] |}), w')
      /\ (passed result = true <->
          within_tolerance (self_tolerance self) (actual_value result) expected_or
          = true
          /\ significance_matches expected_significant alpha (p_value result)
             = true)
      /\ ((table_cell 1 1 exposure outcome = 0
           \/ table_cell 1 0 exposure outcome = 0
           \/ table_cell 0 1 exposure outcome = 0
           \/ table_cell 0 0 exposure outcome = 0)%Z ->
          p_value result = None /\ passed result = false)
      /\ ((0 < table_cell 1 1 exposure outcome
           /\ 0 < table_cell 1 0 exposure outcome
           /\ 0 < table_cell 0 1 exposure outcome
           /\ 0 < table_cell 0 0 exposure outcome)%Z ->
          actual_value result
          = of_int (table_cell 1 1 exposure outcome
                    * table_cell 0 0 exposure outcome)
            / of_int (table_cell 1 0 exposure outcome
                      * table_cell 0 1 exposure outcome)
          /\ exists p : F, p_value result = Some p).
Proof.
  intros self outcome exposure expected_or expected_significant alpha w L.
  destruct (validate_odds_ratio_run self outcome exposure expected_or
              expected_significant alpha w L) as (w' & E & _).
  eexists. exists w'. split; [exact E | ].
  unfold odds_ratio_result. cbn [passed actual_value p_value].
  unfold odds_ratio_p_value, odds_ratio_value, all_positive.
  pose proof (table_cell_nonneg 1 1 exposure outcome) as Ha.
  pose proof (table_cell_nonneg 1 0 exposure outcome) as Hb.
  pose proof (table_cell_nonneg 0 1 exposure outcome) as Hc.
  pose proof (table_cell_nonneg 0 0 exposure outcome) as Hd.
  set (a := table_cell 1 1 exposure outcome) in *.
  set (b := table_cell 1 0 exposure outcome) in *.
  set (c := table_cell 0 1 exposure outcome) in *.
  set (d := table_cell 0 0 exposure outcome) in *.
  split; [apply andb_true_iff | ].
  destruct ((0 <? a)%Z && (0 <? b)%Z && (0 <? c)%Z && (0 <? d)%Z) eqn:Pos.
  - apply andb_prop in Pos. destruct Pos as [Pos Pd].
    apply andb_prop in Pos. destruct Pos as [Pos Pc].
    apply andb_prop in Pos. destruct Pos as [Pa Pb].
    apply Z.ltb_lt in Pa, Pb, Pc, Pd.
    split.
    + intros [Z | [Z | [Z | Z]]]; lia.
    + intros _. split; [ | eauto ].
      replace ((b =? 0)%Z || (c =? 0)%Z) with false
        by (symmetry; apply orb_false_iff; split; apply Z.eqb_neq; lia).
      reflexivity.
  - split.
    + intros _. split; [reflexivity | apply andb_false_r].
    + intros (Pa & Pb & Pc & Pd). exfalso.
      apply Z.ltb_lt in Pa, Pb, Pc, Pd.
      rewrite Pa, Pb, Pc, Pd in Pos. discriminate.
Qed.
End OddsRatio.

Section NormalBounds.
Local Open Scope R_scope.

Lemma sqrt_2PI_pos : 0 < sqrt (2 * PI).
Proof. apply sqrt_lt_R0. pose proof PI_RGT_0. lra. Qed.

Lemma gauss_density_le (t : R) : 0 < t -> gauss_density t <= / sqrt (2 * PI).
Proof.
  intros Ht. unfold gauss_density, Rdiv.
  rewrite <- (Rmult_1_l (/ sqrt (2 * PI))) at 2.
  apply Rmult_le_compat_r.
  - left. apply Rinv_0_lt_compat, sqrt_2PI_pos.
  - rewrite <- exp_0. left. apply exp_increasing. nra.
Qed.

(** The distribution function grows from 1/2 no faster than the density at 0. *)
Lemma Phi_upper (x : R) : 0 <= x -> Phi x <= 1 / 2 + x / sqrt (2 * PI).
Proof.
  intros Hx. unfold Phi. destruct (Rle_dec 0 x) as [H|H]; [ | contradiction ].
  apply Rplus_le_compat_l.
  pose proof (RiemannInt_P14 0 x (/ sqrt (2 * PI))) as pr.
  replace (x / sqrt (2 * PI)) with (RiemannInt pr)
    by (rewrite RiemannInt_P15; field; apply Rgt_not_eq, sqrt_2PI_pos).
  apply RiemannInt_P19; [exact Hx | ].
  intros t [Ht _]. apply gauss_density_le. exact Ht.
Qed.

Lemma exp_eighth : 9 / 8 < exp (1 / 8).
Proof. pose proof (exp_ineq1 (1 / 8)). lra. Qed.

Lemma exp_2_lower : 6 < exp 2.
Proof.
  pose proof exp_eighth as E8.
  assert (E4 : exp (1 / 4) = exp (1 / 8) * exp (1 / 8))
    by (rewrite <- exp_plus; f_equal; lra).
  assert (E2 : exp (1 / 2) = exp (1 / 4) * exp (1 / 4))
    by (rewrite <- exp_plus; f_equal; lra).
  assert (E1 : exp 1 = exp (1 / 2) * exp (1 / 2))
    by (rewrite <- exp_plus; f_equal; lra).
  assert (E0 : exp 2 = exp 1 * exp 1)
    by (rewrite <- exp_plus; f_equal; lra).
  assert (81 / 64 < exp (1 / 4)) by nra.
  assert (6561 / 4096 < exp (1 / 2)) by nra.
  assert (5 / 2 < exp 1) by nra.
  nra.
Qed.

Lemma ln_6_upper : ln 6 < 2.
Proof.
  rewrite <- (ln_exp 2). apply ln_increasing; [lra | apply exp_2_lower].
Qed.

Lemma ln_sixth : ln (1 / 6) = - ln 6.
Proof. unfold Rdiv. rewrite Rmult_1_l. apply ln_Rinv. lra. Qed.

Lemma ln_6_pos : 0 < ln 6.
Proof. rewrite <- ln_1. apply ln_increasing; lra. Qed.

Lemma sqrt_lower (x y : R) : 0 <= y -> y * y <= x -> y <= sqrt x.
Proof.
  intros Hy Hxy. rewrite <- (sqrt_square y) by exact Hy.
  apply sqrt_le_1_alt. exact Hxy.
Qed.

Lemma sqrt_2PI_lower : 61 / 25 <= sqrt (2 * PI).
Proof.
  apply sqrt_lower; [lra | ]. pose proof PI2_3_2. lra.
Qed.

(** The significance of the table (1, 1, 6, 1): the two-sided p-value of
    its log odds ratio is above 0.05. *)
Lemma small_table_p_value :
  5 / 100 <= 2 * (1 - Phi (Rabs (ln (1 / 6) / sqrt (1 / 1 + 1 / 1 + 1 / 6 + 1 / 1)))).
Proof.
  set (s := sqrt (1 / 1 + 1 / 1 + 1 / 6 + 1 / 1)).
  assert (Hs : 7 / 4 <= s) by (apply sqrt_lower; lra).
  rewrite ln_sixth.
  replace (- ln 6 / s) with (- (ln 6 / s)) by (field; lra).
  rewrite Rabs_Ropp.
  pose proof ln_6_upper as U. pose proof ln_6_pos as P.
  assert (Hz0 : 0 < ln 6 / s) by (apply Rdiv_lt_0_compat; lra).
  rewrite Rabs_pos_eq by lra.
  assert (Hz : ln 6 / s <= 8 / 7).
  { apply (Rmult_le_reg_r s); [lra | ].
    unfold Rdiv at 1. rewrite Rmult_assoc, Rinv_l by lra. nra. }
  pose proof (Phi_upper (ln 6 / s)) as B.
  pose proof sqrt_2PI_lower as Q.
  assert (Hq : ln 6 / s / sqrt (2 * PI) <= 8 / 7 / (61 / 25)).
  { apply (Rmult_le_reg_r (sqrt (2 * PI))); [lra | ].
    unfold Rdiv at 1. rewrite Rmult_assoc, Rinv_l by lra. nra. }
  lra.
Qed.
End NormalBounds.

(** The theorem at a table with an empty cell: no p-value, no pass. *)
Lemma validate_odds_ratio_passed_witness :
  length [1; 0; 1; 1]%Z = length [1; 1; 0; 0]%Z
  /\ exists (result : StatisticalValidator.ValidationResult) (w' : World),
       StatisticalValidator.validate_odds_ratio
         (StatisticalValidator.__init__ (lit 2 1)) [1; 0; 1; 1]%Z [1; 1; 0; 0]%Z
         (XFin 2) true (lit 5 2) Reference.startx
       = (Ok (result,
              {| StatisticalValidator.self_tolerance := lit 2 1;
                 StatisticalValidator.results := [result] |}), w')
       /\ StatisticalValidator.p_value result = None
       /\ StatisticalValidator.passed result = false.
Proof.
  split; [reflexivity | ].
  destruct (@validate_odds_ratio_passed xreal xreal_Float xreal_Transcend
              Reference.lcgx (StatisticalValidator.__init__ (lit 2 1))
              [1; 0; 1; 1]%Z [1; 1; 0; 0]%Z (XFin 2) true (lit 5 2)
              Reference.startx eq_refl)
    as (result & w' & E & _ & Zero & _).
  exists result, w'. split; [exact E | ].
  apply Zero. right. right. right. reflexivity.
Defined.

(** C2, counterexample.  With the default tolerance 0.2 and level 0.05, an
    expected odds ratio of 0 and no expected significance, the table
    (1, 1, 6, 1) passes: its odds ratio 1/6 is below the tolerance and its
    p-value is above 0.05.  The relative error to the expected value 0 is a
    division by zero, infinite, and not at most the tolerance. *)
Lemma validate_odds_ratio_zero_expected :
  exists (result : StatisticalValidator.ValidationResult)
         (self' : StatisticalValidator.instance) (w' : World),
    StatisticalValidator.validate_odds_ratio (StatisticalValidator.__init__ (lit 2 1)) outcome9 exposure9 (XFin 0) false
                        (lit 5 2) Reference.startx
    = (Ok (result, self'), w')
    /\ StatisticalValidator.passed result = true
    /\ StatisticalValidator.actual_value result = XFin (1 / 6)
    /\ xleb (xdiv (xabs (xsub (StatisticalValidator.actual_value result) (XFin 0))) (xabs (XFin 0)))
            (lit 2 1) = false.
Proof.
  destruct (validate_odds_ratio_run (StatisticalValidator.__init__ (lit 2 1)) outcome9 exposure9
              (XFin 0) false (lit 5 2) Reference.startx eq_refl) as (w' & E & _).
  eexists. eexists. exists w'. split; [exact E | ].
  change (table_cell 1 1 exposure9 outcome9) with 1%Z.
  change (table_cell 1 0 exposure9 outcome9) with 1%Z.
  change (table_cell 0 1 exposure9 outcome9) with 6%Z.
  change (table_cell 0 0 exposure9 outcome9) with 1%Z.
  unfold odds_ratio_result. cbn [StatisticalValidator.passed StatisticalValidator.actual_value
         StatisticalValidator.self_tolerance StatisticalValidator.__init__].
  assert (V : odds_ratio_value 1 1 6 1 = XFin (1 / 6)).
  { unfold odds_ratio_value. simpl. rewrite Req_bool_false by lra.
    f_equal. }
  rewrite V.
  assert (W : within_tolerance (lit 2 1) (XFin (1 / 6)) (XFin 0) = true).
  { unfold within_tolerance, lit. simpl.
    rewrite Req_bool_true by reflexivity.
    rewrite Req_bool_false by lra. simpl.
    rewrite Rabs_pos_eq by lra. apply Rlt_bool_true. lra. }
  assert (S0 : (0 < sqrt (1 / 1 + 1 / 1 + 1 / 6 + 1 / 1))%R)
    by (apply sqrt_lt_R0; lra).
  assert (P : odds_ratio_p_value 1 1 6 1
              = Some (XFin (2 * (1 + - Phi (Rabs (ln (1 / 6)
                     / sqrt (1 / 1 + 1 / 1 + 1 / 6 + 1 / 1))))))).
  { unfold odds_ratio_p_value, log_odds_se. rewrite V. simpl.
    rewrite !(Req_bool_false 1 0) by lra.
    rewrite (Req_bool_false 6 0) by lra. simpl.
    rewrite (Rlt_bool_false (1 / 6) 0) by lra.
    rewrite (Req_bool_false (1 / 6) 0) by lra.
    rewrite Rlt_bool_false by lra. simpl.
    rewrite Req_bool_false by lra. reflexivity. }
  rewrite P, W. simpl.
  split; [ | split; [reflexivity | ] ].
  - unfold lit. simpl. rewrite Req_bool_false by lra. simpl.
    apply Rle_bool_true. pose proof small_table_p_value. lra.
  - rewrite Req_bool_true by (rewrite Rabs_R0; reflexivity).
    assert (A : Rabs (1 / 6 + - 0) = (1 / 6)%R) by (rewrite Rabs_pos_eq; lra).
    rewrite A, Req_bool_false by lra.
    unfold lit. simpl. rewrite Req_bool_false by lra. simpl.
    apply Rlt_bool_false. lra.
Qed.

(* ================================================================== *)
(** * 20. round_to_precision *)
(* ================================================================== *)

Lemma Rfloor_unique (r : R) (n : Z) :
  (IZR n <= r < IZR n + 1)%R -> Rfloor r = n.
Proof.
  intros [Hl Hu]. unfold Rfloor.
  assert (E : (n + 1)%Z = up r).
  { apply tech_up; rewrite plus_IZR; lra. }
  rewrite <- E. lia.
Qed.

Lemma Rrint_below_half (r : R) (n : Z) :
  (IZR n <= r < IZR n + 1 / 2)%R -> Rrint r = n.
Proof.
  intros [Hl Hu]. unfold Rrint.
  rewrite (Rfloor_unique r n) by lra.
  rewrite Rlt_bool_true by lra. reflexivity.
Qed.

Lemma Rrint_above_half (r : R) (n : Z) :
  (IZR n + 1 / 2 < r < IZR n + 1)%R -> Rrint r = (n + 1)%Z.
Proof.
  intros [Hl Hu]. unfold Rrint.
  rewrite (Rfloor_unique r n) by lra.
  rewrite Rlt_bool_false by lra. rewrite Rlt_bool_true by lra. reflexivity.
Qed.

Section Rounding.
Import RealismEnhancer.
Import B64.

(** C6, as amended.  In float64, [round_to_precision([1.24, 1.26], 0.1)]
    returns with ['round'] the float after 1.2 (1.2000000000000002) and the
    float 1.3, and with ['floor'] twice the float after 1.2: the quotients
    round to 12 and 13 (floor: 12 and 12) and [12 * 0.1] rounds up.  In
    exact arithmetic the results are [1.2, 1.3] and [1.2, 1.2]. *)
Theorem round_to_precision_example :
  (forall (G : NumpyRandom binary64) (self : instance) (w : World),
      round_to_precision self [dec 124 2; dec 126 2] (dec 1 1) "round" w
      = (Ok [SFsucc prec emax (dec 12 1); dec 13 1], w)
      /\ round_to_precision self [dec 124 2; dec 126 2] (dec 1 1) "floor" w
         = (Ok [SFsucc prec emax (dec 12 1); SFsucc prec emax (dec 12 1)], w))
  /\ (forall (G : NumpyRandom xreal) (self : instance) (w : World),
         round_to_precision self [lit 124 2; lit 126 2] (lit 1 1) "round" w
         = (Ok [lit 12 1; lit 13 1], w)
         /\ round_to_precision self [lit 124 2; lit 126 2] (lit 1 1) "floor" w
            = (Ok [lit 12 1; lit 12 1], w)).
Proof.
  split.
  - intros G self w. cbv [round_to_precision String.eqb Ascii.eqb Bool.eqb].
    rewrite !(bind_ok _ _ _ _ _ (true_divide_array_run _ _ _)).
    rewrite after_division_nonzero by (vm_compute; reflexivity).
    unfold ret.
    split; (apply f_equal2; [apply f_equal; vm_compute; reflexivity | reflexivity]).
  - intros G self w. cbv [round_to_precision String.eqb Ascii.eqb Bool.eqb].
    rewrite !(bind_ok _ _ _ _ _ (true_divide_array_run _ _ _)).
    assert (L1 : lit 1 1 = XFin (1 / 10))
      by (unfold lit; simpl; rewrite Req_bool_false by lra; reflexivity).
    assert (L124 : lit 124 2 = XFin (124 / 100))
      by (unfold lit; simpl; rewrite Req_bool_false by lra; reflexivity).
    assert (L126 : lit 126 2 = XFin (126 / 100))
      by (unfold lit; simpl; rewrite Req_bool_false by lra; reflexivity).
    assert (L12 : lit 12 1 = XFin (12 / 10))
      by (unfold lit; simpl; rewrite Req_bool_false by lra; reflexivity).
    assert (L13 : lit 13 1 = XFin (13 / 10))
      by (unfold lit; simpl; rewrite Req_bool_false by lra; reflexivity).
    rewrite L1, L124, L126, L12, L13.
    rewrite after_division_nonzero by (simpl; apply Req_bool_false; lra).
    unfold ret. simpl. rewrite !Req_bool_false by lra.
    unfold xlift_int.
    rewrite (Rrint_below_half (124 / 100 / (1 / 10)) 12) by lra.
    rewrite (Rrint_above_half (126 / 100 / (1 / 10)) 12) by lra.
    rewrite (Rfloor_unique (124 / 100 / (1 / 10)) 12) by lra.
    rewrite (Rfloor_unique (126 / 100 / (1 / 10)) 12) by lra.
    simpl.
    replace (12 * (1 / 10))%R with (12 / 10)%R by lra.
    replace (13 * (1 / 10))%R with (13 / 10)%R by lra.
    split; reflexivity.
Qed.
End Rounding.

(** C6, counterexample.  The first element ['round'] returns is not the
    float 1.2. *)
Lemma round_to_precision_not_decimal :
  fst (RealismEnhancer.round_to_precision
         {| RealismEnhancer.random_seed := None |}
         [B64.dec 124 2; B64.dec 126 2] (B64.dec 1 1) "round" Reference.start64)
  = Ok [SFsucc B64.prec B64.emax (B64.dec 12 1); B64.dec 13 1]
  /\ SFeqb (SFsucc B64.prec B64.emax (B64.dec 12 1)) (B64.dec 12 1) = false
  /\ fst (RealismEnhancer.round_to_precision
            {| RealismEnhancer.random_seed := None |}
            [B64.dec 124 2; B64.dec 126 2] (B64.dec 1 1) "floor"
            Reference.start64)
     = Ok [SFsucc B64.prec B64.emax (B64.dec 12 1);
           SFsucc B64.prec B64.emax (B64.dec 12 1)].
Proof. vm_compute. repeat split. Qed.

(* ================================================================== *)
(** * 21. The order of the two float types *)
(* ================================================================== *)

Lemma Rle_bool_spec (a b : R) : reflect (a <= b)%R (Rle_bool a b).
Proof. unfold Rle_bool. destruct (Rle_dec a b); constructor; assumption. Qed.

Lemma Rlt_bool_spec (a b : R) : reflect (a < b)%R (Rlt_bool a b).
Proof. unfold Rlt_bool. destruct (Rlt_dec a b); constructor; assumption. Qed.

#[export] Instance xreal_FloatOrder : FloatOrder xreal.
Proof.
  split.
  - intros [a|s|] [b|t|]; simpl; try discriminate; try reflexivity.
    + intros _ _. destruct (Rle_bool_spec a b); [discriminate | ].
      intros _. apply Rle_bool_true. lra.
    + destruct t; simpl; congruence.
    + destruct s; simpl; congruence.
    + destruct s, t; simpl; congruence.
  - intros [a|s|] [b|t|] [c|u|]; simpl; try discriminate; try reflexivity;
      try (destruct s); try (destruct t); try (destruct u); simpl;
      try discriminate; try reflexivity.
    intros Hab Hbc.
    destruct (Rle_bool_spec a b); [ | discriminate ].
    destruct (Rle_bool_spec b c); [ | discriminate ].
    apply Rle_bool_true. lra.
  - intros [a|s|] [b|t|]; simpl; try discriminate; try reflexivity;
      try (destruct s); try (destruct t); simpl; try discriminate;
      try reflexivity.
    intros Hab. destruct (Rlt_bool_spec a b); [ | discriminate ].
    apply Rle_bool_true. lra.
  - intros [a|s|] [b|t|]; simpl; try discriminate; try reflexivity;
      try (destruct s); try (destruct t); simpl; try discriminate;
      try reflexivity.
    intros Hab. destruct (Rlt_bool_spec a b); [ | discriminate ].
    apply Rle_bool_false. lra.
Qed.

Ltac sf_compare_cases :=
  repeat match goal with
         | |- context [Pos.compare_cont Eq ?a ?b] =>
             change (Pos.compare_cont Eq a b) with (Pos.compare a b)
         end;
  repeat match goal with
         | |- context [Z.compare ?a ?b] =>
             destruct (Z.compare_spec a b); subst
         | |- context [Pos.compare ?a ?b] =>
             destruct (Pos.compare_spec a b); subst
         end;
  simpl; try discriminate; try reflexivity; try lia.

#[export] Instance binary64_FloatOrder : FloatOrder B64.binary64.
Proof.
  split.
  - intros [sx|sx| |sx mx ex] [sy|sy| |sy my ey]; simpl;
      try discriminate; try reflexivity;
      unfold SFleb, SFcompare;
      try (destruct sx); try (destruct sy); simpl;
      try discriminate; try reflexivity;
      intros _ _; sf_compare_cases.
  - intros [sx|sx| |sx mx ex] [sy|sy| |sy my ey] [sz|sz| |sz mz ez];
      unfold fleb; simpl; unfold SFleb, SFcompare;
      try discriminate; try reflexivity;
      try (destruct sx); try (destruct sy); try (destruct sz); simpl;
      try discriminate; try reflexivity;
      sf_compare_cases.
  - intros [sx|sx| |sx mx ex] [sy|sy| |sy my ey];
      unfold fleb, fltb; simpl; unfold SFleb, SFltb, SFcompare;
      try discriminate; try reflexivity;
      try (destruct sx); try (destruct sy); simpl;
      try discriminate; try reflexivity;
      sf_compare_cases.
  - intros [sx|sx| |sx mx ex] [sy|sy| |sy my ey];
      unfold fleb, fltb; simpl; unfold SFleb, SFltb, SFcompare;
      try discriminate; try reflexivity;
      try (destruct sx); try (destruct sy); simpl;
      try discriminate; try reflexivity;
      sf_compare_cases.
Qed.

(* ================================================================== *)
(** * 22. Bounds of clipped arrays *)
(* ================================================================== *)

Section ClipBounds.
Context {F : Type} `{FloatLaws F}.
Local Open Scope fl_scope.
Import RealismEnhancer.

Lemma np_maximum_nan (x l : F) :
  fisnan x = true -> np_maximum x l = x.
Proof. intros N. unfold np_maximum. rewrite N, orb_true_r. reflexivity. Qed.

Lemma np_minimum_nan (x h : F) :
  fisnan x = true -> np_minimum x h = x.
Proof. intros N. unfold np_minimum. rewrite N, orb_true_r. reflexivity. Qed.

Lemma np_maximum_ge_r (x l : F) :
  fisnan x = false -> fisnan l = false -> (l <=? np_maximum x l) = true.
Proof.
  intros Nx Nl. unfold np_maximum. rewrite Nx, orb_false_r.
  destruct (l <=? x) eqn:E; [exact E | apply fleb_refl; exact Nl].
Qed.

Lemma np_maximum_not_nan (x l : F) :
  fisnan x = false -> fisnan l = false -> fisnan (np_maximum x l) = false.
Proof.
  intros Nx Nl. unfold np_maximum. destruct ((l <=? x) || fisnan x); assumption.
Qed.

Lemma np_minimum_not_nan (x h : F) :
  fisnan x = false -> fisnan h = false -> fisnan (np_minimum x h) = false.
Proof.
  intros Nx Nh. unfold np_minimum. destruct ((x <=? h) || fisnan x); assumption.
Qed.

Lemma np_maximum_above (x l : F) : (l <=? x) = true -> np_maximum x l = x.
Proof. intros E. unfold np_maximum. rewrite E. reflexivity. Qed.

Lemma np_minimum_below (x h : F) : (x <=? h) = true -> np_minimum x h = x.
Proof. intros E. unfold np_minimum. rewrite E. reflexivity. Qed.

(** One element clipped to [lo, hi]: a NaN stays a NaN; a number lands in
    the interval, and stays what it is when it was there. *)
Lemma clip_within (lo hi x : F) :
  fisnan lo = false -> fisnan hi = false -> (lo <=? hi) = true ->
  if fisnan x then fisnan (clip (Some lo) (Some hi) x) = true
  else (lo <=? clip (Some lo) (Some hi) x) = true
       /\ (clip (Some lo) (Some hi) x <=? hi) = true
       /\ ((lo <=? x) = true -> (x <=? hi) = true ->
           clip (Some lo) (Some hi) x = x).
Proof.
  intros Nl Nh Hlh. simpl. destruct (fisnan x) eqn:Nx.
  - rewrite np_maximum_nan, np_minimum_nan by assumption. exact Nx.
  - pose proof (np_maximum_ge_r x lo Nx Nl) as Ha.
    pose proof (np_maximum_not_nan x lo Nx Nl) as Na.
    set (a := np_maximum x lo) in *.
    split; [ | split].
    + unfold np_minimum. rewrite Na, orb_false_r.
      destruct (a <=? hi); assumption.
    + apply np_minimum_le_r; assumption.
    + intros Hlo Hhi. subst a.
      rewrite (np_maximum_above x lo Hlo). apply np_minimum_below. exact Hhi.
Qed.

End ClipBounds.

Section Inversion.
Context {F : Type} `{Float F} `{NumpyRandom F}.

(** A sequence returns when both of its parts return. *)
Lemma bind_returns {A B} (c : Py A) (k : A -> Py B) (w w' : World) (b : B) :
  bind c k w = (Ok b, w') ->
  exists (a : A) (w1 : World), c w = (Ok a, w1) /\ k a w1 = (Ok b, w').
Proof.
  unfold bind. destruct (c w) as [[a|e] w1]; [ | discriminate ].
  intros E. exists a, w1. split; [reflexivity | exact E].
Qed.

Lemma ret_returns {A} (a b : A) (w w' : World) :
  ret a w = (Ok b, w') -> b = a /\ w' = w.
Proof. unfold ret. intros E. apply run_eq in E. destruct E. auto. Qed.
End Inversion.

Section InvertedBounds.
Context {F : Type} `{FloatLaws F} `{!FloatOrder F}.
Local Open Scope fl_scope.
Import RealismEnhancer.

Lemma fltb_not_nan (a b : F) :
  (a <? b) = true -> fisnan a = false /\ fisnan b = false.
Proof.
  intros L. apply fltb_fleb in L. split.
  - destruct (fisnan a) eqn:N; [ | reflexivity ].
    rewrite (fleb_nan_l a b N) in L. discriminate.
  - destruct (fisnan b) eqn:N; [ | reflexivity ].
    rewrite (fleb_nan_r a b N) in L. discriminate.
Qed.

Lemma clip_inverted (lo hi x : F) :
  (hi <? lo) = true ->
  clip (Some lo) (Some hi) x = if fisnan x then x else hi.
Proof.
  intros L. destruct (fltb_not_nan hi lo L) as [Nh Nl]. simpl.
  destruct (fisnan x) eqn:Nx.
  - rewrite np_maximum_nan, np_minimum_nan by assumption. reflexivity.
  - pose proof (np_maximum_ge_r x lo Nx Nl) as Ha.
    pose proof (np_maximum_not_nan x lo Nx Nl) as Na.
    set (a := np_maximum x lo) in *.
    unfold np_minimum. rewrite Na, orb_false_r.
    destruct (a <=? hi) eqn:E; [ | reflexivity ].
    pose proof (fleb_trans lo a hi Ha E) as T.
    rewrite (fltb_not_fleb hi lo L) in T. discriminate.
Qed.

(** X2. When [max_val < min_val], [enforce_range] turns every element that
    is not NaN into [max_val]: the upper bound is applied last. *)
Theorem enforce_range_inverted_bounds :
  forall (self : instance) (data : list F) (lo hi : F),
    (hi <? lo) = true ->
    enforce_range self data (Some lo) (Some hi)
    = map (fun x => if fisnan x then x else hi) data.
Proof.
  intros self data lo hi L. rewrite enforce_range_map.
  apply map_ext. intros x. apply clip_inverted. exact L.
Qed.
End InvertedBounds.

Section TruncatedSamples.
Context {F : Type} `{FloatLaws F} `{Transcend F} `{NumpyRandom F}.
Local Open Scope fl_scope.
Import ContinuousVariableGenerator.

Lemma truncate_map (self : instance) (data : list F) (lo hi : option F) :
  _truncate self data lo hi = map (clip lo hi) data.
Proof.
  unfold _truncate, clip. destruct lo, hi; try rewrite map_map;
    try reflexivity.
  symmetry. apply map_id.
Qed.

Lemma truncate_within (self : instance) (data : list F) (lo hi : F) :
  fisnan lo = false -> fisnan hi = false -> (lo <=? hi) = true ->
  Forall (fun r => fisnan r = true
                   \/ ((lo <=? r) = true /\ (r <=? hi) = true))
         (_truncate self data (Some lo) (Some hi)).
Proof.
  intros Nl Nh Hlh. rewrite truncate_map. apply Forall_forall.
  intros r Hr. apply in_map_iff in Hr. destruct Hr as (x & <- & _).
  pose proof (clip_within lo hi x Nl Nh Hlh) as C.
  destruct (fisnan x); [left; exact C | right].
  destruct C as (C1 & C2 & _). split; assumption.
Qed.

(** X3. With both bounds given, numbers, and [min_val <= max_val], every
    element of an array that [generate_normal], [generate_lognormal] or
    [generate_skewed] returns is NaN or lies between the bounds, whatever
    the generator draws. *)
Theorem samplers_within_bounds :
  forall (self : instance) (n : Z) (mean std skewness lo hi : F)
         (w w' : World) (out : list F),
    fisnan lo = false -> fisnan hi = false -> (lo <=? hi) = true ->
    generate_normal self n mean std (Some lo) (Some hi) w = (Ok out, w')
    \/ generate_lognormal self n mean std (Some lo) (Some hi) w = (Ok out, w')
    \/ generate_skewed self n mean std skewness (Some lo) (Some hi) w
       = (Ok out, w') ->
    Forall (fun r => fisnan r = true
                     \/ ((lo <=? r) = true /\ (r <=? hi) = true)) out.
Proof.
  intros self n mean std skewness lo hi w w' out Nl Nh Hlh [E | [E | E]].
  - unfold generate_normal in E. simpl in E.
    apply bind_returns in E. destruct E as (d & w1 & _ & E).
    apply ret_returns in E. destruct E as [-> _].
    apply (truncate_within self); assumption.
  - unfold generate_lognormal in E. simpl in E.
    apply bind_returns in E. destruct E as ([mu sigma] & w1 & _ & E).
    apply bind_returns in E. destruct E as (d & w2 & _ & E).
    apply ret_returns in E. destruct E as [-> _].
    apply (truncate_within self); assumption.
  - unfold generate_skewed in E. simpl in E.
    apply bind_returns in E. destruct E as (d & w1 & _ & E).
    apply bind_returns in E. destruct E as (m & w2 & _ & E).
    apply bind_returns in E. destruct E as (s & w3 & _ & E).
    apply bind_returns in E. destruct E as (q & w4 & _ & E).
    apply ret_returns in E. destruct E as [-> _].
    apply (truncate_within self); assumption.
Qed.
End TruncatedSamples.

(* ================================================================== *)
(** * 23. The parameters and the errors of the samplers *)
(* ================================================================== *)

Section LognormalParameters.
Context `{NumpyRandom xreal}.
Import ContinuousVariableGenerator.
Local Open Scope R_scope.

Lemma exp_half (x : R) : exp (x / 2) = sqrt (exp x).
Proof.
  apply Rsqr_inj.
  - left. apply exp_pos.
  - apply sqrt_pos.
  - rewrite Rsqr_sqrt by (left; apply exp_pos).
    unfold Rsqr. rewrite <- exp_plus. f_equal. lra.
Qed.

(** X4. In exact arithmetic, for a positive target mean [m] and a target
    standard deviation [s], [_lognormal_params] returns finite [mu] and
    [sigma], divides by no zero, and the lognormal distribution with these
    parameters has the target moments: [exp (mu + sigma^2 / 2) = m] and
    [(exp (sigma^2) - 1) * exp (2 mu + sigma^2) = s^2]. *)
Theorem lognormal_params_round_trip :
  forall (self : instance) (m s : R) (w : World),
    0 < m ->
    exists mu sigma : R,
      _lognormal_params self (XFin m) (XFin s) w = (Ok (XFin mu, XFin sigma), w)
      /\ exp (mu + sigma * sigma / 2) = m
      /\ (exp (sigma * sigma) - 1) * exp (2 * mu + sigma * sigma) = s * s.
Proof.
  intros self m s w Hm.
  assert (Hmm : 0 < m * m) by nra.
  assert (HA : 0 < s * s + m * m) by nra.
  assert (HsA : 0 < sqrt (s * s + m * m)) by (apply sqrt_lt_R0; exact HA).
  assert (Hq : 0 < m * m / sqrt (s * s + m * m))
    by (apply Rdiv_lt_0_compat; assumption).
  assert (Hr : 0 <= s * s / (m * m)).
  { apply Rmult_le_pos; [nra | ]. left. apply Rinv_0_lt_compat. exact Hmm. }
  assert (HL : 0 <= ln (1 + s * s / (m * m))).
  { rewrite <- ln_1. destruct Hr as [Hr | <-].
    - left. apply ln_increasing; lra.
    - right. f_equal. lra. }
  exists (ln (m * m / sqrt (s * s + m * m))),
         (sqrt (ln (1 + s * s / (m * m)))).
  split; [ | split].
  - unfold _lognormal_params. rewrite (bind_ok _ _ _ _ _ (true_divide_run _ _ _)).
    simpl. rewrite (Rlt_bool_false (s * s + m * m) 0) by lra. simpl.
    rewrite (Req_bool_false (sqrt (s * s + m * m)) 0) by lra.
    unfold py_divide. simpl.
    rewrite (Req_bool_false (m * m) 0) by lra.
    unfold bind, ret. simpl.
    rewrite (Rlt_bool_false (m * m / sqrt (s * s + m * m)) 0) by lra.
    rewrite (Req_bool_false (m * m / sqrt (s * s + m * m)) 0) by lra.
    simpl.
    rewrite (Rlt_bool_false (1 + s * s / (m * m)) 0) by lra.
    rewrite (Req_bool_false (1 + s * s / (m * m)) 0) by lra.
    simpl.
    rewrite (Rlt_bool_false (ln (1 + s * s / (m * m))) 0) by lra.
    f_equal.
    unfold after_division. simpl.
    rewrite (Req_bool_false (sqrt (s * s + m * m)) 0) by lra. reflexivity.
  - rewrite sqrt_sqrt by exact HL.
    rewrite exp_plus, exp_ln by exact Hq.
    rewrite exp_half, exp_ln by lra.
    replace (1 + s * s / (m * m)) with ((s * s + m * m) / (m * m))
      by (field; lra).
    rewrite sqrt_div_alt by exact Hmm.
    rewrite sqrt_square by lra.
    field. split; lra.
  - rewrite sqrt_sqrt by exact HL.
    rewrite exp_plus. replace (2 * ln (m * m / sqrt (s * s + m * m)))
      with (ln (m * m / sqrt (s * s + m * m)) + ln (m * m / sqrt (s * s + m * m)))
      by lra.
    rewrite exp_plus, !exp_ln by lra.
    replace (m * m / sqrt (s * s + m * m) * (m * m / sqrt (s * s + m * m)))
      with (m * m * (m * m) / (sqrt (s * s + m * m) * sqrt (s * s + m * m)))
      by (field; lra).
    rewrite sqrt_sqrt by lra.
    field. split; lra.
Qed.
End LognormalParameters.

Section LognormalErrors.
Context {F : Type} `{Float F} `{Transcend F} `{NumpyRandom F}.
Import ContinuousVariableGenerator.
Local Open Scope fl_scope.


End LognormalErrors.

Section UnsupportedDistribution.
Context {F : Type} `{Float F} `{Transcend F} `{NumpyRandom F}.
Import ContinuousVariableGenerator.
Local Open Scope fl_scope.

(** X6. With a distribution name other than the four supported ones,
    [generate_continuous_variable] raises ValueError after it has built its
    generator: a valid [random_seed] has reseeded the process-wide
    generator by then, and nothing else has changed. *)
Theorem generate_continuous_variable_unsupported :
  forall (n : Z) (distribution : string) (mean std : F)
         (min_val max_val : option F) (skewness : F) (random_seed : option Z)
         (low high : option F) (w : World),
    distribution <> "normal"%string -> distribution <> "lognormal"%string ->
    distribution <> "skewed"%string -> distribution <> "uniform"%string ->
    generate_continuous_variable n distribution mean std min_val max_val
                                 skewness random_seed low high w
    = (Raise ValueError,
       match random_seed with
       | Some s => if valid_seed s then seeded s w else w
       | None => w
       end).
Proof.
  intros n distribution mean std min_val max_val skewness random_seed low high
         w N1 N2 N3 N4.
  apply String.eqb_neq in N1, N2, N3, N4.
  unfold generate_continuous_variable. rewrite N1, N2, N3, N4.
  unfold __init__. destruct random_seed as [s|]; [ | reflexivity ].
  unfold np_random_seed, valid_seed.
  destruct ((0 <=? s) && (s <? 2 ^ 32))%Z; reflexivity.
Qed.
End UnsupportedDistribution.

Section UniformDefaults.
Context `{NumpyRandom xreal}.
Import ContinuousVariableGenerator.
Local Open Scope R_scope.

(** X7. In exact arithmetic [generate_continuous_variable] with the
    distribution ['uniform'] and neither [low] nor [high] draws from
    [np.random.uniform(low, high, n)] with [(low + high) / 2 = mean] and
    [(high - low)^2 / 12 = std^2]: the uniform distribution on that
    interval has the requested mean and standard deviation. *)
Theorem generate_continuous_variable_uniform_moments :
  forall (n : Z) (mean std skewness : R) (min_val max_val : option xreal)
         (random_seed : option Z) (w : World),
    exists low high : R,
      generate_continuous_variable n "uniform" (XFin mean) (XFin std)
                                   min_val max_val (XFin skewness) random_seed
                                   None None w
      = bind (__init__ random_seed)
             (fun generator => np_random_uniform (XFin low) (XFin high) n) w
      /\ (low + high) / 2 = mean
      /\ (high - low) * (high - low) / 12 = std * std.
Proof.
  intros n mean std skewness min_val max_val random_seed w.
  exists (mean - std * sqrt 3), (mean + std * sqrt 3).
  split; [ | split].
  - unfold generate_continuous_variable, generate_uniform. simpl.
    rewrite (Rlt_bool_false 3 0) by lra. reflexivity.
  - lra.
  - assert (S3 : sqrt 3 * sqrt 3 = 3) by (apply sqrt_sqrt; lra).
    replace ((mean + std * sqrt 3 - (mean - std * sqrt 3))
             * (mean + std * sqrt 3 - (mean - std * sqrt 3)))
      with (4 * std * std * (sqrt 3 * sqrt 3)) by ring.
    rewrite S3. field.
Qed.
End UniformDefaults.

(* ================================================================== *)
(** * 24. Standardised samples and group labels *)
(* ================================================================== *)

Section RealStatistics.
Local Open Scope R_scope.

Lemma Rsum_affine (a b : R) (l : list R) :
  Rsum (map (fun x => a * x + b) l) = a * Rsum l + IZR (len l) * b.
Proof.
  induction l as [|x l IH].
  - unfold Rsum, len. simpl. lra.
  - simpl map. rewrite !Rsum_cons, IH, len_cons, plus_IZR. lra.
Qed.

Lemma Rsum_scale (a : R) (l : list R) :
  Rsum (map (fun x => a * x) l) = a * Rsum l.
Proof.
  induction l as [|x l IH].
  - unfold Rsum. simpl. lra.
  - simpl map. rewrite !Rsum_cons, IH. lra.
Qed.

Lemma Rmean_affine (a b : R) (l : list R) :
  l <> [] -> Rmean (map (fun x => a * x + b) l) = a * Rmean l + b.
Proof.
  intros Hl. unfold Rmean. rewrite Rsum_affine, len_map.
  assert (IZR (len l) <> 0).
  { apply len_positive. destruct l; [contradiction | simpl; lia]. }
  field. assumption.
Qed.

Lemma Rvar0_affine (a b : R) (l : list R) :
  l <> [] -> Rvar0 (map (fun x => a * x + b) l) = a * a * Rvar0 l.
Proof.
  intros Hl. unfold Rvar0. rewrite Rmean_affine by exact Hl.
  rewrite map_map, len_map.
  rewrite (map_ext _ (fun v => a * a * ((v - Rmean l) * (v - Rmean l))))
    by (intros v; lra).
  rewrite <- (map_map (fun v => (v - Rmean l) * (v - Rmean l))
                      (fun y => a * a * y)).
  rewrite Rsum_scale. unfold Rdiv. ring.
Qed.

Lemma square_nonneg (a : R) : 0 <= a * a.
Proof. apply Rle_0_sqr. Qed.

Lemma Rsum_nonneg (l : list R) : Forall (fun x => 0 <= x) l -> 0 <= Rsum l.
Proof.
  induction 1 as [|x l Hx _ IH].
  - unfold Rsum. simpl. lra.
  - rewrite Rsum_cons. lra.
Qed.

Lemma Rsum_positive (l : list R) (x : R) :
  Forall (fun x => 0 <= x) l -> In x l -> 0 < x -> 0 < Rsum l.
Proof.
  intros Hl. revert x. induction Hl as [|y l Hy Hl IH]; intros x Hx Px.
  - contradiction.
  - rewrite Rsum_cons. destruct Hx as [-> | Hx].
    + pose proof (Rsum_nonneg l Hl). lra.
    + pose proof (IH x Hx Px). lra.
Qed.

Lemma Rvar0_nonneg (l : list R) : 0 <= Rvar0 l.
Proof.
  unfold Rvar0. destruct l as [|x l].
  - unfold Rsum. simpl. unfold Rdiv. rewrite Rmult_0_l. lra.
  - apply Rmult_le_pos.
    + apply Rsum_nonneg. apply Forall_forall. intros y Hy.
      apply in_map_iff in Hy. destruct Hy as (v & <- & _).
      apply square_nonneg.
    + left. apply Rinv_0_lt_compat. apply IZR_lt. rewrite len_cons.
      pose proof (len_nonneg l). lia.
Qed.

(** An array with two different elements has a positive variance. *)
Lemma Rvar0_positive (l : list R) (x y : R) :
  In x l -> In y l -> x <> y -> 0 < Rvar0 l.
Proof.
  intros Hx Hy Hxy. unfold Rvar0.
  assert (Hn : 0 < IZR (len l)).
  { apply IZR_lt. destruct l; [contradiction | rewrite len_cons].
    pose proof (len_nonneg l). lia. }
  apply Rdiv_lt_0_compat; [ | exact Hn ].
  assert (Hz : exists z, In z l /\ z <> Rmean l).
  { destruct (Req_dec x (Rmean l)) as [E|N].
    - exists y. split; [exact Hy | ]. intros E'. apply Hxy. congruence.
    - exists x. split; assumption. }
  destruct Hz as (z & Hz & Nz).
  apply (Rsum_positive _ ((z - Rmean l) * (z - Rmean l))).
  - apply Forall_forall. intros u Hu.
    apply in_map_iff in Hu. destruct Hu as (v & <- & _).
    apply square_nonneg.
  - apply in_map_iff. exists z. split; [reflexivity | exact Hz].
  - assert (D : z - Rmean l <> 0) by lra.
    destruct (square_nonneg (z - Rmean l)) as [P | Z]; [exact P | ].
    symmetry in Z. apply Rmult_integral in Z. destruct Z; contradiction.
Qed.

Lemma var_value0_finite (l : list R) :
  (1 <= length l)%nat -> var_value (map XFin l) 0 = XFin (Rvar0 l).
Proof.
  intros Hl. unfold var_value.
  change (@fdiv xreal _) with xdiv.
  change (@of_int xreal _) with (fun z => XFin (IZR z)).
  cbv beta.
  rewrite mean_finite by lia.
  rewrite map_map.
  rewrite (map_ext _ (fun v => XFin ((v - Rmean l) * (v - Rmean l))))
    by (intros v; simpl; f_equal; lra).
  rewrite <- (map_map (fun v => (v - Rmean l) * (v - Rmean l)) XFin).
  rewrite np_sum_finite, len_map.
  rewrite Z.sub_0_r, Z.max_l by (unfold len; lia).
  rewrite xdiv_finite by (apply not_0_IZR; unfold len; lia).
  reflexivity.
Qed.
End RealStatistics.

Section FiniteRuns.
Context `{NumpyRandom xreal}.
Local Open Scope R_scope.

Lemma np_mean_finite_run (l : list R) (w : World) :
  (1 <= length l)%nat ->
  np_mean (map XFin l) w = (Ok (XFin (Rmean l)), w).
Proof.
  intros Hl. rewrite np_mean_run.
  change (@fdiv xreal _) with xdiv.
  change (@of_int xreal _) with (fun z => XFin (IZR z)). cbv beta.
  rewrite mean_finite by exact Hl.
  rewrite after_division_nonzero; [reflexivity | ].
  rewrite len_map. apply IZR_nonzero. unfold len. lia.
Qed.

Lemma np_std_finite_run (l : list R) (w : World) :
  (1 <= length l)%nat ->
  np_std (map XFin l) w = (Ok (XFin (sqrt (Rvar0 l))), w).
Proof.
  intros Hl. unfold np_std.
  erewrite bind_ok by apply np_var_run.
  rewrite var_value0_finite by exact Hl.
  rewrite !after_division_nonzero
    by (rewrite len_map; apply IZR_nonzero; unfold len; lia).
  unfold ret. simpl.
  rewrite Rlt_bool_false by apply Rvar0_nonneg. reflexivity.
Qed.
End FiniteRuns.

Section Standardised.
Context `{NumpyRandom xreal}.
Import ContinuousVariableGenerator.
Local Open Scope R_scope.

Lemma size_arg_nonneg (n : Z) (w : World) :
  (0 <= n)%Z -> size_arg n w = (Ok (Z.to_nat n), w).
Proof.
  intros Hn. unfold size_arg.
  destruct (Z.ltb_spec n 0) as [N|_]; [lia | reflexivity].
Qed.

(** X8. In exact arithmetic, when the skew-normal draw is an array of
    finite numbers that are not all equal, [generate_skewed] without bounds
    returns an array whose [mean()] is exactly [mean] and whose [std()] is
    exactly [|std|], and it divides by no zero. *)
Theorem generate_skewed_standardised :
  forall (self : instance) (n : Z) (mean std skewness : R) (rs : list R)
         (x y : R) (w : World),
    (0 <= n)%Z ->
    fst (draw_skewnorm (XFin skewness * of_int 5)%fl (Z.to_nat n) (np_random w))
    = map XFin rs ->
    In x rs -> In y rs -> x <> y ->
    exists (out : list R) (w' : World),
      generate_skewed self n (XFin mean) (XFin std) (XFin skewness) None None w
      = (Ok (map XFin out), w')
      /\ zero_divisions w' = zero_divisions w
      /\ np_mean (map XFin out) w' = (Ok (XFin mean), w')
      /\ np_std (map XFin out) w' = (Ok (XFin (Rabs std)), w').
Proof.
  intros self n mean std skewness rs x y w Hn Hd Hx Hy Hxy.
  assert (Hl : (1 <= length rs)%nat).
  { destruct rs; [contradiction | simpl; lia]. }
  assert (Hne : rs <> []) by (intros E; subst rs; contradiction).
  pose proof (Rvar0_positive rs x y Hx Hy Hxy) as Hv.
  assert (Hs : 0 < sqrt (Rvar0 rs)) by (apply sqrt_lt_R0; exact Hv).
  set (m := Rmean rs). set (sd := sqrt (Rvar0 rs)) in *.
  set (out := map (fun a => std / sd * a + (mean - std / sd * m)) rs).
  set (w1 := {| np_random := snd (draw_skewnorm (XFin skewness * of_int 5)%fl
                                    (Z.to_nat n) (np_random w));
                zero_divisions := zero_divisions w |}).
  exists out, w1.
  assert (Lo : (1 <= length out)%nat)
    by (unfold out; rewrite length_map; exact Hl).
  assert (Mo : Rmean out = mean).
  { unfold out. rewrite Rmean_affine by exact Hne. fold m. lra. }
  assert (Vo : Rvar0 out = std * std).
  { unfold out. rewrite Rvar0_affine by exact Hne.
    replace (Rvar0 rs) with (sd * sd)
      by (unfold sd; apply sqrt_sqrt; lra).
    field. lra. }
  split; [ | split; [reflexivity | split]].
  - unfold generate_skewed, skewnorm_rvs.
    erewrite bind_ok.
    2:{ erewrite bind_ok by (apply size_arg_nonneg; exact Hn).
        rewrite draw_run. rewrite Hd. reflexivity. }
    fold w1.
    erewrite bind_ok by (apply np_mean_finite_run; exact Hl).
    erewrite bind_ok by (apply np_std_finite_run; exact Hl).
    fold m sd.
    rewrite (bind_ok _ _ _ _ _ (true_divide_array_run _ _ _)).
    rewrite after_division_nonzero
      by (simpl; apply Req_bool_false; lra).
    simpl. unfold ret. f_equal. f_equal.
    unfold out. rewrite !map_map. apply map_ext. intros a.
    simpl. rewrite Req_bool_false by lra. simpl. f_equal. field. lra.
  - rewrite np_mean_finite_run by exact Lo. rewrite Mo. reflexivity.
  - rewrite np_std_finite_run by exact Lo. rewrite Vo.
    fold (Rsqr std). rewrite sqrt_Rsqr_abs. reflexivity.
Qed.
End Standardised.

Section GroupMeans.
Context {F : Type} `{Float F} `{FloatBits F} `{NumpyRandom F}
        `{!NumpyRandomMore F} `{!NumpyRandomMoreLaws F}.
Import ContinuousVariableGenerator.
Local Open Scope fl_scope.

Lemma mtrand_normal_returns (loc scale : F) (n : Z) (w w' : World) (d : list F) :
  mtrand_normal loc scale n w = (Ok d, w') ->
  (0 <= n)%Z /\ length d = Z.to_nat n.
Proof.
  unfold mtrand_normal, non_negative.
  destruct (negb (fisnan scale) && fsignbit scale); [discriminate | ].
  unfold bind at 1. unfold ret at 1.
  unfold np_random_normal, size_arg.
  destruct (Z.ltb_spec n 0) as [N|P]; [discriminate | ].
  unfold bind, ret. rewrite draw_run.
  intros E. apply run_eq in E. destruct E as [<- _].
  split; [exact P | apply draw_normal_length].
Qed.

Lemma group_means_loop_returns (pairs : list (Z * F)) :
  forall (i : Z) (common_std : F) (data : list (list F)) (groups : list Z)
         (w w' : World) (out_data : list (list F)) (out_groups : list Z),
    group_means_loop i pairs common_std data groups w
    = (Ok (out_data, out_groups), w') ->
    exists blocks : list (list F),
      out_data = data ++ blocks
      /\ Forall2 (fun (b : list F) (n : Z) =>
                    (0 <= n)%Z /\ length b = Z.to_nat n)
                 blocks (map fst pairs)
      /\ out_groups = groups ++ group_labels i (map fst pairs).
Proof.
  induction pairs as [|[n mean] pairs IH];
    intros i common_std data groups w w' out_data out_groups E.
  - simpl in E. apply ret_returns in E. destruct E as [E _].
    injection E as -> ->. exists []. simpl.
    rewrite !app_nil_r. repeat split. constructor.
  - simpl in E. apply bind_returns in E. destruct E as (d & w1 & Ed & E).
    apply mtrand_normal_returns in Ed. destruct Ed as [Hn Ld].
    apply IH in E. destruct E as (blocks & Eb & Hb & Eg).
    exists (d :: blocks). simpl. split; [ | split].
    + rewrite Eb, <- app_assoc. reflexivity.
    + constructor; [split; assumption | exact Hb].
    + rewrite Eg, <- app_assoc. reflexivity.
Qed.

Lemma group_labels_length (blocks : list (list F)) :
  forall (i : Z) (ns : list Z),
    Forall2 (fun (b : list F) (n : Z) => (0 <= n)%Z /\ length b = Z.to_nat n)
            blocks ns ->
    length (concat blocks) = length (group_labels i ns).
Proof.
  induction blocks as [|b blocks IH]; intros i ns Hb; inversion Hb; subst.
  - reflexivity.
  - simpl. rewrite !length_app, repeat_length.
    match goal with Hx : _ /\ _ |- _ => destruct Hx as [_ ->] end.
    f_equal. apply IH. assumption.
Qed.

Lemma length_truncate (self : instance) (data : list F) (lo hi : option F) :
  length (_truncate self data lo hi) = length data.
Proof.
  unfold _truncate. destruct lo, hi; rewrite ?length_map; reflexivity.
Qed.

(** X9. [generate_group_means] raises ValueError when there is no group.
    Whenever it returns, every group size is non-negative, the group array
    holds the index of each group as many times as the group is large, in
    ascending order, and the data array has the length of the group
    array. *)
Theorem generate_group_means_labels :
  forall (self : instance) (n_per_group : list Z) (group_means : list F)
         (common_std : F) (min_val max_val : option F) (w : World),
    (combine n_per_group group_means = [] ->
     fst (generate_group_means self n_per_group group_means common_std
                               min_val max_val w)
     = Raise ValueError)
    /\ (forall (data : list F) (groups : list Z) (w' : World),
           generate_group_means self n_per_group group_means common_std
                                min_val max_val w
           = (Ok (data, groups), w') ->
           Forall (fun n => (0 <= n)%Z)
                  (map fst (combine n_per_group group_means))
           /\ groups = group_labels 0 (map fst (combine n_per_group group_means))
           /\ length data = length groups).
Proof.
  intros self n_per_group group_means common_std min_val max_val w. split.
  - intros E. unfold generate_group_means. rewrite E. reflexivity.
  - intros data groups w' E. unfold generate_group_means in E.
    apply bind_returns in E. destruct E as ([blocks gs] & w1 & El & E).
    apply group_means_loop_returns in El.
    destruct El as (blocks' & Eb & Hb & Eg). simpl in Eb, Eg. subst blocks' gs.
    apply bind_returns in E. destruct E as (d & w2 & Ec & E).
    assert (Ed : d = concat blocks).
    { unfold np_concatenate in Ec. destruct blocks; [discriminate | ].
      apply ret_returns in Ec. destruct Ec as [-> _]. reflexivity. }
    assert (Hn : Forall (fun n => (0 <= n)%Z)
                        (map fst (combine n_per_group group_means))).
    { clear -Hb. induction Hb as [|b n blocks ns [Hn _] _ IH];
        constructor; assumption. }
    pose proof (group_labels_length blocks 0 _ Hb) as L.
    destruct (is_given min_val || is_given max_val);
      apply ret_returns in E; destruct E as [E _]; injection E as -> ->;
      (split; [exact Hn | split; [reflexivity | ]]).
    + rewrite length_truncate, Ed. exact L.
    + rewrite Ed. exact L.
Qed.
End GroupMeans.

(* ================================================================== *)
(** * 25. Rounding to a precision *)
(* ================================================================== *)

Section IntegerParts.
Local Open Scope R_scope.

Lemma Rfloor_spec (r : R) : IZR (Rfloor r) <= r < IZR (Rfloor r) + 1.
Proof.
  unfold Rfloor. rewrite minus_IZR.
  destruct (archimed r) as [Hu Hl]. lra.
Qed.

Lemma Rceil_spec (r : R) : IZR (Rceil r) - 1 < r <= IZR (Rceil r).
Proof.
  unfold Rceil. rewrite opp_IZR.
  pose proof (Rfloor_spec (- r)). lra.
Qed.

Lemma Rrint_spec (r : R) : - (1 / 2) <= IZR (Rrint r) - r <= 1 / 2.
Proof.
  unfold Rrint. pose proof (Rfloor_spec r) as Hf.
  set (n := Rfloor r) in *.
  destruct (Rlt_bool_spec (r - IZR n) (1 / 2)); [lra | ].
  destruct (Rlt_bool_spec (1 / 2) (r - IZR n)); [rewrite plus_IZR; lra | ].
  destruct (Z.even n); [lra | rewrite plus_IZR; lra].
Qed.

Lemma Rfloor_IZR (k : Z) : Rfloor (IZR k) = k.
Proof. apply Rfloor_unique. lra. Qed.

Lemma Rceil_IZR (k : Z) : Rceil (IZR k) = k.
Proof. unfold Rceil. rewrite <- opp_IZR, Rfloor_IZR. lia. Qed.

Lemma Rrint_IZR (k : Z) : Rrint (IZR k) = k.
Proof. apply Rrint_below_half. lra. Qed.
End IntegerParts.

Section RoundingError.
Context `{NumpyRandom xreal}.
Import RealismEnhancer.
Local Open Scope R_scope.

(** What [round_to_precision] returns on finite data with a finite
    precision that is not zero. *)
Lemma round_to_precision_finite (self : instance) (rs : list R) (p : R)
    (f : R -> Z) (ff : xreal -> xreal) (method : string) (w : World) :
  p <> 0 ->
  (forall q : list xreal,
      round_to_precision self q (XFin p) method w
      = bind (true_divide_array q (XFin p))
             (fun q' => ret (map (fun x => (ff x * XFin p)%fl) q')) w) ->
  (forall a, ff (XFin a) = XFin (IZR (f a))) ->
  round_to_precision self (map XFin rs) (XFin p) method w
  = (Ok (map XFin (map (fun x => IZR (f (x / p)) * p) rs)), w).
Proof.
  intros Hp Hm Hf. rewrite Hm.
  rewrite (bind_ok _ _ _ _ _ (true_divide_array_run _ _ _)).
  rewrite after_division_nonzero by (simpl; apply Req_bool_false; exact Hp).
  unfold ret. f_equal. f_equal. rewrite !map_map. apply map_ext. intros a.
  simpl. rewrite Req_bool_false by exact Hp. rewrite Hf. reflexivity.
Qed.

(** X10. In exact arithmetic, for finite data and a positive finite
    precision [p], every element [r] that [round_to_precision] returns is
    an integer multiple of [p] with, for the input element [x],
    [|r - x| <= p / 2] by ['round'], [r <= x < r + p] by ['floor'] and
    [r - p < x <= r] by ['ceil']; no division by zero is reported. *)
Theorem round_to_precision_error :
  forall (self : instance) (rs : list R) (p : R) (w : World),
    0 < p ->
    (exists out : list R,
        round_to_precision self (map XFin rs) (XFin p) "round" w
        = (Ok (map XFin out), w)
        /\ Forall2 (fun x r => (exists k : Z, r = IZR k * p)
                               /\ Rabs (r - x) <= p / 2) rs out)
    /\ (exists out : list R,
           round_to_precision self (map XFin rs) (XFin p) "floor" w
           = (Ok (map XFin out), w)
           /\ Forall2 (fun x r => (exists k : Z, r = IZR k * p)
                                  /\ r <= x < r + p) rs out)
    /\ (exists out : list R,
           round_to_precision self (map XFin rs) (XFin p) "ceil" w
           = (Ok (map XFin out), w)
           /\ Forall2 (fun x r => (exists k : Z, r = IZR k * p)
                                  /\ r - p < x <= r) rs out).
Proof.
  intros self rs p w Hp.
  assert (Hx : forall x, x / p * p = x) by (intros x; field; lra).
  split; [ | split].
  - exists (map (fun x => IZR (Rrint (x / p)) * p) rs). split.
    + apply (round_to_precision_finite self rs p Rrint frint);
        [lra | reflexivity | reflexivity].
    + induction rs as [|x rs IH]; simpl; constructor; [ | exact IH].
      split; [eexists; reflexivity | ].
      pose proof (Rrint_spec (x / p)) as B.
      pose proof (Hx x) as Ex. set (y := x / p) in *. clearbody y.
      apply Rabs_le. rewrite <- Ex. nra.
  - exists (map (fun x => IZR (Rfloor (x / p)) * p) rs). split.
    + apply (round_to_precision_finite self rs p Rfloor ffloor);
        [lra | reflexivity | reflexivity].
    + induction rs as [|x rs IH]; simpl; constructor; [ | exact IH].
      split; [eexists; reflexivity | ].
      pose proof (Rfloor_spec (x / p)) as B.
      pose proof (Hx x) as Ex. set (y := x / p) in *. clearbody y.
      rewrite <- Ex. nra.
  - exists (map (fun x => IZR (Rceil (x / p)) * p) rs). split.
    + apply (round_to_precision_finite self rs p Rceil fceil);
        [lra | reflexivity | reflexivity].
    + induction rs as [|x rs IH]; simpl; constructor; [ | exact IH].
      split; [eexists; reflexivity | ].
      pose proof (Rceil_spec (x / p)) as B.
      pose proof (Hx x) as Ex. set (y := x / p) in *. clearbody y.
      rewrite <- Ex. nra.
Qed.
End RoundingError.

Section RoundingTwice.
Context `{NumpyRandom xreal}.
Import RealismEnhancer.
Local Open Scope R_scope.

(** Rounding a rounded element changes nothing, in exact arithmetic. *)
Lemma round_element_twice (g : R -> Z) (x p : xreal) :
  (forall k : Z, g (IZR k) = k) ->
  xmul (xlift_int g (xdiv (xmul (xlift_int g (xdiv x p)) p) p)) p
  = xmul (xlift_int g (xdiv x p)) p.
Proof.
  intros Hg.
  assert (Hg0 : g 0 = 0%Z) by apply (Hg 0%Z).
  destruct p as [p| t |]; [ | | destruct x as [a| s |]; reflexivity ].
  - destruct (Req_dec p 0) as [-> | Hp].
    + (* a zero precision: every element becomes NaN *)
      destruct x as [a| s |]; simpl; rewrite ?(Req_bool_true 0 0) by reflexivity;
        try reflexivity.
      destruct (Req_bool a 0); simpl;
        rewrite ?(Req_bool_true 0 0) by reflexivity; reflexivity.
    + destruct x as [a| s |]; simpl; rewrite ?(Req_bool_false p 0) by exact Hp;
        simpl; rewrite ?(Req_bool_false p 0) by exact Hp; simpl;
        try reflexivity.
      * replace (IZR (g (a / p)) * p / p) with (IZR (g (a / p)))
          by (field; exact Hp).
        rewrite Hg. reflexivity.
      * rewrite ?(Req_bool_false p 0) by exact Hp.
        destruct s, (Rlt_bool p 0); reflexivity.
  - destruct x as [a| s |]; simpl; try reflexivity.
    rewrite Hg0. simpl. rewrite (Req_bool_true 0 0) by reflexivity. reflexivity.
Qed.

Lemma round_to_precision_twice (self : instance) (data : list xreal)
    (precision : xreal) (g : R -> Z) (method : string) (w w' : World) :
  (forall k : Z, g (IZR k) = k) ->
  (forall (q : list xreal) (w0 : World),
      round_to_precision self q precision method w0
      = bind (true_divide_array q precision)
             (fun q' => ret (map (fun x => xmul (xlift_int g x) precision) q'))
             w0) ->
  exists out : list xreal,
    fst (round_to_precision self data precision method w) = Ok out
    /\ fst (round_to_precision self out precision method w') = Ok out.
Proof.
  intros Hg Hm.
  exists (map (fun x => xmul (xlift_int g (xdiv x precision)) precision) data).
  rewrite !Hm.
  rewrite !(bind_ok _ _ _ _ _ (true_divide_array_run _ _ _)).
  unfold ret. simpl. rewrite !map_map. split; [reflexivity | ].
  f_equal. apply map_ext. intros x. apply round_element_twice. exact Hg.
Qed.

(** X11. In exact arithmetic [round_to_precision] is idempotent for each of
    its three methods, on every array and for every precision: it returns,
    and rounding the array it returned returns that array. *)
Theorem round_to_precision_idempotent_exact :
  forall (self : instance) (data : list xreal) (precision : xreal)
         (w w' : World),
    (exists out : list xreal,
        fst (round_to_precision self data precision "round" w) = Ok out
        /\ fst (round_to_precision self out precision "round" w') = Ok out)
    /\ (exists out : list xreal,
           fst (round_to_precision self data precision "floor" w) = Ok out
           /\ fst (round_to_precision self out precision "floor" w') = Ok out)
    /\ (exists out : list xreal,
           fst (round_to_precision self data precision "ceil" w) = Ok out
           /\ fst (round_to_precision self out precision "ceil" w') = Ok out).
Proof.
  intros self data precision w w'. split; [ | split].
  - apply (round_to_precision_twice self data precision Rrint);
      [apply Rrint_IZR | reflexivity].
  - apply (round_to_precision_twice self data precision Rfloor);
      [apply Rfloor_IZR | reflexivity].
  - apply (round_to_precision_twice self data precision Rceil);
      [apply Rceil_IZR | reflexivity].
Qed.
End RoundingTwice.

Section ZeroPrecision.
Import RealismEnhancer.




End ZeroPrecision.

(* ================================================================== *)
(** * 26. Dropout, missing values, misclassification and identifiers *)
(* ================================================================== *)

Section Masks.
Context {F : Type} `{Float F} `{NumpyRandom F}.

Lemma getitem_mask_returns {A} (a : list A) (mask : list bool) (w w' : World)
    (out : list A) :
  getitem_mask a mask w = (Ok out, w') ->
  length a = length mask /\ out = select a mask /\ w' = w.
Proof.
  unfold getitem_mask.
  destruct (Nat.eqb_spec (length a) (length mask)) as [E|N]; [ | discriminate ].
  intros R. apply ret_returns in R. destruct R as [-> ->]. auto.
Qed.

Lemma count_true_complement (mask : list bool) :
  (count_true (map negb mask) + count_true mask = length mask)%nat.
Proof.
  unfold count_true. induction mask as [|b mask IH]; [reflexivity | ].
  destruct b; simpl; lia.
Qed.

Lemma count_true_negb (mask : list bool) :
  count_true (map negb mask) = (length mask - count_true mask)%nat.
Proof. pose proof (count_true_complement mask). lia. Qed.

Lemma np_random_random_returns (n : Z) (w w' : World) (r : list F)
    `{!NumpyRandomLaws F} :
  np_random_random n w = (Ok r, w') ->
  (0 <= n)%Z /\ length r = Z.to_nat n
  /\ r = fst (draw_random (Z.to_nat n) (np_random w))
  /\ zero_divisions w' = zero_divisions w.
Proof.
  unfold np_random_random, size_arg.
  destruct (Z.ltb_spec n 0) as [N|P]; [discriminate | ].
  unfold bind, ret. rewrite draw_run.
  intros E. apply run_eq in E. destruct E as [<- <-].
  split; [exact P | ]. split; [apply draw_random_length | ].
  split; reflexivity.
Qed.
End Masks.

Section DropoutLengths.
Context {F : Type} `{Float F} `{NumpyRandom F} `{!NumpyRandomLaws F}.
Import RealismEnhancer.
Local Open Scope fl_scope.

Lemma filter_items_returns (items : list (string * list F)) (mask : list bool) :
  forall (w w' : World) (filtered : list (string * list F)),
    filter_items items mask w = (Ok filtered, w') ->
    w' = w
    /\ Forall2 (fun kv kv' => fst kv' = fst kv
                              /\ length (snd kv) = length mask
                              /\ snd kv' = select (snd kv) mask)
               items filtered.
Proof.
  induction items as [|[key values] items IH]; intros w w' filtered E.
  - simpl in E. apply ret_returns in E. destruct E as [-> ->].
    split; [reflexivity | constructor].
  - simpl in E. apply bind_returns in E. destruct E as (kept & w1 & Ek & E).
    apply getitem_mask_returns in Ek. destruct Ek as (L & -> & ->).
    apply bind_returns in E. destruct E as (rest & w2 & Er & E).
    apply IH in Er. destruct Er as [-> Hr].
    apply ret_returns in E. destruct E as [-> ->].
    split; [reflexivity | ]. constructor; [ | exact Hr]. simpl. auto.
Qed.

(** X13. [add_dropout] raises IndexError on an empty dict.  Whenever it
    returns, the returned dict has the keys of the input in their order,
    every input array has the length of the dropout mask, and every
    returned array holds the elements of the input array where the mask is
    false, so its length is the number of retained records. *)
Theorem add_dropout_lengths :
  forall (self : instance) (data : list (string * list F)) (dropout_rate : F)
         (dropout_mechanism : string) (w : World),
    (data = [] ->
     add_dropout self data dropout_rate dropout_mechanism w
     = (Raise IndexError, w))
    /\ (forall (filtered : list (string * list F)) (dropout_mask : list bool)
               (w' : World),
           add_dropout self data dropout_rate dropout_mechanism w
           = (Ok (filtered, dropout_mask), w') ->
           Forall2 (fun kv kv' =>
                      fst kv' = fst kv
                      /\ length (snd kv) = length dropout_mask
                      /\ snd kv' = select (snd kv) (map negb dropout_mask)
                      /\ length (snd kv')
                         = (length dropout_mask - count_true dropout_mask)%nat)
                   data filtered).
Proof.
  intros self data dropout_rate dropout_mechanism w. split.
  - intros ->. reflexivity.
  - intros filtered dropout_mask w' E. unfold add_dropout in E.
    apply bind_returns in E. destruct E as (n & w1 & En & E).
    apply bind_returns in E. destruct E as (mask & w2 & Em & E).
    apply bind_returns in E. destruct E as (fd & w3 & Ef & E).
    apply ret_returns in E. destruct E as [E _]. injection E as -> ->.
    apply filter_items_returns in Ef. destruct Ef as [_ Hf].
    clear -Hf. induction Hf as [|kv kv' items filtered (K & L & S) _ IH];
      constructor; [ | exact IH].
    rewrite length_map in L.
    split; [exact K | ]. split; [exact L | ]. split; [exact S | ].
    rewrite S, select_length by (rewrite length_map; exact L).
    apply count_true_negb.
Qed.
End DropoutLengths.

Section MaskedAssignment.
Context {F : Type} `{Float F} `{NumpyRandom F}.

(** A masked assignment leaves the elements outside the mask and puts one
    of the assigned values at each element inside. *)
Lemma put_mask_cases {A} (a : list A) :
  forall (mask : list bool) (vals : list A),
    Forall2 (fun x r => r = x \/ In r vals) a (put_mask a mask vals).
Proof.
  induction a as [|x a IH]; intros mask vals; [constructor | ].
  assert (Same : Forall2 (fun x r : A => r = x \/ In r vals) (x :: a) (x :: a)).
  { clear. induction (x :: a); constructor; auto. }
  destruct mask as [|b mask]; [exact Same | ].
  destruct b; simpl.
  - destruct vals as [|v vals].
    + constructor; [left; reflexivity | apply IH].
    + constructor; [right; left; reflexivity | ].
      eapply Forall2_impl; [ | apply IH].
      intros y r [-> | I]; [left; reflexivity | right; right; exact I].
  - constructor; [left; reflexivity | apply IH].
Qed.

Lemma setitem_mask_returns {A} (a : list A) (mask : list bool) (vals : list A)
    (w w' : World) (out : list A) :
  setitem_mask a mask vals w = (Ok out, w') ->
  w' = w /\ length a = length mask
  /\ Forall2 (fun x r => r = x \/ In r vals) a out.
Proof.
  unfold setitem_mask.
  destruct (Nat.eqb_spec (length a) (length mask)) as [L|N]; simpl;
    [ | discriminate ].
  destruct (Nat.eqb (count_true mask) (length vals)).
  - intros E. apply ret_returns in E. destruct E as [-> ->].
    split; [reflexivity | ]. split; [exact L | apply put_mask_cases].
  - destruct vals as [|v [|v' vals]]; try discriminate.
    intros E. apply ret_returns in E. destruct E as [-> ->].
    split; [reflexivity | ]. split; [exact L | ].
    eapply Forall2_impl; [ | apply put_mask_cases].
    intros x r [-> | I]; [left; reflexivity | right].
    apply repeat_spec in I. subst r. left. reflexivity.
Qed.
Lemma put_mask_repeat {A} (v : A) (a : list A) :
  forall (mask : list bool) (k : nat),
    length a = length mask -> (count_true mask <= k)%nat ->
    put_mask a mask (repeat v k)
    = zip_with (fun x (b : bool) => if b then v else x) a mask.
Proof.
  unfold count_true.
  induction a as [|x a IH]; intros [|b mask] k L C; simpl in *; try lia;
    try reflexivity.
  injection L as L. destruct b; simpl in C.
  - destruct k as [|k]; [lia | ]. simpl. f_equal. apply IH; [exact L | lia].
  - f_equal. apply IH; assumption.
Qed.

(** [a[mask] = v] for a scalar [v]. *)
Lemma setitem_mask_scalar {A} (v : A) (a : list A) (mask : list bool)
    (w : World) :
  length a = length mask ->
  setitem_mask a mask [v] w
  = (Ok (zip_with (fun x (b : bool) => if b then v else x) a mask), w).
Proof.
  intros L. unfold setitem_mask. rewrite L, Nat.eqb_refl. simpl.
  destruct (Nat.eqb_spec (count_true mask) 1) as [C|C].
  - change [v] with (repeat v 1). rewrite put_mask_repeat by (assumption || lia).
    reflexivity.
  - rewrite put_mask_repeat by (assumption || lia). reflexivity.
Qed.

Lemma zip_with_map_r {A B C D} (f : A -> C -> D) (g : B -> C) (l : list A)
    (m : list B) :
  zip_with f l (map g m) = zip_with (fun x y => f x (g y)) l m.
Proof.
  revert m. induction l as [|x l IH]; intros [|y m]; simpl; try reflexivity.
  rewrite IH. reflexivity.
Qed.
End MaskedAssignment.

Section MissingValues.
Context {F : Type} `{Float F} `{FloatBits F} `{NumpyRandom F}
        `{!NumpyRandomLaws F} `{!NumpyRandomMore F} `{NumpyStats F}.
Import RealismEnhancer.
Local Open Scope fl_scope.

(** X14. [add_missing_values] raises ValueError, and draws nothing, for a
    mechanism outside the enumeration and for MAR without [related_var].
    Whenever it returns, every element of the result is the input element
    or NaN.  With MCAR it returns, and an element is NaN exactly where the
    uniform draw of its record is below [missing_rate]. *)
Theorem add_missing_values_only_erases :
  forall (self : instance) (data : list F) (missing_rate : F)
         (mechanism : mechanism_value) (related_var : option (list F))
         (w : World),
    (mechanism = OtherValue \/ (mechanism = Member MAR /\ related_var = None) ->
     add_missing_values self data missing_rate mechanism related_var w
     = (Raise ValueError, w))
    /\ (forall (out : list F) (w' : World),
           add_missing_values self data missing_rate mechanism related_var w
           = (Ok out, w') ->
           Forall2 (fun x r => r = x \/ r = fnan) data out)
    /\ (mechanism = Member MCAR ->
        fst (add_missing_values self data missing_rate mechanism related_var w)
        = Ok (zip_with (fun x u => if u <? missing_rate then fnan else x) data
                       (fst (draw_random (length data) (np_random w))))).
Proof.
  intros self data missing_rate mechanism related_var w. split; [ | split].
  - intros [-> | [-> ->]]; reflexivity.
  - intros out w' E. unfold add_missing_values in E.
    apply bind_returns in E. destruct E as (mask & w1 & _ & E).
    apply setitem_mask_returns in E. destruct E as (_ & _ & Hout).
    eapply Forall2_impl; [ | exact Hout].
    intros x r [-> | [<- | []]]; [left | right]; reflexivity.
  - intros ->. unfold add_missing_values, np_random_random.
    erewrite bind_ok.
    2:{ erewrite bind_ok.
        2:{ erewrite bind_ok by apply size_arg_len. apply draw_run. }
        reflexivity. }
    rewrite setitem_mask_scalar
      by (rewrite length_map, draw_random_length; reflexivity).
    simpl. rewrite zip_with_map_r. reflexivity.
Qed.
End MissingValues.

Section Unique.
Lemma unique_insert_In (x y : Z) (l : list Z) :
  In y (unique_insert x l) <-> y = x \/ In y l.
Proof.
  induction l as [|z l IH]; simpl.
  - intuition.
  - destruct (Z.ltb_spec x z); [simpl; intuition | ].
    destruct (Z.eqb_spec x z) as [-> | N]; simpl; [intuition | ].
    rewrite IH. intuition.
Qed.

(** The unique values of an array are its values. *)
Lemma np_unique_In (y : Z) (l : list Z) : In y (np_unique l) <-> In y l.
Proof.
  unfold np_unique. induction l as [|x l IH]; simpl; [tauto | ].
  rewrite unique_insert_In, IH. intuition.
Qed.
End Unique.

Section Misclassification.
Context {F : Type} `{Float F} `{FloatBits F} `{NumpyRandom F}
        `{!NumpyRandomLaws F} `{!NumpyRandomMore F} `{!NumpyRandomMoreLaws F}.
Import RealismEnhancer.
Local Open Scope fl_scope.

Lemma mtrand_choice_returns (a : list Z) (w w' : World) (c : Z) :
  mtrand_choice a w = (Ok c, w') -> In c a.
Proof.
  unfold mtrand_choice. destruct a as [|x a]; [discriminate | ].
  rewrite draw_run. intros E. apply run_eq in E. destruct E as [<- _].
  apply draw_choice_In. discriminate.
Qed.

(** Is there a category other than [x]? *)
Lemma other_category (categories : list Z) (x : Z) :
  (0 <? len (filter (fun c => negb (Z.eqb c x)) categories))%Z
  = existsb (fun c => negb (Z.eqb c x)) categories.
Proof.
  induction categories as [|c cs IH]; simpl; [reflexivity | ].
  destruct (negb (Z.eqb c x)); simpl; [ | exact IH].
  unfold len. simpl length. apply Z.ltb_lt. lia.
Qed.

Lemma misclassify_returns (categories : list Z) (result : list Z) :
  forall (error_mask : list bool) (w w' : World) (out : list Z),
    length result = length error_mask ->
    misclassify categories result error_mask w = (Ok out, w') ->
    Forall2 (fun (xb : Z * bool) (r : Z) =>
               if snd xb && existsb (fun c => negb (Z.eqb c (fst xb))) categories
               then r <> fst xb /\ In r categories
               else r = fst xb)
            (combine result error_mask) out.
Proof.
  induction result as [|x result IH]; intros [|b mask] w w' out L E;
    try discriminate L.
  - simpl in E. apply ret_returns in E. destruct E as [-> _]. constructor.
  - injection L as L. simpl in E.
    apply bind_returns in E. destruct E as (cat & w1 & Ec & E).
    apply bind_returns in E. destruct E as (rest & w2 & Er & E).
    apply ret_returns in E. destruct E as [-> _].
    simpl. constructor; [ | exact (IH mask w1 w2 rest L Er)].
    simpl. destruct b; simpl.
    + rewrite other_category in Ec.
      destruct (existsb (fun c => negb (Z.eqb c x)) categories).
      * apply mtrand_choice_returns in Ec. apply filter_In in Ec.
        destruct Ec as [I N]. split; [ | exact I].
        apply negb_true_iff, Z.eqb_neq in N. exact N.
      * apply ret_returns in Ec. destruct Ec as [-> _]. reflexivity.
    + apply ret_returns in Ec. destruct Ec as [-> _]. reflexivity.
Qed.

Lemma count_true_zero (mask : list bool) :
  count_true mask = 0%nat -> Forall (fun b => b = false) mask.
Proof.
  unfold count_true. induction mask as [|b mask IH]; [constructor | ].
  destruct b; simpl; [discriminate | ]. intros E. constructor; auto.
Qed.

Lemma nothing_selected (cats : list Z) (data : list Z) :
  forall mask : list bool,
    length data = length mask ->
    Forall (fun b => b = false) mask ->
    Forall2 (fun (xb : Z * bool) (r : Z) =>
               if snd xb && existsb (fun c => negb (Z.eqb c (fst xb))) cats
               then r <> fst xb /\ In r cats
               else r = fst xb)
            (combine data mask) data.
Proof.
  induction data as [|x data IH]; intros [|b mask] L Z; try discriminate L;
    simpl; constructor.
  - inversion Z; subst. reflexivity.
  - apply IH; [injection L as L; exact L | inversion Z; assumption].
Qed.

Lemma selected_by_draws (cats cats' : list Z) (error_rate : F) (data : list Z) :
  (forall x, existsb (fun c => negb (Z.eqb c x)) cats
             = existsb (fun c => negb (Z.eqb c x)) cats') ->
  (forall c, In c cats -> In c cats') ->
  forall (us : list F) (out : list Z),
    Forall2 (fun (xb : Z * bool) (r : Z) =>
               if snd xb && existsb (fun c => negb (Z.eqb c (fst xb))) cats
               then r <> fst xb /\ In r cats
               else r = fst xb)
            (combine data (map (fun u => u <? error_rate) us)) out ->
    Forall2 (fun (xu : Z * F) (r : Z) =>
               if (snd xu <? error_rate)
                  && existsb (fun c => negb (Z.eqb c (fst xu))) cats'
               then r <> fst xu /\ In r cats'
               else r = fst xu)
            (combine data us) out.
Proof.
  intros Hc Hi.
  induction data as [|x data IH]; intros [|u us] out D; simpl in *;
    inversion D as [|? r ? rest Hx Hrest]; subst; constructor.
  - simpl in *. rewrite <- Hc.
    destruct ((u <? error_rate) && existsb _ cats);
      [destruct Hx as [N I]; split; [exact N | exact (Hi _ I)] | exact Hx].
  - apply IH. exact Hrest.
Qed.

Lemma misclassify_total (categories : list Z) (result : list Z) :
  forall (error_mask : list bool) (w : World),
    exists (out : list Z) (w' : World),
      misclassify categories result error_mask w = (Ok out, w').
Proof.
  induction result as [|x result IH]; intros [|b mask] w; simpl;
    try (eexists; eexists; reflexivity).
  assert (C : exists (cat : Z) (w1 : World),
             (if b
              then let other_cats :=
                     filter (fun c => negb (Z.eqb c x)) categories in
                   if (0 <? len other_cats)%Z then mtrand_choice other_cats
                   else ret x
              else ret x) w = (Ok cat, w1)).
  { destruct b; [ | eexists; eexists; reflexivity ]. cbv zeta.
    destruct (filter (fun c => negb (Z.eqb c x)) categories) as [|c cs].
    - eexists; eexists; reflexivity.
    - replace (0 <? len (c :: cs))%Z with true
        by (symmetry; apply Z.ltb_lt; unfold len; simpl length; lia).
      unfold mtrand_choice. rewrite draw_run. eexists; eexists; reflexivity. }
  destruct C as (cat & w1 & Ec).
  destruct (IH mask w1) as (rest & w2 & Er).
  exists (cat :: rest), w2.
  erewrite bind_ok by exact Ec. erewrite bind_ok by exact Er. reflexivity.
Qed.

(** X15. [add_misclassification] on integer category codes always returns.
    A record changes exactly when its uniform draw is below [error_rate]
    and the category list holds another category; it then has a different
    category of the list (of the values of the data, when no list is
    given). *)
Theorem add_misclassification_changes :
  forall (self : instance) (data : list Z) (error_rate : F)
         (categories : option (list Z)) (w : World),
    exists (out : list Z) (w' : World),
      add_misclassification self data error_rate categories w = (Ok out, w')
      /\ Forall2 (fun (xu : Z * F) (r : Z) =>
                    if (snd xu <? error_rate)
                       && existsb (fun c => negb (Z.eqb c (fst xu)))
                            (match categories with
                             | None => data
                             | Some c => c
                             end)
                    then r <> fst xu
                         /\ In r (match categories with
                                  | None => data
                                  | Some c => c
                                  end)
                    else r = fst xu)
                 (combine data (fst (draw_random (length data) (np_random w))))
                 out.
Proof.
  intros self data error_rate categories w.
  set (r := fst (draw_random (length data) (np_random w))).
  assert (Er : exists w1 : World, np_random_random (len data) w = (Ok r, w1)).
  { unfold np_random_random.
    erewrite bind_ok by apply size_arg_len.
    rewrite draw_run. eexists. reflexivity. }
  destruct Er as (w1 & Er).
  assert (Lr : length data = length (map (fun x => x <? error_rate) r))
    by (unfold r; rewrite length_map, draw_random_length; reflexivity).
  set (cats := match categories with None => np_unique data | Some c => c end).
  assert (Run : exists (out : list Z) (w' : World),
             add_misclassification self data error_rate categories w
             = (Ok out, w')
             /\ (if Nat.eqb (count_true (map (fun x => x <? error_rate) r)) 0
                 then ret data
                 else misclassify cats data (map (fun x => x <? error_rate) r))
                  w1 = (Ok out, w')).
  { unfold add_misclassification. erewrite bind_ok by exact Er. fold cats.
    destruct (Nat.eqb (count_true (map (fun x => x <? error_rate) r)) 0).
    - eexists; eexists; split; reflexivity.
    - destruct (misclassify_total cats data (map (fun x => x <? error_rate) r) w1)
        as (out & w' & E).
      exists out, w'. split; exact E. }
  destruct Run as (out & w' & Ea & E).
  exists out, w'. split; [exact Ea | ].
  apply (selected_by_draws cats).
  - (* the categories of the data and its unique values are the same *)
    intros x. unfold cats. destruct categories as [c|]; [reflexivity | ].
    apply eq_true_iff_eq. rewrite !existsb_exists.
    split; intros (c & I & N); exists c; (split; [ | exact N]);
      apply np_unique_In; exact I.
  - intros c I. unfold cats in I. destruct categories as [cs|]; [exact I | ].
    apply np_unique_In. exact I.
  - destruct (Nat.eqb_spec (count_true (map (fun x => x <? error_rate) r)) 0)
      as [Z|N].
    + apply ret_returns in E. destruct E as [-> _].
      apply nothing_selected; [exact Lr | apply count_true_zero; exact Z].
    + eapply misclassify_returns; [exact Lr | exact E].
Qed.
End Misclassification.

Section UniqueIds.
Import RealismEnhancer.
Local Open Scope string_scope.

Lemma NoDup_map_injective {A B} (f : A -> B) (l : list A) :
  (forall x y, f x = f y -> x = y) -> NoDup l -> NoDup (map f l).
Proof.
  intros Inj N. induction N as [|x l Hx _ IH]; simpl; constructor.
  - intros I. apply in_map_iff in I. destruct I as (y & E & Hy).
    apply Inj in E. subst y. contradiction.
  - exact IH.
Qed.

Lemma append_cancel (p a b : string) : p ++ a = p ++ b -> a = b.
Proof.
  induction p as [|c p IH]; simpl; intros E; [exact E | ].
  injection E as E. apply IH. exact E.
Qed.

(** Reading a number with zeros in front. *)
Lemma read_zeros (k : nat) (s : string) (d : Decimal.uint) :
  NilEmpty.uint_of_string s = Some d ->
  option_map Z.of_uint (NilEmpty.uint_of_string (zeros k ++ s))
  = Some (Z.of_uint d).
Proof.
  intros E. induction k as [|k IH]; simpl.
  - rewrite E. reflexivity.
  - destruct (NilEmpty.uint_of_string (zeros k ++ s)) as [d'|];
      [ | discriminate ].
    simpl in *. exact IH.
Qed.

(** The decimal digits of a positive number start with no sign. *)
Lemma py_str_positive (p : positive) (width : Z) :
  zfill (py_str (Z.pos p)) width
  = zeros (Z.to_nat (width - Z.of_nat (String.length (py_str (Z.pos p)))))
    ++ NilEmpty.string_of_uint (Pos.to_uint p).
Proof.
  unfold py_str. simpl Z.to_int. unfold NilZero.string_of_int.
  pose proof (Unsigned.to_uint_nonnil p) as N.
  unfold NilZero.string_of_uint.
  destruct (Pos.to_uint p); try contradiction; reflexivity.
Qed.

(** A padded number reads back as the number. *)
Lemma zfill_reads_back (p : positive) (width : Z) :
  option_map Z.of_uint (NilEmpty.uint_of_string (zfill (py_str (Z.pos p)) width))
  = Some (Z.pos p).
Proof.
  rewrite py_str_positive.
  rewrite (read_zeros _ _ (Pos.to_uint p)) by apply NilEmpty.usu.
  unfold Z.of_uint. rewrite Unsigned.of_to. reflexivity.
Qed.

Lemma id_injective (prefix : string) (digits : Z) (i j : nat) :
  prefix ++ zfill (py_str (Z.of_nat i + 1)) digits
  = prefix ++ zfill (py_str (Z.of_nat j + 1)) digits ->
  i = j.
Proof.
  intros E. apply append_cancel in E.
  assert (P : forall k : nat, (Z.of_nat k + 1 = Z.pos (Pos.of_succ_nat k))%Z)
    by (intros k; lia).
  rewrite (P i), (P j) in E.
  pose proof (zfill_reads_back (Pos.of_succ_nat i) digits) as Ri.
  rewrite E, zfill_reads_back in Ri. injection Ri as Ri. lia.
Qed.

(** X16. The identifiers [generate_unique_ids] returns are pairwise
    distinct, there are [max(n, 0)] of them, and the one at index [i] is the
    prefix followed by digits that read back as [i + 1]. *)
Theorem generate_unique_ids_distinct :
  forall (self : instance) (n : Z) (prefix : string) (digits : Z),
    NoDup (generate_unique_ids self n prefix digits)
    /\ length (generate_unique_ids self n prefix digits) = Z.to_nat n
    /\ forall i : nat,
         (i < Z.to_nat n)%nat ->
         exists number : string,
           nth_error (generate_unique_ids self n prefix digits) i
           = Some (prefix ++ number)
           /\ option_map Z.of_uint (NilEmpty.uint_of_string number)
              = Some (Z.of_nat i + 1)%Z.
Proof.
  intros self n prefix digits. unfold generate_unique_ids.
  split; [ | split].
  - apply NoDup_map_injective; [ | apply seq_NoDup].
    intros i j. apply id_injective.
  - rewrite length_map, length_seq. reflexivity.
  - intros i Hi. eexists. split.
    + rewrite nth_error_map, nth_error_seq.
      destruct (Nat.ltb_spec i (Z.to_nat n)) as [_|N]; [ | lia].
      simpl. reflexivity.
    + replace (Z.of_nat i + 1)%Z with (Z.pos (Pos.of_succ_nat i)) by lia.
      apply zfill_reads_back.
Qed.
End UniqueIds.

(* ================================================================== *)
(** * 27. The summary of a validator *)
(* ================================================================== *)

Section SummaryCounts.
Context {F : Type} `{Float F}.
Import StatisticalValidator.
Local Open Scope Z_scope.

Lemma passed_count_bounds (rs : list (@ValidationResult F)) :
  0 <= len (filter (fun r => passed r) rs) <= len rs.
Proof.
  unfold len. pose proof (filter_length_le (fun r => passed r) rs). lia.
Qed.

Lemma all_passed_iff (rs : list (@ValidationResult F)) :
  len (filter (fun r => passed r) rs) = len rs
  <-> Forall (fun r => passed r = true) rs.
Proof.
  unfold len. induction rs as [|r rs IH]; simpl.
  - split; [constructor | reflexivity].
  - pose proof (filter_length_le (fun r => passed r) rs) as B.
    destruct (passed r) eqn:P; simpl.
    + split.
      * intros E. constructor; [exact P | ]. apply IH. lia.
      * intros A. inversion A as [|r' rs' _ Hrs]; subst.
        apply IH in Hrs. lia.
    + split; [lia | ]. intros A. inversion A as [|r' rs' Hr _]; subst.
      congruence.
Qed.

(** X17. In the dict [get_summary] returns, [total] is the number of
    results, [passed + failed = total], [0 <= passed <= total], and
    [all_passed] holds exactly when every result passed, that is when
    [failed = 0]; a validator without results reports [all_passed = True]
    and [pass_rate = 0]. *)
Theorem get_summary_counts :
  forall self : @instance F,
    summary_total (get_summary self) = len (results self)
    /\ summary_passed (get_summary self) + summary_failed (get_summary self)
       = summary_total (get_summary self)
    /\ 0 <= summary_passed (get_summary self) <= summary_total (get_summary self)
    /\ (summary_all_passed (get_summary self) = true
        <-> Forall (fun r => passed r = true) (results self))
    /\ (summary_all_passed (get_summary self) = true
        <-> summary_failed (get_summary self) = 0)
    /\ (results self = [] ->
        summary_all_passed (get_summary self) = true
        /\ summary_pass_rate (get_summary self) = of_int 0).
Proof.
  intros self. unfold get_summary. cbn [summary_total summary_passed
    summary_failed summary_all_passed summary_pass_rate].
  pose proof (passed_count_bounds (results self)) as B.
  split; [reflexivity | ]. split; [lia | ]. split; [exact B | ].
  split; [rewrite Z.eqb_eq; apply all_passed_iff | ].
  split; [rewrite Z.eqb_eq; lia | ].
  intros ->. split; reflexivity.
Qed.
End SummaryCounts.

Section SummaryRate.
Import StatisticalValidator.
Local Open Scope R_scope.

(** X18. In exact arithmetic the [pass_rate] of [get_summary] is a number
    between 0 and 1, and it is 1 exactly when there is a result and every
    result passed. *)
Theorem get_summary_pass_rate :
  forall self : @instance xreal,
    exists q : R,
      summary_pass_rate (get_summary self) = XFin q
      /\ 0 <= q <= 1
      /\ (q = 1 <-> results self <> []
                    /\ Forall (fun r => passed r = true) (results self)).
Proof.
  intros self. unfold get_summary. cbn [summary_pass_rate].
  pose proof (passed_count_bounds (results self)) as B.
  pose proof (all_passed_iff (results self)) as A.
  set (p := len (filter (fun r => passed r) (results self))) in *.
  set (t := len (results self)) in *.
  assert (Ht : t = 0%Z <-> results self = []).
  { unfold t, len. destruct (results self); simpl; split; try reflexivity;
      try discriminate; lia. }
  destruct (Z.ltb_spec 0 t) as [P|N].
  - exists (IZR p / IZR t).
    assert (Pt : 0 < IZR t) by (apply IZR_lt; exact P).
    split; [simpl; rewrite Req_bool_false by lra; reflexivity | ].
    assert (Bp : 0 <= IZR p <= IZR t) by (split; apply IZR_le; lia).
    split.
    + split.
      * apply Rmult_le_pos; [lra | ]. left. apply Rinv_0_lt_compat. exact Pt.
      * apply (Rmult_le_reg_r (IZR t)); [exact Pt | ].
        unfold Rdiv. rewrite Rmult_assoc, Rinv_l by lra. lra.
    + split.
      * intros E. assert (Ep : IZR p = IZR t).
        { apply (Rmult_eq_reg_r (/ IZR t)).
          - fold (IZR p / IZR t). rewrite E. rewrite Rinv_r by lra. reflexivity.
          - apply Rinv_neq_0_compat. lra. }
        apply eq_IZR in Ep. split; [ | apply A; exact Ep].
        intros Z. apply Ht in Z. lia.
      * intros [_ Hall]. apply A in Hall. rewrite Hall.
        unfold Rdiv. apply Rinv_r. lra.
  - exists 0. split; [reflexivity | ]. split; [lra | ].
    split; [intros; lra | ]. intros [Ne _]. exfalso. apply Ne. apply Ht. lia.
Qed.
End SummaryRate.

Section SummaryAfterValidation.
Context {F : Type} `{Float F} `{Transcend F} `{NumpyRandom F}.
Import StatisticalValidator.
Local Open Scope Z_scope.

Lemma validate_odds_ratio_appends (self self' : instance)
    (outcome exposure : list Z) (expected_or : F) (expected_significant : bool)
    (alpha : F) (w w' : World) (result : ValidationResult) :
  validate_odds_ratio self outcome exposure expected_or expected_significant
                      alpha w
  = (Ok (result, self'), w') ->
  self' = {| self_tolerance := self_tolerance self;
             results := results self ++ [result] |}.
Proof.
  intros E. unfold validate_odds_ratio in E.
  apply bind_returns in E. destruct E as (a & w1 & _ & E).
  apply bind_returns in E. destruct E as (b & w2 & _ & E).
  apply bind_returns in E. destruct E as (c & w3 & _ & E).
  apply bind_returns in E. destruct E as (d & w4 & _ & E).
  apply bind_returns in E. destruct E as (actual_or & w5 & _ & E).
  apply bind_returns in E. destruct E as ([ci p] & w6 & _ & E).
  apply bind_returns in E. destruct E as (or_ok & w7 & _ & E).
  apply ret_returns in E. destruct E as [E _].
  injection E as <- <-. reflexivity.
Qed.

(** X19. Whenever [validate_odds_ratio] returns, the summary of the
    validator afterwards holds the results of before followed by the
    returned one: [total] is one more, [passed] is one more when the result
    passed, [failed] is one more when it did not, and [all_passed] is what
    it was and the result's verdict. *)
Theorem validate_odds_ratio_then_summary :
  forall (self self' : instance) (outcome exposure : list Z) (expected_or : F)
         (expected_significant : bool) (alpha : F) (w w' : World)
         (result : ValidationResult),
    validate_odds_ratio self outcome exposure expected_or expected_significant
                        alpha w
    = (Ok (result, self'), w') ->
    summary_results (get_summary self')
    = summary_results (get_summary self) ++ [result]
    /\ summary_total (get_summary self') = summary_total (get_summary self) + 1
    /\ summary_passed (get_summary self')
       = summary_passed (get_summary self) + (if passed result then 1 else 0)
    /\ summary_failed (get_summary self')
       = summary_failed (get_summary self) + (if passed result then 0 else 1)
    /\ summary_all_passed (get_summary self')
       = summary_all_passed (get_summary self) && passed result.
Proof.
  intros self self' outcome exposure expected_or expected_significant alpha
         w w' result E.
  apply validate_odds_ratio_appends in E. subst self'.
  unfold get_summary. cbn [summary_results summary_total summary_passed
    summary_failed summary_all_passed results].
  pose proof (passed_count_bounds (results self)) as B.
  rewrite filter_app. unfold len in *. rewrite !length_app. simpl.
  destruct (passed result); simpl.
  - split; [reflexivity | ]. split; [lia | ]. split; [lia | ]. split; [lia | ].
    rewrite andb_true_r. apply eq_true_iff_eq. rewrite !Z.eqb_eq. lia.
  - split; [reflexivity | ]. split; [lia | ]. split; [lia | ]. split; [lia | ].
    rewrite andb_false_r. apply Z.eqb_neq. lia.
Qed.
End SummaryAfterValidation.

Section CheckValue.
Context `{Transcend xreal} `{NumpyRandom xreal}.
Import StatisticalValidator.
Local Open Scope R_scope.

Lemma check_value_finite (self : instance) (t a e : R) (w : World) :
  self_tolerance self = XFin t ->
  _check_value self (XFin a) (XFin e) w
  = (Ok (if Req_bool e 0 then Rlt_bool (Rabs a) t
         else Rle_bool (Rabs (a - e)) (t * Rabs e)), w).
Proof.
  intros Ht. unfold _check_value. rewrite Ht. simpl.
  destruct (Req_dec e 0) as [-> | Ne].
  - rewrite Req_bool_true by reflexivity. reflexivity.
  - rewrite (Req_bool_false e 0) by exact Ne.
    rewrite (bind_ok _ _ _ _ _ (true_divide_run _ _ _)).
    assert (Pe : 0 < Rabs e) by (apply Rabs_pos_lt; exact Ne).
    rewrite after_division_nonzero by (simpl; apply Req_bool_false; lra).
    unfold ret. simpl. rewrite Req_bool_false by lra. simpl.
    f_equal. f_equal.
    replace (a + - e) with (a - e) by lra.
    destruct (Rle_bool_spec (Rabs (a - e)) (t * Rabs e)) as [L|G].
    + apply Rle_bool_true.
      apply (Rmult_le_reg_r (Rabs e)); [exact Pe | ].
      unfold Rdiv. rewrite Rmult_assoc, Rinv_l by lra. lra.
    + apply Rle_bool_false.
      apply (Rmult_lt_reg_r (Rabs e)); [exact Pe | ].
      unfold Rdiv. rewrite Rmult_assoc, Rinv_l by lra. lra.
Qed.

(** X20. In exact arithmetic with a finite tolerance [t], [_check_value]
    on finite numbers with an expected value that is not zero holds exactly
    when [|actual - expected| <= t * |expected|], reports no division by
    zero, and its verdict is the same when both values are multiplied by a
    number that is not zero; with an expected value of zero it holds
    exactly when [|actual| < t]. *)
Theorem check_value_relative :
  forall (self : instance) (t a e c : R) (w : World),
    self_tolerance self = XFin t ->
    (e <> 0 ->
     _check_value self (XFin a) (XFin e) w
     = (Ok (Rle_bool (Rabs (a - e)) (t * Rabs e)), w)
     /\ (c <> 0 ->
         _check_value self (XFin (c * a)) (XFin (c * e)) w
         = _check_value self (XFin a) (XFin e) w))
    /\ _check_value self (XFin a) (XFin 0) w = (Ok (Rlt_bool (Rabs a) t), w).
Proof.
  intros self t a e c w Ht. split.
  - intros Ne. split.
    + rewrite (check_value_finite self t) by exact Ht.
      rewrite Req_bool_false by exact Ne. reflexivity.
    + intros Nc. rewrite !(check_value_finite self t) by exact Ht.
      assert (Nce : c * e <> 0) by (apply Rmult_integral_contrapositive; auto).
      rewrite !Req_bool_false by assumption.
      f_equal. f_equal.
      replace (c * a - c * e) with (c * (a - e)) by lra.
      rewrite !Rabs_mult.
      assert (Pc : 0 < Rabs c) by (apply Rabs_pos_lt; exact Nc).
      destruct (Rle_bool_spec (Rabs (a - e)) (t * Rabs e)) as [L|G].
      * apply Rle_bool_true. nra.
      * apply Rle_bool_false. nra.
  - rewrite (check_value_finite self t) by exact Ht.
    rewrite Req_bool_true by reflexivity. reflexivity.
Qed.
End CheckValue.

(* ================================================================== *)
(** * 28. Survival times *)
(* ================================================================== *)

Section SurvivalSamplers.
Context {F : Type} `{FloatLaws F} `{Transcend F} `{FloatBits F} `{Power F}
        `{NumpyRandom F} `{!NumpyRandomMore F} `{NumpyStats F}.
Import SurvivalDataGenerator.
Local Open Scope fl_scope.

Lemma minimum_within (t : F) (l : list F) :
  fisnan t = false ->
  Forall (fun s => fisnan s = true \/ (s <=? t) = true)
         (map (fun s => np_minimum s t) l).
Proof.
  intros Nt. apply Forall_forall. intros r Hr.
  apply in_map_iff in Hr. destruct Hr as (s & <- & _).
  destruct (fisnan s) eqn:Ns.
  - left. rewrite np_minimum_nan by exact Ns. exact Ns.
  - right. apply np_minimum_le_r; assumption.
Qed.

(** X21. With [max_time] given and a number, every survival time that
    [generate_exponential] or [generate_weibull] returns is NaN or at most
    [max_time]. *)
Theorem survival_times_within_max_time :
  forall (self : instance) (n : Z) (median_survival shape t : F)
         (w w' : World) (out : list F),
    fisnan t = false ->
    generate_exponential self n median_survival (Some t) w = (Ok out, w')
    \/ generate_weibull self n median_survival shape (Some t) w = (Ok out, w') ->
    Forall (fun s => fisnan s = true \/ (s <=? t) = true) out.
Proof.
  intros self n median_survival shape t w w' out Nt [E | E].
  - unfold generate_exponential in E.
    apply bind_returns in E. destruct E as (l & w1 & _ & E).
    apply bind_returns in E. destruct E as (s & w2 & _ & E).
    apply bind_returns in E. destruct E as (st & w3 & _ & E).
    apply ret_returns in E. destruct E as [-> _].
    apply minimum_within. exact Nt.
  - unfold generate_weibull in E.
    apply bind_returns in E. destruct E as (r & w1 & _ & E).
    apply bind_returns in E. destruct E as (s & w2 & _ & E).
    apply bind_returns in E. destruct E as (x & w3 & _ & E).
    apply ret_returns in E. destruct E as [-> _].
    apply minimum_within. exact Nt.
Qed.

(** X22. [generate_weibull] raises ZeroDivisionError exactly when [shape]
    is zero, and then leaves the world as it was: nothing is drawn. *)
Theorem generate_weibull_zero_shape :
  forall (self : instance) (n : Z) (median_survival shape : F)
         (max_time : option F) (w : World),
    ((shape =? of_int 0) = true
     <-> fst (generate_weibull self n median_survival shape max_time w)
         = Raise ZeroDivisionError)
    /\ ((shape =? of_int 0) = true ->
        snd (generate_weibull self n median_survival shape max_time w) = w).
Proof.
  intros self n median_survival shape max_time w.
  unfold generate_weibull, py_divide.
  destruct (shape =? of_int 0) eqn:Z.
  - simpl. split; [tauto | reflexivity].
  - split; [ | discriminate ]. split; [discriminate | ].
    unfold bind at 1. unfold ret at 1.
    rewrite (bind_ok _ _ _ _ _ (true_divide_run _ _ _)).
    unfold mtrand_weibull, non_negative.
    destruct (negb (fisnan shape) && fsignbit shape); [simpl; discriminate | ].
    unfold bind at 1. unfold bind at 1. unfold ret at 1.
    unfold size_arg. destruct (n <? 0)%Z; [simpl; discriminate | ].
    unfold bind, ret. rewrite draw_run.
    destruct max_time; simpl; discriminate.
Qed.
End SurvivalSamplers.

Section ExponentialScale.
Context `{NumpyRandom xreal} `{!NumpyRandomMore xreal}.
Import SurvivalDataGenerator.
Local Open Scope R_scope.

Lemma ln_2_pos : 0 < ln 2.
Proof. rewrite <- ln_1. apply ln_increasing; lra. Qed.

(** X23. In exact arithmetic [generate_exponential] with a negative median
    raises ValueError and draws nothing; with a positive median [m] it
    draws from [np.random.exponential] with the scale [s] such that
    [s * ln 2 = m], the scale of the distribution with median [m]. *)
Theorem generate_exponential_scale :
  forall (self : instance) (n : Z) (m : R) (max_time : option xreal)
         (w : World),
    (m < 0 ->
     generate_exponential self n (XFin m) max_time w = (Raise ValueError, w))
    /\ (0 < m ->
        exists scale : R,
          scale * ln 2 = m
          /\ generate_exponential self n (XFin m) max_time w
             = bind (mtrand_exponential (XFin scale) n)
                    (fun survival_time =>
                       match max_time with
                       | Some t => ret (map (fun s => np_minimum s t)
                                            survival_time)
                       | None => ret survival_time
                       end) w).
Proof.
  intros self n m max_time w. pose proof ln_2_pos as L2.
  assert (Run : m <> 0 ->
                generate_exponential self n (XFin m) max_time w
                = bind (mtrand_exponential (XFin (1 / (ln 2 / m))) n)
                       (fun survival_time =>
                          match max_time with
                          | Some t => ret (map (fun s => np_minimum s t)
                                               survival_time)
                          | None => ret survival_time
                          end) w).
  { intros Nm.
    assert (Nl : ln 2 / m <> 0).
    { unfold Rdiv. apply Rmult_integral_contrapositive. split; [lra | ].
      apply Rinv_neq_0_compat. exact Nm. }
    unfold generate_exponential.
    rewrite (bind_ok _ _ _ _ _ (true_divide_run _ _ _)).
    rewrite after_division_nonzero by (simpl; apply Req_bool_false; exact Nm).
    simpl. rewrite (Rlt_bool_false 2 0), (Req_bool_false 2 0) by lra.
    rewrite (xdiv_finite (ln 2) m) by exact Nm.
    rewrite (bind_ok _ _ _ _ _ (true_divide_run _ _ _)).
    rewrite after_division_nonzero by (simpl; apply Req_bool_false; exact Nl).
    change (@fdiv xreal _) with xdiv.
    rewrite (xdiv_finite 1 (ln 2 / m)) by exact Nl.
    reflexivity. }
  split.
  - intros Hm. rewrite Run by lra.
    unfold mtrand_exponential, non_negative. simpl.
    rewrite Rlt_bool_true; [reflexivity | ].
    assert (ln 2 / m < 0).
    { unfold Rdiv. assert (/ m < 0) by (apply Rinv_lt_0_compat; exact Hm). nra. }
    unfold Rdiv at 1. rewrite Rmult_1_l. apply Rinv_lt_0_compat. assumption.
  - intros Hm. exists (1 / (ln 2 / m)). split; [field; lra | ].
    apply Run. lra.
Qed.
End ExponentialScale.

Section MaskedArrays.
Context {F : Type} `{Float F} `{NumpyRandom F}.

Lemma put_mask_length {A} (a : list A) :
  forall (mask : list bool) (vals : list A),
    length (put_mask a mask vals) = length a.
Proof.
  induction a as [|x a IH]; intros [|b mask] vals; simpl; try reflexivity.
  destruct b; [destruct vals | ]; simpl; rewrite IH; reflexivity.
Qed.

(** The selected elements after a masked assignment are the assigned
    values. *)
Lemma select_put_mask {A} (a : list A) :
  forall (mask : list bool) (vals : list A),
    length a = length mask -> length vals = count_true mask ->
    select (put_mask a mask vals) mask = vals.
Proof.
  unfold count_true.
  induction a as [|x a IH]; intros [|b mask] vals L C; simpl in *;
    try discriminate L.
  - destruct vals; [reflexivity | discriminate C].
  - injection L as L. destruct b; simpl in C.
    + destruct vals as [|v vals]; [discriminate C | ].
      injection C as C. simpl. f_equal. apply IH; assumption.
    + simpl. apply IH; assumption.
Qed.

(** A masked assignment leaves what a disjoint mask selects. *)
Lemma select_put_mask_other {A} (a : list A) :
  forall (mask other : list bool) (vals : list A),
    Forall2 (fun b c : bool => b && c = false) mask other ->
    select (put_mask a mask vals) other = select a other.
Proof.
  induction a as [|x a IH]; intros mask other vals D.
  - destruct mask; reflexivity.
  - destruct D as [|b c mask other Dbc D]; [reflexivity | ].
    destruct b; simpl in Dbc.
    + subst c. destruct vals; simpl; apply IH; exact D.
    + simpl. destruct c; [f_equal | ]; apply IH; exact D.
Qed.

Lemma put_mask_outside {A} (a : list A) :
  forall (mask : list bool) (vals : list A) (i : nat),
    nth_error mask i = Some false ->
    nth_error (put_mask a mask vals) i = nth_error a i.
Proof.
  induction a as [|x a IH]; intros [|b mask] vals i Hi; try reflexivity.
  destruct i as [|i]; simpl in Hi.
  - injection Hi as ->. reflexivity.
  - destruct b; [destruct vals | ]; simpl; apply IH; exact Hi.
Qed.

Lemma setitem_mask_exact {A} (a : list A) (mask : list bool) (vals : list A)
    (w w' : World) (out : list A) :
  setitem_mask a mask vals w = (Ok out, w') ->
  length vals = count_true mask ->
  out = put_mask a mask vals /\ w' = w /\ length a = length mask.
Proof.
  unfold setitem_mask. intros E C.
  destruct (Nat.eqb_spec (length a) (length mask)) as [L|N]; simpl in E;
    [ | discriminate ].
  rewrite C, Nat.eqb_refl in E. apply ret_returns in E. destruct E as [-> ->].
  auto.
Qed.
End MaskedArrays.

Section HazardRatioGroups.
Context {F : Type} `{Float F} `{Transcend F} `{FloatBits F} `{Power F}
        `{NumpyRandom F} `{!NumpyRandomMore F} `{!NumpyRandomMoreLaws F}
        `{NumpyStats F}.
Import SurvivalDataGenerator.
Local Open Scope fl_scope.

Lemma mtrand_exponential_returns (scale : F) (n : Z) (w w' : World)
    (d : list F) :
  mtrand_exponential scale n w = (Ok d, w') ->
  (0 <= n)%Z /\ length d = Z.to_nat n.
Proof.
  unfold mtrand_exponential, non_negative.
  destruct (negb (fisnan scale) && fsignbit scale); [discriminate | ].
  unfold bind at 1. unfold ret at 1. unfold size_arg.
  destruct (Z.ltb_spec n 0) as [N|P]; [discriminate | ].
  unfold bind, ret. rewrite draw_run.
  intros E. apply run_eq in E. destruct E as [<- _].
  split; [exact P | apply draw_exponential_length].
Qed.

Lemma mtrand_weibull_returns (a : F) (n : Z) (w w' : World) (d : list F) :
  mtrand_weibull a n w = (Ok d, w') ->
  (0 <= n)%Z /\ length d = Z.to_nat n.
Proof.
  unfold mtrand_weibull, non_negative.
  destruct (negb (fisnan a) && fsignbit a); [discriminate | ].
  unfold bind at 1. unfold ret at 1. unfold size_arg.
  destruct (Z.ltb_spec n 0) as [N|P]; [discriminate | ].
  unfold bind, ret. rewrite draw_run.
  intros E. apply run_eq in E. destruct E as [<- _].
  split; [exact P | apply draw_weibull_length].
Qed.

Lemma generate_exponential_length (self : instance) (n : Z) (median : F)
    (max_time : option F) (w w' : World) (out : list F) :
  generate_exponential self n median max_time w = (Ok out, w') ->
  (0 <= n)%Z /\ length out = Z.to_nat n.
Proof.
  intros E. unfold generate_exponential in E.
  apply bind_returns in E. destruct E as (l & w1 & _ & E).
  apply bind_returns in E. destruct E as (s & w2 & _ & E).
  apply bind_returns in E. destruct E as (st & w3 & Ed & E).
  apply mtrand_exponential_returns in Ed. destruct Ed as [Hn Ld].
  destruct max_time; apply ret_returns in E; destruct E as [-> _];
    rewrite ?length_map; auto.
Qed.

Lemma generate_weibull_length (self : instance) (n : Z) (median shape : F)
    (max_time : option F) (w w' : World) (out : list F) :
  generate_weibull self n median shape max_time w = (Ok out, w') ->
  (0 <= n)%Z /\ length out = Z.to_nat n.
Proof.
  intros E. unfold generate_weibull in E.
  apply bind_returns in E. destruct E as (r & w1 & _ & E).
  apply bind_returns in E. destruct E as (s & w2 & _ & E).
  apply bind_returns in E. destruct E as (x & w3 & Ed & E).
  apply mtrand_weibull_returns in Ed. destruct Ed as [Hn Ld].
  destruct max_time; apply ret_returns in E; destruct E as [-> _];
    rewrite ?length_map; auto.
Qed.

Lemma groups_disjoint (exposure : list Z) :
  Forall2 (fun b c : bool => b && c = false)
          (map (fun e => Z.eqb e 1) exposure) (map (fun e => Z.eqb e 0) exposure).
Proof.
  induction exposure as [|e exposure IH]; simpl; constructor; [ | exact IH].
  destruct (Z.eqb_spec e 1) as [-> | _]; reflexivity.
Qed.

(** X24. Whenever [generate_with_hazard_ratio] returns: [n] is the length
    of [exposure] and of the result; [hazard_ratio] is not zero; the times
    of the records with exposure 0 are what the sampler returns for the
    baseline median, those of the records with exposure 1 what it returns
    next for [baseline_median / hazard_ratio]; and the records with any
    other exposure have the time 0. *)
Theorem generate_with_hazard_ratio_groups :
  forall (self : instance) (n : Z) (exposure : list Z)
         (baseline_median hazard_ratio : F) (distribution : string) (shape : F)
         (max_time : option F) (w w' : World) (out : list F),
    generate_with_hazard_ratio self n exposure baseline_median hazard_ratio
                               distribution shape max_time w
    = (Ok out, w') ->
    exists (w1 : World),
      (if String.eqb distribution "exponential"
       then generate_exponential self
              (Z.of_nat (count_true (is_group 0 exposure)))
              baseline_median max_time
       else generate_weibull self
              (Z.of_nat (count_true (is_group 0 exposure)))
              baseline_median shape max_time) w
      = (Ok (select out (is_group 0 exposure)), w1)
      /\ (hazard_ratio =? of_int 0) = false
      /\ (if String.eqb distribution "exponential"
          then generate_exponential self
                 (Z.of_nat (count_true (is_group 1 exposure)))
                 (baseline_median / hazard_ratio) max_time
          else generate_weibull self
                 (Z.of_nat (count_true (is_group 1 exposure)))
                 (baseline_median / hazard_ratio) shape max_time) w1
         = (Ok (select out (is_group 1 exposure)), w')
      /\ n = len exposure
      /\ length out = length exposure
      /\ (forall (i : nat) (e : Z),
             nth_error exposure i = Some e -> e <> 0%Z -> e <> 1%Z ->
             nth_error out i = Some (of_int 0)).
Proof.
  intros self n exposure baseline_median hazard_ratio distribution shape
         max_time w w' out E.
  unfold generate_with_hazard_ratio in E.
  fold (is_group 0 exposure) (is_group 1 exposure) in E.
  apply bind_returns in E. destruct E as (zs & wz & Ez & E).
  unfold np_zeros in Ez. apply bind_returns in Ez.
  destruct Ez as (k & wk & Ek & Ez).
  unfold size_arg in Ek. destruct (Z.ltb_spec n 0) as [N|P]; [discriminate | ].
  apply ret_returns in Ek. destruct Ek as [-> ->].
  apply ret_returns in Ez. destruct Ez as [-> ->].
  apply bind_returns in E. destruct E as (vals0 & w1 & E0 & E).
  assert (L0 : length vals0 = count_true (is_group 0 exposure)).
  { destruct (String.eqb distribution "exponential").
    - apply generate_exponential_length in E0. destruct E0 as [_ ->].
      apply Nat2Z.id.
    - apply generate_weibull_length in E0. destruct E0 as [_ ->].
      apply Nat2Z.id. }
  apply bind_returns in E. destruct E as (st & w2 & Es & E).
  apply setitem_mask_exact in Es; [ | exact L0].
  destruct Es as (-> & -> & Lz).
  rewrite repeat_length, is_group_length in Lz.
  apply bind_returns in E. destruct E as (exposed_median & w3 & Em & E).
  unfold py_divide in Em.
  destruct (hazard_ratio =? of_int 0) eqn:Zh; [discriminate | ].
  apply ret_returns in Em. destruct Em as [-> ->].
  apply bind_returns in E. destruct E as (vals1 & w4 & E1 & E).
  assert (L1 : length vals1 = count_true (is_group 1 exposure)).
  { destruct (String.eqb distribution "exponential").
    - apply generate_exponential_length in E1. destruct E1 as [_ ->].
      apply Nat2Z.id.
    - apply generate_weibull_length in E1. destruct E1 as [_ ->].
      apply Nat2Z.id. }
  apply setitem_mask_exact in E; [ | exact L1].
  destruct E as (-> & -> & Ls).
  set (zs := repeat (of_int 0) (Z.to_nat n)) in *.
  assert (Lzs : length zs = length exposure)
    by (unfold zs; rewrite repeat_length; exact Lz).
  assert (Lp : length (put_mask zs (is_group 0 exposure) vals0)
               = length exposure)
    by (rewrite put_mask_length; exact Lzs).
  exists w1.
  split.
  { rewrite select_put_mask_other by apply groups_disjoint.
    rewrite select_put_mask
      by (rewrite ?is_group_length; assumption).
    exact E0. }
  split; [reflexivity | ].
  split.
  { rewrite select_put_mask
      by (rewrite ?is_group_length; assumption).
    exact E1. }
  split; [unfold len; lia | ].
  split; [rewrite put_mask_length; exact Lp | ].
  (* the records of neither group keep the zero they were created with *)
  intros i e Hi N0 N1.
  assert (M : forall k : Z, k = 0%Z \/ k = 1%Z ->
                nth_error (is_group k exposure) i = Some false).
  { intros k Hk. unfold is_group. rewrite nth_error_map, Hi. simpl.
    f_equal. apply Z.eqb_neq. destruct Hk; subst k; assumption. }
  rewrite put_mask_outside by (apply M; auto).
  rewrite put_mask_outside by (apply M; auto).
  unfold zs. apply nth_error_repeat.
  assert (i < length exposure)%nat by (apply nth_error_Some; congruence).
  lia.
Qed.
End HazardRatioGroups.

Section SurvivalData.
Context {F : Type} `{FloatLaws F} `{!FloatOrder F} `{Transcend F}
        `{FloatBits F} `{Power F}
        `{NumpyRandom F} `{!NumpyRandomLaws F} `{!NumpyRandomMore F}
        `{!NumpyRandomMoreLaws F} `{NumpyStats F}.
Import SurvivalDataGenerator.
Local Open Scope fl_scope.

Lemma generate_censoring_returns (self : instance) (survival_time : list F)
    (censoring_rate : F) (censoring_type : string) (max_followup : option F)
    (w w' : World) (observed_time : list F) (event : list Z) :
  generate_censoring self survival_time censoring_rate censoring_type
                     max_followup w
  = (Ok (observed_time, event), w') ->
  exists censoring_time : list F,
    length censoring_time = length survival_time
    /\ observed_time = zip_with np_minimum survival_time censoring_time
    /\ event = zip_with (fun s c => if s <=? c then 1%Z else 0%Z)
                        survival_time censoring_time.
Proof.
  intros E. unfold generate_censoring in E.
  apply bind_returns in E. destruct E as (cens & w1 & Ec & E).
  pose proof (censoring_times_length _ _ _ _ _ _ _ _ Ec) as L.
  erewrite bind_ok in E by (apply broadcast2_run; symmetry; exact L).
  erewrite bind_ok in E by (apply broadcast2_run; symmetry; exact L).
  apply ret_returns in E. destruct E as [E _]. injection E as -> ->.
  exists cens. auto.
Qed.

(** The smaller of a time within the limit and of any other time is
    within the limit. *)
Lemma np_minimum_within (s c t : F) :
  fisnan s = true \/ (s <=? t) = true ->
  fisnan (np_minimum s c) = true \/ (np_minimum s c <=? t) = true.
Proof.
  intros [Ns | Hs].
  - left. rewrite np_minimum_nan by exact Ns. exact Ns.
  - assert (Ns : fisnan s = false).
    { destruct (fisnan s) eqn:N; [ | reflexivity ].
      rewrite (fleb_nan_l s t N) in Hs. discriminate. }
    unfold np_minimum. rewrite Ns, orb_false_r.
    destruct (s <=? c) eqn:Hsc; [right; exact Hs | ].
    destruct (fisnan c) eqn:Nc; [left; reflexivity | right].
    apply (fleb_trans c s t); [ | exact Hs].
    apply fleb_total; assumption.
Qed.

Lemma zip_with_length_eq {A B C} (f : A -> B -> C) (xs : list A) (ys : list B) :
  length ys = length xs -> length (zip_with f xs ys) = length xs.
Proof. intros L. apply zip_with_length. symmetry. exact L. Qed.

(** X25. Whenever [generate_survival_data] returns with [max_time] given
    and a number, the observed times and the event flags have [n]
    elements, every observed time is NaN or at most [max_time], and every
    event flag is 0 or 1. *)
Theorem generate_survival_data_within_max_time :
  forall (n : Z) (median_survival censoring_rate : F) (distribution : string)
         (shape t : F) (random_seed : option Z) (w w' : World)
         (observed_time : list F) (event : list Z),
    fisnan t = false ->
    generate_survival_data n median_survival censoring_rate distribution shape
                           (Some t) random_seed w
    = (Ok (observed_time, event), w') ->
    length observed_time = Z.to_nat n
    /\ length event = Z.to_nat n
    /\ Forall (fun o => fisnan o = true \/ (o <=? t) = true) observed_time
    /\ Forall (fun e => e = 0%Z \/ e = 1%Z) event.
Proof.
  intros n median_survival censoring_rate distribution shape t random_seed
         w w' observed_time event Nt E.
  unfold generate_survival_data in E.
  apply bind_returns in E. destruct E as (generator & w1 & _ & E).
  apply bind_returns in E. destruct E as (survival_time & w2 & Es & E).
  assert (Hs : length survival_time = Z.to_nat n
               /\ Forall (fun s => fisnan s = true \/ (s <=? t) = true)
                         survival_time).
  { destruct (String.eqb distribution "exponential").
    - split.
      + apply generate_exponential_length in Es. tauto.
      + unfold generate_exponential in Es.
        apply bind_returns in Es. destruct Es as (l & wa & _ & Es).
        apply bind_returns in Es. destruct Es as (s & wb & _ & Es).
        apply bind_returns in Es. destruct Es as (st & wc & _ & Es).
        apply ret_returns in Es. destruct Es as [-> _].
        apply minimum_within. exact Nt.
    - destruct (String.eqb distribution "weibull"); [ | discriminate ].
      split.
      + apply generate_weibull_length in Es. tauto.
      + unfold generate_weibull in Es.
        apply bind_returns in Es. destruct Es as (r & wa & _ & Es).
        apply bind_returns in Es. destruct Es as (s & wb & _ & Es).
        apply bind_returns in Es. destruct Es as (x & wc & _ & Es).
        apply ret_returns in Es. destruct Es as [-> _].
        apply minimum_within. exact Nt. }
  destruct Hs as [Ls Hs].
  apply generate_censoring_returns in E.
  destruct E as (cens & Lc & -> & ->).
  rewrite !zip_with_length_eq by exact Lc.
  split; [exact Ls | ]. split; [exact Ls | ]. split.
  - apply Forall_forall. intros o Ho.
    apply zip_with_In in Ho. destruct Ho as (s & c & Is & _ & ->).
    apply np_minimum_within.
    rewrite Forall_forall in Hs. apply Hs. exact Is.
  - apply Forall_forall. intros e He.
    apply zip_with_In in He. destruct He as (s & c & _ & _ & ->).
    destruct (s <=? c); auto.
Qed.

(** X26. [generate_survival_data] raises ValueError for a distribution
    other than ['exponential'] and ['weibull'], and for [n = 0] with the
    exponential distribution and no [max_time]: an empty array has no
    largest survival time. *)
Theorem generate_survival_data_errors :
  forall (n : Z) (median_survival censoring_rate : F) (distribution : string)
         (shape : F) (max_time : option F) (random_seed : option Z) (w : World),
    (distribution <> "exponential"%string -> distribution <> "weibull"%string ->
     fst (generate_survival_data n median_survival censoring_rate distribution
                                 shape max_time random_seed w)
     = Raise ValueError)
    /\ (n = 0%Z -> max_time = None -> distribution = "exponential"%string ->
        fst (generate_survival_data n median_survival censoring_rate
                                    distribution shape max_time random_seed w)
        = Raise ValueError).
Proof.
  intros n median_survival censoring_rate distribution shape max_time
         random_seed w.
  assert (Init : forall k : instance -> Py (list F * list Z),
             (forall g w0, fst (k g w0) = Raise ValueError) ->
             fst (bind (__init__ random_seed) k w) = Raise ValueError).
  { intros k Hk. unfold __init__.
    destruct random_seed as [s|]; [ | apply Hk].
    unfold np_random_seed.
    destruct ((0 <=? s) && (s <? 2 ^ 32))%Z; [apply Hk | reflexivity]. }
  split.
  - intros N1 N2. apply String.eqb_neq in N1, N2.
    unfold generate_survival_data. apply Init. intros g w0.
    rewrite N1, N2. reflexivity.
  - intros -> -> ->. unfold generate_survival_data. apply Init. intros g w0.
    simpl String.eqb. cbv iota.
    destruct (generate_exponential g 0 median_survival None w0)
      as [[st|e] w1] eqn:Es.
    + pose proof Es as Ls. apply generate_exponential_length in Ls.
      destruct Ls as [_ Ls]. destruct st; [ | discriminate Ls].
      erewrite bind_ok by exact Es. reflexivity.
    + erewrite bind_raise by exact Es. simpl.
      (* the sampler itself refuses a scale with the sign bit set *)
      unfold generate_exponential in Es.
      rewrite (bind_ok _ _ _ _ _ (true_divide_run _ _ _)) in Es.
      rewrite (bind_ok _ _ _ _ _ (true_divide_run _ _ _)) in Es.
      unfold mtrand_exponential, non_negative in Es.
      destruct (negb (fisnan _) && fsignbit _) in Es.
      * simpl in Es. injection Es as <- _. reflexivity.
      * unfold bind, ret, size_arg in Es. simpl in Es.
        rewrite draw_run in Es. discriminate Es.
Qed.
End SurvivalData.

(* ================================================================== *)
(** * 29. Adjusting the hazard ratio *)
(* ================================================================== *)

Section HazardRatioFrame.
Context {F : Type} `{Float F} `{Transcend F} `{FloatBits F} `{Power F}
        `{NumpyRandom F} `{!NumpyRandomMore F} `{NumpyStats F}.
Import SurvivalDataGenerator.
Local Open Scope fl_scope.

(** The scaling step of [adjust_hazard_ratio]. *)
Lemma scale_exposed_returns (survival_time : list F) (exposure : list Z)
    (factor : F) (w w' : World) (out : list F) :
  bind (getitem_mask survival_time (is_group 1 exposure))
       (fun exposed =>
          setitem_mask survival_time (is_group 1 exposure)
            (map (fun s => s * factor) exposed)) w
  = (Ok out, w') ->
  length survival_time = length exposure
  /\ out = zip_with (fun s (b : bool) => if b then s * factor else s)
                    survival_time (is_group 1 exposure)
  /\ w' = w.
Proof.
  intros E. apply bind_returns in E. destruct E as (exposed & w1 & Eg & E).
  apply getitem_mask_returns in Eg. destruct Eg as (L & -> & ->).
  rewrite setitem_mask_map_select in E by exact L.
  apply ret_returns in E. destruct E as [-> ->].
  rewrite is_group_length in L. auto.
Qed.

(** X27. Whenever [adjust_hazard_ratio] returns, either the result is the
    input array, or the current hazard ratio [c] (the given one, when one
    is given) is not zero, the arrays have one length, and the result is
    the input with the times of the records with exposure 1 multiplied by
    [c / target_hr] and every other time unchanged. *)
Theorem adjust_hazard_ratio_frame :
  forall (self : instance) (survival_time : list F) (exposure : list Z)
         (target_hr : F) (current_hr : option F) (w w' : World) (out : list F),
    adjust_hazard_ratio self survival_time exposure target_hr current_hr w
    = (Ok out, w') ->
    out = survival_time
    \/ exists c : F,
         (c =? of_int 0) = false
         /\ (forall given : F, current_hr = Some given -> given = c)
         /\ length survival_time = length exposure
         /\ out = zip_with (fun s (b : bool) =>
                              if b then s * (c / target_hr) else s)
                           survival_time (is_group 1 exposure).
Proof.
  intros self survival_time exposure target_hr current_hr w w' out E.
  unfold adjust_hazard_ratio in E.
  fold (is_group 1 exposure) in E.
  apply bind_returns in E. destruct E as (estimate & w1 & Ee & E).
  destruct estimate as [c|].
  2:{ apply ret_returns in E. destruct E as [-> _]. left. reflexivity. }
  destruct (c =? of_int 0) eqn:Zc.
  { apply ret_returns in E. destruct E as [-> _]. left. reflexivity. }
  right. exists c. split; [exact Zc | ].
  apply bind_returns in E. destruct E as (factor & w2 & Ef & E).
  apply scale_exposed_returns in E. destruct E as (L & -> & _).
  assert (Hf : factor = c / target_hr).
  { destruct current_hr as [given|].
    - unfold py_divide in Ef. destruct (target_hr =? of_int 0);
        [discriminate | ].
      apply ret_returns in Ef. tauto.
    - rewrite true_divide_run in Ef. apply run_eq in Ef. destruct Ef as [<- _].
      reflexivity. }
  subst factor. split; [ | split; [exact L | reflexivity]].
  intros given ->. apply ret_returns in Ee. destruct Ee as [Ee _].
  congruence.
Qed.
End HazardRatioFrame.

Section RealMedian.
Local Open Scope R_scope.

Lemma Rinsert_In (x y : R) (l : list R) :
  In y (Rinsert x l) <-> y = x \/ In y l.
Proof.
  induction l as [|z l IH]; simpl.
  - intuition.
  - destruct (Rle_bool x z); simpl; [intuition | rewrite IH; intuition].
Qed.

Lemma Rsort_In (y : R) (l : list R) : In y (Rsort l) <-> In y l.
Proof.
  unfold Rsort. induction l as [|x l IH]; simpl; [tauto | ].
  rewrite Rinsert_In, IH. intuition.
Qed.

Lemma Rinsert_length (x : R) (l : list R) :
  length (Rinsert x l) = S (length l).
Proof.
  induction l as [|z l IH]; simpl; [reflexivity | ].
  destruct (Rle_bool x z); simpl; [reflexivity | rewrite IH; reflexivity].
Qed.

Lemma Rsort_length (l : list R) : length (Rsort l) = length l.
Proof.
  unfold Rsort. induction l as [|x l IH]; simpl; [reflexivity | ].
  rewrite Rinsert_length, IH. reflexivity.
Qed.

(** Sorting commutes with a multiplication by a positive number. *)
Lemma Rinsert_scale (f x : R) (l : list R) :
  0 < f ->
  Rinsert (x * f) (map (fun v => v * f) l) = map (fun v => v * f) (Rinsert x l).
Proof.
  intros Hf. induction l as [|y l IH]; simpl; [reflexivity | ].
  assert (E : Rle_bool (x * f) (y * f) = Rle_bool x y).
  { destruct (Rle_bool_spec x y).
    - apply Rle_bool_true. nra.
    - apply Rle_bool_false. nra. }
  rewrite E. destruct (Rle_bool x y); simpl; [reflexivity | ].
  rewrite IH. reflexivity.
Qed.

Lemma Rsort_scale (f : R) (l : list R) :
  0 < f -> Rsort (map (fun v => v * f) l) = map (fun v => v * f) (Rsort l).
Proof.
  intros Hf. unfold Rsort. induction l as [|x l IH]; simpl; [reflexivity | ].
  rewrite IH. apply Rinsert_scale. exact Hf.
Qed.

Lemma In_firstn {A} (n : nat) (l : list A) (x : A) :
  In x (firstn n l) -> In x l.
Proof.
  intros I. rewrite <- (firstn_skipn n l). apply in_or_app. left. exact I.
Qed.

Lemma In_skipn {A} (n : nat) (l : list A) (x : A) :
  In x (skipn n l) -> In x l.
Proof.
  intros I. rewrite <- (firstn_skipn n l). apply in_or_app. right. exact I.
Qed.

(** The middle of the sorted array. *)
Lemma middle_nonempty {A} (part : list A) (sz : nat) :
  length part = sz -> (1 <= sz)%nat ->
  (1 <= length (if Nat.even sz then firstn 2 (skipn (sz / 2 - 1) part)
                else firstn 1 (skipn (sz / 2) part)))%nat.
Proof.
  intros L P.
  assert (D : (sz / 2 < sz)%nat) by (apply Nat.div_lt; lia).
  destruct (Nat.even sz); rewrite length_firstn, length_skipn; lia.
Qed.

Lemma middle_In {A} (part : list A) (sz : nat) (x : A) :
  In x (if Nat.even sz then firstn 2 (skipn (sz / 2 - 1) part)
        else firstn 1 (skipn (sz / 2) part)) ->
  In x part.
Proof.
  destruct (Nat.even sz); intros I; apply In_firstn in I;
    apply In_skipn in I; exact I.
Qed.

Lemma Rmean_scale (f : R) (l : list R) :
  l <> [] -> Rmean (map (fun v => v * f) l) = Rmean l * f.
Proof.
  intros Hl.
  rewrite (map_ext _ (fun v => f * v + 0)) by (intros v; lra).
  rewrite Rmean_affine by exact Hl. lra.
Qed.

Lemma Rmean_positive (l : list R) :
  l <> [] -> Forall (fun x => 0 < x) l -> 0 < Rmean l.
Proof.
  intros Hl P. unfold Rmean.
  apply Rdiv_lt_0_compat.
  - destruct l as [|x l]; [contradiction | ].
    apply (Rsum_positive _ x).
    + eapply Forall_impl; [ | exact P]. intros; lra.
    + left. reflexivity.
    + inversion P; assumption.
  - apply IZR_lt. unfold len. destruct l; [contradiction | simpl; lia].
Qed.

Lemma nonempty_length {A} (l : list A) : (1 <= length l)%nat -> l <> [].
Proof. destruct l; simpl; [lia | discriminate]. Qed.

Lemma Rmedian_scale (f : R) (l : list R) :
  0 < f -> l <> [] -> Rmedian (map (fun v => v * f) l) = Rmedian l * f.
Proof.
  intros Hf Hl. unfold Rmedian.
  rewrite Rsort_scale by exact Hf. rewrite length_map.
  assert (P : (1 <= length l)%nat) by (destruct l; [contradiction | simpl; lia]).
  pose proof (middle_nonempty (Rsort l) (length l) (Rsort_length l) P) as M.
  destruct (Nat.even (length l));
    rewrite skipn_map, firstn_map; apply Rmean_scale;
    apply nonempty_length; exact M.
Qed.

Lemma Rmedian_positive (l : list R) :
  l <> [] -> Forall (fun x => 0 < x) l -> 0 < Rmedian l.
Proof.
  intros Hl Pl. unfold Rmedian.
  assert (P : (1 <= length l)%nat) by (destruct l; [contradiction | simpl; lia]).
  apply Rmean_positive.
  - apply nonempty_length.
    apply (middle_nonempty (Rsort l) (length l) (Rsort_length l) P).
  - apply Forall_forall. intros x I. apply middle_In in I.
    apply (proj1 (Rsort_In x l)) in I.
    rewrite Forall_forall in Pl. apply Pl. exact I.
Qed.
End RealMedian.

Section FiniteMedian.
Context `{NumpyRandom xreal}.
Local Open Scope R_scope.

Lemma sort_insert_finite (x : R) (l : list R) :
  sort_insert (XFin x) (map XFin l) = map XFin (Rinsert x l).
Proof.
  induction l as [|y l IH]; simpl; [reflexivity | ].
  rewrite orb_false_r. destruct (Rle_bool x y); simpl; [reflexivity | ].
  rewrite IH. reflexivity.
Qed.

Lemma np_sort_finite (l : list R) : np_sort (map XFin l) = map XFin (Rsort l).
Proof.
  unfold np_sort, Rsort. induction l as [|x l IH]; simpl; [reflexivity | ].
  rewrite IH. apply sort_insert_finite.
Qed.

Lemma no_nan_finite (l : list R) : existsb fisnan (map XFin l) = false.
Proof. induction l as [|x l IH]; simpl; [reflexivity | exact IH]. Qed.

(** The median of a non-empty array of real numbers. *)
Lemma np_median_finite_run (l : list R) (w : World) :
  l <> [] -> np_median (map XFin l) w = (Ok (XFin (Rmedian l)), w).
Proof.
  intros Hl. unfold np_median, Rmedian.
  rewrite np_sort_finite, length_map, no_nan_finite.
  assert (P : (1 <= length l)%nat) by (destruct l; [contradiction | simpl; lia]).
  pose proof (middle_nonempty (Rsort l) (length l) (Rsort_length l) P) as M.
  destruct (Nat.even (length l));
    rewrite skipn_map, firstn_map;
    erewrite bind_ok by (apply np_mean_finite_run; exact M); reflexivity.
Qed.
End FiniteMedian.

Section Selections.
Lemma select_nonempty {A} (l : list A) :
  forall (group : list Z) (k : Z),
    length l = length group -> In k group ->
    select l (is_group k group) <> [].
Proof.
  induction l as [|x l IH]; intros [|g group] k L I; try discriminate L;
    [contradiction | ].
  injection L as L. simpl. destruct (Z.eqb_spec g k) as [E|N]; [discriminate | ].
  destruct I as [-> | I]; [contradiction | ]. apply IH; assumption.
Qed.

Lemma select_Forall {A} (P : A -> Prop) (l : list A) :
  forall mask : list bool, Forall P l -> Forall P (select l mask).
Proof.
  induction l as [|x l IH]; intros [|b mask] Hl; simpl; try constructor.
  inversion Hl; subst. destruct b; [constructor | ]; auto.
Qed.
End Selections.

Section HazardRatioTarget.
Context `{NumpyRandom xreal} `{!NumpyRandomMore xreal} `{NumpyStats xreal}.
Import SurvivalDataGenerator.
Local Open Scope R_scope.

Lemma estimate_hazard_ratio_run (self : instance) (l : list R)
    (exposure : list Z) (w : World) :
  length l = length exposure ->
  select l (is_group 0 exposure) <> [] ->
  select l (is_group 1 exposure) <> [] ->
  Rmedian (select l (is_group 1 exposure)) <> 0 ->
  _estimate_hazard_ratio self (map XFin l) exposure w
  = (Ok (Some (XFin (Rmedian (select l (is_group 0 exposure))
                     / Rmedian (select l (is_group 1 exposure))))), w).
Proof.
  intros L N0 N1 M1. unfold _estimate_hazard_ratio.
  fold (is_group 0 exposure) (is_group 1 exposure).
  erewrite bind_ok
    by (apply getitem_mask_run; rewrite length_map, is_group_length; exact L).
  rewrite select_map.
  erewrite bind_ok by (apply np_median_finite_run; exact N0).
  erewrite bind_ok
    by (apply getitem_mask_run; rewrite length_map, is_group_length; exact L).
  rewrite select_map.
  erewrite bind_ok by (apply np_median_finite_run; exact N1).
  simpl. rewrite Req_bool_false by exact M1.
  rewrite (bind_ok _ _ _ _ _ (true_divide_run _ _ _)).
  rewrite after_division_nonzero by (simpl; apply Req_bool_false; exact M1).
  unfold ret. simpl. rewrite Req_bool_false by exact M1. reflexivity.
Qed.

(** X28. In exact arithmetic, for positive finite survival times, an
    exposure array of their length with a record of exposure 0 and a record
    of exposure 1, and a positive target, [adjust_hazard_ratio] with
    [current_hr] omitted returns, leaving the world as it was, an array
    whose hazard ratio as [_estimate_hazard_ratio] estimates it is exactly
    the target. *)
Theorem adjust_hazard_ratio_reaches_target :
  forall (self : instance) (rs : list R) (exposure : list Z) (target : R)
         (w : World),
    length rs = length exposure ->
    Forall (fun x => 0 < x) rs ->
    In 0%Z exposure -> In 1%Z exposure ->
    0 < target ->
    exists out : list R,
      adjust_hazard_ratio self (map XFin rs) exposure (XFin target) None w
      = (Ok (map XFin out), w)
      /\ _estimate_hazard_ratio self (map XFin out) exposure w
         = (Ok (Some (XFin target)), w).
Proof.
  intros self rs exposure target w L P I0 I1 Ht.
  pose proof (select_nonempty rs exposure 0 L I0) as N0.
  pose proof (select_nonempty rs exposure 1 L I1) as N1.
  set (g0 := select rs (is_group 0 exposure)) in *.
  set (g1 := select rs (is_group 1 exposure)) in *.
  assert (M0 : 0 < Rmedian g0)
    by (apply Rmedian_positive; [exact N0 | apply select_Forall; exact P]).
  assert (M1 : 0 < Rmedian g1)
    by (apply Rmedian_positive; [exact N1 | apply select_Forall; exact P]).
  set (c := Rmedian g0 / Rmedian g1).
  assert (Hc : 0 < c) by (apply Rdiv_lt_0_compat; assumption).
  set (f := c / target).
  assert (Hf : 0 < f) by (apply Rdiv_lt_0_compat; assumption).
  set (out := zip_with (fun x (b : bool) => if b then x * f else x) rs
                       (is_group 1 exposure)).
  exists out. split.
  - unfold adjust_hazard_ratio.
    erewrite bind_ok
      by (apply estimate_hazard_ratio_run; try assumption; fold g1; lra).
    fold g0 g1 c. simpl. rewrite Req_bool_false by lra.
    rewrite (bind_ok _ _ _ _ _ (true_divide_run _ _ _)).
    rewrite after_division_nonzero by (simpl; apply Req_bool_false; lra).
    fold (is_group 1 exposure).
    erewrite bind_ok
      by (apply getitem_mask_run; rewrite length_map, is_group_length; exact L).
    rewrite setitem_mask_map_select
      by (rewrite length_map, is_group_length; exact L).
    f_equal. f_equal. unfold out.
    rewrite zip_with_map_l, map_zip_with. apply zip_with_ext.
    intros x b. destruct b; [ | reflexivity].
    simpl. rewrite Req_bool_false by lra. reflexivity.
  - assert (Lo : length out = length exposure).
    { unfold out. rewrite zip_with_length; [exact L | ].
      rewrite is_group_length. exact L. }
    assert (G0 : select out (is_group 0 exposure) = g0)
      by apply select_other_group.
    assert (G1 : select out (is_group 1 exposure) = map (fun x => x * f) g1)
      by apply select_mapped_group.
    rewrite estimate_hazard_ratio_run.
    + rewrite G0, G1, Rmedian_scale by assumption.
      apply f_equal2; [ | reflexivity]. do 3 apply f_equal.
      unfold f, c. field. lra.
    + exact Lo.
    + rewrite G0. exact N0.
    + rewrite G1. intros E. apply map_eq_nil in E. contradiction.
    + rewrite G1, Rmedian_scale by assumption. nra.
Qed.
End HazardRatioTarget.

(* ================================================================== *)
(** * 30. The theorems of parts 22 to 29 at concrete inputs *)
(* ================================================================== *)

(** The other draws of the reference generator obey the laws. *)
Lemma lcg_more_laws {F : Type} `{Float F} :
  @NumpyRandomMoreLaws F Reference.lcg Reference.lcg_more.
Proof.
  split; intros; try apply draws_length.
  simpl. apply nth_In.
  assert (0 < len a)%Z by (unfold len; destruct a; [contradiction | simpl; lia]).
  pose proof (Z.mod_pos_bound (Reference.lcg_next g) (len a)) as B.
  unfold len in *. lia.
Qed.


(** The theorem at the bounds 10 and 0, the wrong way round. *)
Lemma enforce_range_inverted_bounds_witness :
  (B64.of_Z 0 <? B64.of_Z 10)%fl = true
  /\ RealismEnhancer.enforce_range {| RealismEnhancer.random_seed := None |}
       [B64.dec (-5) 1; B64.dec 37 1; B64.dec 125 1; S754_nan]
       (Some (B64.of_Z 10)) (Some (B64.of_Z 0))
     = [B64.of_Z 0; B64.of_Z 0; B64.of_Z 0; S754_nan].
Proof.
  split; [reflexivity | ].
  apply (@enforce_range_inverted_bounds B64.binary64 B64.binary64_Float
           binary64_FloatLaws binary64_FloatOrder). reflexivity.
Defined.

(** The theorem at three normal draws of the reference generator, kept
    between 0 and 10. *)
Lemma samplers_within_bounds_witness :
  (xleb (XFin 0) (XFin 10) = true)
  /\ exists (out : list xreal) (w' : World),
       ContinuousVariableGenerator.generate_normal
         {| ContinuousVariableGenerator.random_seed := None |}
         3 (XFin 5) (XFin 20) (Some (XFin 0)) (Some (XFin 10)) Reference.startx
       = (Ok out, w')
       /\ Forall (fun r => xisnan r = true
                           \/ (xleb (XFin 0) r = true /\ xleb r (XFin 10) = true))
                 out.
Proof.
  assert (B : xleb (XFin 0) (XFin 10) = true) by (apply Rle_bool_true; lra).
  split; [exact B | ].
  eexists. eexists. split; [reflexivity | ].
  eapply (@samplers_within_bounds xreal xreal_Float xreal_FloatLaws
           xreal_Transcend Reference.lcgx
           {| ContinuousVariableGenerator.random_seed := None |}
           3 (XFin 5) (XFin 20) (XFin 0) (XFin 0) (XFin 10)
           Reference.startx _ _ eq_refl eq_refl B).
  left. reflexivity.
Defined.

(** The theorem at the target mean 2 and the target deviation 1. *)
Lemma lognormal_params_round_trip_witness :
  (0 < 2)%R
  /\ exists mu sigma : R,
       ContinuousVariableGenerator._lognormal_params
         {| ContinuousVariableGenerator.random_seed := None |}
         (XFin 2) (XFin 1) Reference.startx
       = (Ok (XFin mu, XFin sigma), Reference.startx)
       /\ exp (mu + sigma * sigma / 2) = 2%R
       /\ ((exp (sigma * sigma) - 1) * exp (2 * mu + sigma * sigma) = 1 * 1)%R.
Proof.
  assert (P : (0 < 2)%R) by lra.
  split; [exact P | ].
  apply (@lognormal_params_round_trip Reference.lcgx
           {| ContinuousVariableGenerator.random_seed := None |}
           2 1 Reference.startx P).
Defined.


(** The theorem at the distribution name ['gamma'] and the seed 7. *)
Lemma generate_continuous_variable_unsupported_witness :
  generate_continuous_variable 10 "gamma" (XFin 0) (XFin 1) None None (XFin 0)
                               (Some 7%Z) None None Reference.startx
  = (Raise ValueError, seeded 7 Reference.startx).
Proof.
  apply (@generate_continuous_variable_unsupported xreal xreal_Float
           xreal_Transcend Reference.lcgx 10 "gamma" (XFin 0) (XFin 1) None None
           (XFin 0) (Some 7%Z) None None Reference.startx);
    discriminate.
Defined.

(** A draw of the reference generator in exact arithmetic. *)
Lemma unit_draw_finite (g : Z) :
  @Reference.unit_draw xreal _ g = XFin (IZR g / 2147483648).
Proof.
  unfold Reference.unit_draw.
  change (@fdiv xreal _) with xdiv.
  change (@of_int xreal _ g) with (XFin (IZR g)).
  change (@of_int xreal _ (2 ^ 31)) with (XFin 2147483648).
  apply xdiv_finite. lra.
Qed.

(** The theorem at two skew-normal draws of the reference generator. *)
Lemma generate_skewed_standardised_witness :
  exists (out : list R) (w' : World),
    ContinuousVariableGenerator.generate_skewed
      {| ContinuousVariableGenerator.random_seed := None |}
      2 (XFin 10) (XFin 3) (XFin 1) None None Reference.startx
    = (Ok (map XFin out), w')
    /\ zero_divisions w' = zero_divisions Reference.startx
    /\ np_mean (map XFin out) w' = (Ok (XFin 10), w')
    /\ np_std (map XFin out) w' = (Ok (XFin (Rabs 3)), w').
Proof.
  apply (@generate_skewed_standardised Reference.lcgx
           {| ContinuousVariableGenerator.random_seed := None |}
           2 10 3 1
           [1 * 5 * (12345 / 2147483648); 1 * 5 * (1406932606 / 2147483648)]%R
           (1 * 5 * (12345 / 2147483648))%R
           (1 * 5 * (1406932606 / 2147483648))%R
           Reference.startx).
  - lia.
  - change (Z.to_nat 2) with 2%nat.
    unfold Reference.lcgx, Reference.lcg, draw_skewnorm, Reference.startx,
      Reference.start, np_random.
    cbn [Reference.draws fst].
    change (Reference.lcg_next 0) with 12345%Z.
    change (Reference.lcg_next 12345) with 1406932606%Z.
    rewrite !unit_draw_finite. reflexivity.
  - left. reflexivity.
  - right. left. reflexivity.
  - lra.
Defined.

(** The theorem at two groups of sizes 2 and 1 with the means 10 and 20,
    drawn with the reference generator: the labels are [0, 0, 1]. *)
Lemma generate_group_means_labels_witness :
  exists (data : list B64.binary64) (groups : list Z) (w' : World),
    @ContinuousVariableGenerator.generate_group_means B64.binary64
      B64.binary64_Float binary64_FloatBits Reference.lcg64
      {| ContinuousVariableGenerator.random_seed := None |}
      [2; 1]%Z [B64.of_Z 10; B64.of_Z 20] (B64.of_Z 1) None None
      Reference.start64
    = (Ok (data, groups), w')
    /\ groups = [0; 0; 1]%Z
    /\ length data = 3%nat.
Proof.
  destruct (@generate_group_means_labels B64.binary64 B64.binary64_Float
              binary64_FloatBits Reference.lcg64 Reference.lcg_more
              lcg_more_laws
              {| ContinuousVariableGenerator.random_seed := None |}
              [2; 1]%Z [B64.of_Z 10; B64.of_Z 20] (B64.of_Z 1) None None
              Reference.start64) as [_ Returned].
  eexists. exists [0; 0; 1]%Z. eexists.
  assert (E : forall A B (p : A * B) a, fst p = a -> p = (a, snd p)).
  { intros A B [x y] a <-. reflexivity. }
  split.
  - apply E. vm_compute. reflexivity.
  - match goal with
    | |- _ /\ length ?d = _ =>
        destruct (Returned d [0; 0; 1]%Z _ (E _ _ _ _ eq_refl)) as (_ & G & L)
    end.
    split; [reflexivity | exact L].
Defined.

(** The theorem at the precision 1/10 and the data [0.23, -1.07]. *)
Lemma round_to_precision_error_witness :
  (0 < 1 / 10)%R
  /\ (exists out : list R,
         RealismEnhancer.round_to_precision
           {| RealismEnhancer.random_seed := None |}
           (map XFin [23 / 100; - (107 / 100)]%R) (XFin (1 / 10)) "round"
           Reference.startx
         = (Ok (map XFin out), Reference.startx)
         /\ Forall2 (fun x r => (exists k : Z, r = IZR k * (1 / 10))
                                /\ Rabs (r - x) <= 1 / 10 / 2)%R
                    [23 / 100; - (107 / 100)]%R out)
  /\ (exists out : list R,
         RealismEnhancer.round_to_precision
           {| RealismEnhancer.random_seed := None |}
           (map XFin [23 / 100; - (107 / 100)]%R) (XFin (1 / 10)) "floor"
           Reference.startx
         = (Ok (map XFin out), Reference.startx)
         /\ Forall2 (fun x r => (exists k : Z, r = IZR k * (1 / 10))
                                /\ r <= x < r + 1 / 10)%R
                    [23 / 100; - (107 / 100)]%R out)
  /\ (exists out : list R,
         RealismEnhancer.round_to_precision
           {| RealismEnhancer.random_seed := None |}
           (map XFin [23 / 100; - (107 / 100)]%R) (XFin (1 / 10)) "ceil"
           Reference.startx
         = (Ok (map XFin out), Reference.startx)
         /\ Forall2 (fun x r => (exists k : Z, r = IZR k * (1 / 10))
                                /\ r - 1 / 10 < x <= r)%R
                    [23 / 100; - (107 / 100)]%R out).
Proof.
  split; [lra | ].
  apply (@round_to_precision_error Reference.lcgx
           {| RealismEnhancer.random_seed := None |}
           [23 / 100; - (107 / 100)]%R (1 / 10)%R Reference.startx).
  lra.
Defined.


Lemma run_of_fst {A W} (run : outcome A * W) (a : outcome A) :
  fst run = a -> run = (a, snd run).
Proof. destruct run as [x y]. intros <-. reflexivity. Qed.

(** The theorem at a dict of two arrays of four records, with the dropout
    rate 0.5 and the reference generator: the first and the third record
    drop out of both arrays. *)
Lemma add_dropout_lengths_witness :
  exists w' : World,
    @RealismEnhancer.add_dropout B64.binary64 B64.binary64_Float
      Reference.lcg64 {| RealismEnhancer.random_seed := None |}
      [("age"%string, [B64.of_Z 1; B64.of_Z 2; B64.of_Z 3; B64.of_Z 4]);
       ("sex"%string, [B64.of_Z 0; B64.of_Z 1; B64.of_Z 0; B64.of_Z 1])]
      (B64.dec 5 1) "random" Reference.start64
    = (Ok ([("age"%string, [B64.of_Z 2; B64.of_Z 4]);
            ("sex"%string, [B64.of_Z 1; B64.of_Z 1])],
           [true; false; true; false]), w')
    /\ Forall2
         (fun kv kv' : string * list B64.binary64 =>
            fst kv' = fst kv
            /\ length (snd kv) = length [true; false; true; false]
            /\ snd kv' = select (snd kv) (map negb [true; false; true; false])
            /\ length (snd kv')
               = (length [true; false; true; false]
                  - count_true [true; false; true; false])%nat)
         [("age"%string, [B64.of_Z 1; B64.of_Z 2; B64.of_Z 3; B64.of_Z 4]);
          ("sex"%string, [B64.of_Z 0; B64.of_Z 1; B64.of_Z 0; B64.of_Z 1])]
         [("age"%string, [B64.of_Z 2; B64.of_Z 4]);
          ("sex"%string, [B64.of_Z 1; B64.of_Z 1])].
Proof.
  eexists. split.
  - apply run_of_fst. vm_compute. reflexivity.
  - apply (proj2 (@add_dropout_lengths B64.binary64 B64.binary64_Float
                    Reference.lcg64 {| RealismEnhancer.random_seed := None |}
                    [("age"%string,
                      [B64.of_Z 1; B64.of_Z 2; B64.of_Z 3; B64.of_Z 4]);
                     ("sex"%string,
                      [B64.of_Z 0; B64.of_Z 1; B64.of_Z 0; B64.of_Z 1])]
                    (B64.dec 5 1) "random"%string Reference.start64)
             _ _ _ (run_of_fst _ _ eq_refl)).
Defined.

(** The theorem at four values that are missing completely at random with
    the rate 0.5 and the reference generator: the first and the third value
    become NaN, the others are kept. *)
Lemma add_missing_values_only_erases_witness :
  exists w' : World,
    @RealismEnhancer.add_missing_values B64.binary64 B64.binary64_Float
      binary64_FloatBits Reference.lcg64 Reference.stats64
      {| RealismEnhancer.random_seed := None |}
      [B64.of_Z 1; B64.of_Z 2; B64.of_Z 3; B64.of_Z 4] (B64.dec 5 1)
      (Member MCAR) None Reference.start64
    = (Ok [S754_nan; B64.of_Z 2; S754_nan; B64.of_Z 4], w')
    /\ Forall2 (fun x r : B64.binary64 => r = x \/ r = fnan)
               [B64.of_Z 1; B64.of_Z 2; B64.of_Z 3; B64.of_Z 4]
               [S754_nan; B64.of_Z 2; S754_nan; B64.of_Z 4].
Proof.
  eexists. split.
  - apply run_of_fst. vm_compute. reflexivity.
  - apply (proj1 (proj2 (@add_missing_values_only_erases B64.binary64
                           B64.binary64_Float binary64_FloatBits
                           Reference.lcg64 lcg_laws Reference.stats64
                           {| RealismEnhancer.random_seed := None |}
                           [B64.of_Z 1; B64.of_Z 2; B64.of_Z 3; B64.of_Z 4]
                           (B64.dec 5 1) (Member MCAR) None
                           Reference.start64))
             _ _ (run_of_fst _ _ eq_refl)).
Defined.

(** The theorem at six labels in three categories with the error rate 0.5
    and the reference generator. *)
Lemma add_misclassification_changes_witness :
  exists (out : list Z) (w' : World),
    @RealismEnhancer.add_misclassification B64.binary64 B64.binary64_Float
      Reference.lcg64 Reference.lcg_more
      {| RealismEnhancer.random_seed := None |}
      [0; 1; 2; 1; 0; 2]%Z (B64.dec 5 1) None Reference.start64
    = (Ok out, w')
    /\ Forall2
         (fun (xu : Z * B64.binary64) (r : Z) =>
            if (snd xu <? B64.dec 5 1)%fl
               && existsb (fun c : Z => negb (c =? fst xu)%Z)
                          [0; 1; 2; 1; 0; 2]%Z
            then r <> fst xu /\ In r [0; 1; 2; 1; 0; 2]%Z
            else r = fst xu)
         (combine [0; 1; 2; 1; 0; 2]%Z
                  (fst (draw_random 6 (np_random Reference.start64))))
         out.
Proof.
  apply (@add_misclassification_changes B64.binary64 B64.binary64_Float
           Reference.lcg64 lcg_laws Reference.lcg_more lcg_more_laws
           {| RealismEnhancer.random_seed := None |}
           [0; 1; 2; 1; 0; 2]%Z (B64.dec 5 1) None Reference.start64).
Defined.

(** The theorem at three identifiers with the default prefix and width:
    the third one is ['ID000003']. *)
Lemma generate_unique_ids_distinct_witness :
  RealismEnhancer.generate_unique_ids {| RealismEnhancer.random_seed := None |}
    3 "ID" 6
  = ["ID000001"; "ID000002"; "ID000003"]%string
  /\ NoDup ["ID000001"; "ID000002"; "ID000003"]%string
  /\ exists number : string,
       nth_error ["ID000001"; "ID000002"; "ID000003"]%string 2
       = Some ("ID" ++ number)%string
       /\ option_map Z.of_uint (DecimalString.NilEmpty.uint_of_string number)
          = Some 3%Z.
Proof.
  split; [reflexivity | ].
  destruct (generate_unique_ids_distinct
              {| RealismEnhancer.random_seed := None |} 3 "ID" 6)
    as (Distinct & _ & Reads).
  split; [exact Distinct | ].
  apply (Reads 2%nat). simpl. lia.
Defined.

(** The theorem at a fresh validator and a table of four records: the
    summary afterwards holds the one result. *)
Lemma validate_odds_ratio_then_summary_witness :
  exists (result : StatisticalValidator.ValidationResult)
         (self' : StatisticalValidator.instance) (w' : World),
    StatisticalValidator.validate_odds_ratio
      (StatisticalValidator.__init__ (lit 2 1)) [1; 0; 1; 1]%Z [1; 1; 0; 0]%Z
      (XFin 2) true (lit 5 2) Reference.startx
    = (Ok (result, self'), w')
    /\ StatisticalValidator.summary_results
         (StatisticalValidator.get_summary self') = [result]
    /\ StatisticalValidator.summary_total
         (StatisticalValidator.get_summary self') = 1%Z
    /\ StatisticalValidator.summary_passed
         (StatisticalValidator.get_summary self')
       = (if StatisticalValidator.passed result then 1 else 0)%Z
    /\ StatisticalValidator.summary_failed
         (StatisticalValidator.get_summary self')
       = (if StatisticalValidator.passed result then 0 else 1)%Z
    /\ StatisticalValidator.summary_all_passed
         (StatisticalValidator.get_summary self')
       = StatisticalValidator.passed result.
Proof.
  destruct (@validate_odds_ratio_run xreal xreal_Float xreal_Transcend
              Reference.lcgx (StatisticalValidator.__init__ (lit 2 1))
              [1; 0; 1; 1]%Z [1; 1; 0; 0]%Z (XFin 2) true (lit 5 2)
              Reference.startx eq_refl) as (w' & E & _).
  eexists. eexists. exists w'. split; [exact E | ].
  apply (@validate_odds_ratio_then_summary xreal xreal_Float xreal_Transcend
           Reference.lcgx (StatisticalValidator.__init__ (lit 2 1)) _
           [1; 0; 1; 1]%Z [1; 1; 0; 0]%Z (XFin 2) true (lit 5 2)
           Reference.startx w' _ E).
Defined.

(** The theorem at the tolerance 0.2, the actual value 11 and the expected
    value 10, scaled by 3. *)
Lemma check_value_relative_witness :
  (10 <> 0)%R /\ (3 <> 0)%R
  /\ StatisticalValidator._check_value
       (StatisticalValidator.__init__ (XFin (2 / 10))) (XFin 11) (XFin 10)
       Reference.startx
     = (Ok (Rle_bool (Rabs (11 - 10)) (2 / 10 * Rabs 10)), Reference.startx)
  /\ StatisticalValidator._check_value
       (StatisticalValidator.__init__ (XFin (2 / 10))) (XFin (3 * 11))
       (XFin (3 * 10)) Reference.startx
     = StatisticalValidator._check_value
         (StatisticalValidator.__init__ (XFin (2 / 10))) (XFin 11) (XFin 10)
         Reference.startx.
Proof.
  assert (N10 : (10 <> 0)%R) by lra.
  assert (N3 : (3 <> 0)%R) by lra.
  split; [exact N10 | ]. split; [exact N3 | ].
  destruct (proj1 (@check_value_relative Reference.lcgx
                     (StatisticalValidator.__init__ (XFin (2 / 10)))
                     (2 / 10)%R 11%R 10%R 3%R Reference.startx eq_refl) N10)
    as [Relative Scaled].
  split; [exact Relative | exact (Scaled N3)].
Defined.

Section ExponentialRuns.
Context `{NumpyRandom xreal} `{!NumpyRandomMore xreal}.
Import SurvivalDataGenerator.
Local Open Scope R_scope.

(** In exact arithmetic [generate_exponential] with a positive median and a
    size that is not negative returns the draws of [np.random.exponential]
    with the scale [1 / (ln 2 / m)], capped at [max_time]. *)
Lemma generate_exponential_positive (self : instance) (n : Z) (m : R)
    (max_time : option xreal) (w : World) :
  0 < m -> (0 <= n)%Z ->
  generate_exponential self n (XFin m) max_time w
  = (Ok (let d := fst (draw_exponential (XFin (1 / (ln 2 / m))) (Z.to_nat n)
                                        (np_random w)) in
         match max_time with
         | Some t => map (fun s => np_minimum s t) d
         | None => d
         end),
     {| np_random := snd (draw_exponential (XFin (1 / (ln 2 / m)))
                                           (Z.to_nat n) (np_random w));
        zero_divisions := zero_divisions w |}).
Proof.
  intros Hm Hn. pose proof ln_2_pos as L2.
  assert (Pl : 0 < ln 2 / m) by (apply Rdiv_lt_0_compat; assumption).
  assert (Ps : 0 < 1 / (ln 2 / m)) by (apply Rdiv_lt_0_compat; lra).
  unfold generate_exponential.
  rewrite (bind_ok _ _ _ _ _ (true_divide_run _ _ _)).
  rewrite after_division_nonzero by (simpl; apply Req_bool_false; lra).
  simpl. rewrite (Rlt_bool_false 2 0), (Req_bool_false 2 0) by lra.
  rewrite (xdiv_finite (ln 2) m) by lra.
  rewrite (bind_ok _ _ _ _ _ (true_divide_run _ _ _)).
  rewrite after_division_nonzero by (simpl; apply Req_bool_false; lra).
  change (@fdiv xreal _) with xdiv.
  rewrite (xdiv_finite 1 (ln 2 / m)) by lra.
  unfold mtrand_exponential, non_negative. simpl.
  rewrite Rlt_bool_false by lra.
  unfold bind at 2. unfold ret at 1. unfold size_arg.
  destruct (Z.ltb_spec n 0) as [N|_]; [lia | ].
  unfold bind at 2. unfold ret at 1.
  unfold bind. rewrite draw_run.
  destruct max_time; reflexivity.
Qed.
End ExponentialRuns.

(** The theorem at two exponential survival times with the median 3, drawn
    with the reference generator and capped at 1. *)
Lemma survival_times_within_max_time_witness :
  exists (out : list xreal) (w' : World),
    @SurvivalDataGenerator.generate_exponential xreal xreal_Float
      xreal_Transcend xreal_FloatBits Reference.lcgx Reference.lcg_more
      {| SurvivalDataGenerator.random_seed := None |} 2 (XFin 3)
      (Some (XFin 1)) Reference.startx
    = (Ok out, w')
    /\ length out = 2%nat
    /\ Forall (fun s : xreal => fisnan s = true \/ (s <=? XFin 1)%fl = true)
              out.
Proof.
  pose proof (@generate_exponential_positive Reference.lcgx Reference.lcg_more
                {| SurvivalDataGenerator.random_seed := None |} 2 3
                (Some (XFin 1)) Reference.startx
                ltac:(lra) ltac:(lia)) as E.
  eexists. eexists. split; [exact E | ]. split; [reflexivity | ].
  apply (@survival_times_within_max_time xreal xreal_Float xreal_FloatLaws
           xreal_Transcend xreal_FloatBits xreal_Power Reference.lcgx
           Reference.lcg_more
           {| SurvivalDataGenerator.random_seed := None |} 2%Z (XFin 3)
           (XFin 1) (XFin 1) Reference.startx _ _ eq_refl (or_introl E)).
Defined.

(** The theorem at the shape 0 in exact arithmetic. *)
Lemma generate_weibull_zero_shape_witness :
  fst (@SurvivalDataGenerator.generate_weibull xreal xreal_Float
         xreal_Transcend xreal_FloatBits xreal_Power Reference.lcgx
         Reference.lcg_more {| SurvivalDataGenerator.random_seed := None |}
         5 (XFin 3) (XFin 0) None Reference.startx)
  = Raise ZeroDivisionError
  /\ snd (@SurvivalDataGenerator.generate_weibull xreal xreal_Float
            xreal_Transcend xreal_FloatBits xreal_Power Reference.lcgx
            Reference.lcg_more {| SurvivalDataGenerator.random_seed := None |}
            5 (XFin 3) (XFin 0) None Reference.startx)
     = Reference.startx.
Proof.
  assert (Z0 : (XFin 0 =? of_int 0)%fl = true).
  { simpl. apply Req_bool_true. reflexivity. }
  destruct (@generate_weibull_zero_shape xreal xreal_Float xreal_Transcend
              xreal_FloatBits xreal_Power Reference.lcgx Reference.lcg_more
              {| SurvivalDataGenerator.random_seed := None |}
              5%Z (XFin 3) (XFin 0) None Reference.startx) as [Raises Frame].
  split; [apply (proj1 Raises Z0) | apply (Frame Z0)].
Defined.

(** The theorem at three records, the second exposed, with the baseline
    median 3 and the hazard ratio 2, drawn with the reference generator. *)
Lemma generate_with_hazard_ratio_groups_witness :
  exists (out : list xreal) (w1 w' : World),
    @SurvivalDataGenerator.generate_with_hazard_ratio xreal xreal_Float
      xreal_Transcend xreal_FloatBits xreal_Power Reference.lcgx
      Reference.lcg_more {| SurvivalDataGenerator.random_seed := None |}
      3 [0; 1; 0]%Z (XFin 3) (XFin 2) "exponential" (XFin 1) None
      Reference.startx
    = (Ok out, w')
    /\ length out = 3%nat
    /\ @SurvivalDataGenerator.generate_exponential xreal xreal_Float
         xreal_Transcend xreal_FloatBits Reference.lcgx Reference.lcg_more
         {| SurvivalDataGenerator.random_seed := None |} 2 (XFin 3) None
         Reference.startx
       = (Ok (select out [true; false; true]), w1)
    /\ @SurvivalDataGenerator.generate_exponential xreal xreal_Float
         xreal_Transcend xreal_FloatBits Reference.lcgx Reference.lcg_more
         {| SurvivalDataGenerator.random_seed := None |} 1
         (XFin 3 / XFin 2)%fl None w1
       = (Ok (select out [false; true; false]), w').
Proof.
  assert (E : exists out w',
             @SurvivalDataGenerator.generate_with_hazard_ratio xreal
               xreal_Float xreal_Transcend xreal_FloatBits xreal_Power
               Reference.lcgx Reference.lcg_more
               {| SurvivalDataGenerator.random_seed := None |}
               3 [0; 1; 0]%Z (XFin 3) (XFin 2) "exponential" (XFin 1) None
               Reference.startx
             = (Ok out, w')).
  { unfold SurvivalDataGenerator.generate_with_hazard_ratio.
    erewrite bind_ok by reflexivity.
    cbn [String.eqb Ascii.eqb Bool.eqb].
    pose proof (@generate_exponential_positive Reference.lcgx
                  Reference.lcg_more
                  {| SurvivalDataGenerator.random_seed := None |} 2 3
                  None Reference.startx ltac:(lra) ltac:(lia)) as G.
    rewrite (bind_ok _ _ _ _ _ G).
    erewrite bind_ok by reflexivity.
    assert (D : forall w : @World xreal Reference.lcgx,
               py_divide (XFin 3) (XFin 2) w = (Ok (XFin (3 / 2)), w)).
    { intros w. unfold py_divide. simpl.
      rewrite !Req_bool_false by lra. reflexivity. }
    rewrite (bind_ok _ _ _ _ _ (D _)).
    erewrite bind_ok
      by (apply (@generate_exponential_positive Reference.lcgx
                   Reference.lcg_more); [lra | lia]).
    eexists. eexists. reflexivity. }
  destruct E as (out & w' & E).
  destruct (@generate_with_hazard_ratio_groups xreal xreal_Float
              xreal_Transcend xreal_FloatBits xreal_Power Reference.lcgx
              Reference.lcg_more lcg_more_laws
              {| SurvivalDataGenerator.random_seed := None |}
              3%Z [0; 1; 0]%Z (XFin 3) (XFin 2) "exponential"%string (XFin 1)
              None Reference.startx w' out E)
    as (w1 & E0 & _ & E1 & _ & L & _).
  exists out, w1, w'. split; [exact E | ]. split; [exact L | ].
  split; [exact E0 | exact E1].
Defined.

(** The theorem at two exponential survival times with the median 3 and
    [max_time = 1], drawn and censored with the reference generator. *)
Lemma generate_survival_data_within_max_time_witness :
  exists (observed_time : list xreal) (event : list Z) (w' : World),
    @generate_survival_data xreal xreal_Float xreal_Transcend xreal_FloatBits
      xreal_Power Reference.lcgx Reference.lcg_more Reference.statsx
      2 (XFin 3) (lit 2 1) "exponential" (XFin 1) (Some (XFin 1)) None
      Reference.startx
    = (Ok (observed_time, event), w')
    /\ length observed_time = 2%nat
    /\ length event = 2%nat
    /\ Forall (fun o : xreal => fisnan o = true \/ (o <=? XFin 1)%fl = true)
              observed_time
    /\ Forall (fun e : Z => e = 0%Z \/ e = 1%Z) event.
Proof.
  assert (E : exists observed_time event w',
             @generate_survival_data xreal xreal_Float xreal_Transcend
               xreal_FloatBits xreal_Power Reference.lcgx Reference.lcg_more
               Reference.statsx 2 (XFin 3) (lit 2 1) "exponential" (XFin 1)
               (Some (XFin 1)) None Reference.startx
             = (Ok (observed_time, event), w')).
  { unfold generate_survival_data.
    unfold bind at 1. unfold SurvivalDataGenerator.__init__ at 1.
    unfold ret at 1.
    cbn [String.eqb Ascii.eqb Bool.eqb].
    pose proof (@generate_exponential_positive Reference.lcgx
                  Reference.lcg_more
                  {| SurvivalDataGenerator.random_seed := None |} 2 3
                  (Some (XFin 1)) Reference.startx ltac:(lra) ltac:(lia))
      as G.
    rewrite (bind_ok _ _ _ _ _ G).
    eexists. eexists. eexists. reflexivity. }
  destruct E as (observed_time & event & w' & E).
  exists observed_time, event, w'. split; [exact E | ].
  apply (@generate_survival_data_within_max_time xreal xreal_Float
           xreal_FloatLaws xreal_FloatOrder xreal_Transcend xreal_FloatBits
           xreal_Power Reference.lcgx lcg_laws Reference.lcg_more
           lcg_more_laws Reference.statsx 2%Z (XFin 3) (lit 2 1)
           "exponential"%string (XFin 1) (XFin 1) None Reference.startx w'
           observed_time event eq_refl E).
Defined.

(** The theorem at a median of 3 and of -3 in exact arithmetic. *)
Lemma generate_exponential_scale_witness :
  @SurvivalDataGenerator.generate_exponential xreal xreal_Float
    xreal_Transcend xreal_FloatBits Reference.lcgx Reference.lcg_more
    {| SurvivalDataGenerator.random_seed := None |} 2 (XFin (-3)) None
    Reference.startx
  = (Raise ValueError, Reference.startx)
  /\ exists scale : R,
       (scale * ln 2)%R = 3%R
       /\ @SurvivalDataGenerator.generate_exponential xreal xreal_Float
            xreal_Transcend xreal_FloatBits Reference.lcgx Reference.lcg_more
            {| SurvivalDataGenerator.random_seed := None |} 2 (XFin 3) None
            Reference.startx
          = bind (@mtrand_exponential _ _ _ Reference.lcgx Reference.lcg_more
                    (XFin scale) 2)
                 (fun survival_time => ret survival_time) Reference.startx.
Proof.
  split.
  - apply (proj1 (@generate_exponential_scale Reference.lcgx
                    Reference.lcg_more
                    {| SurvivalDataGenerator.random_seed := None |} 2 (-3)%R
                    None Reference.startx)).
    lra.
  - apply (proj2 (@generate_exponential_scale Reference.lcgx
                    Reference.lcg_more
                    {| SurvivalDataGenerator.random_seed := None |} 2 3%R
                    None Reference.startx)).
    lra.
Defined.

(** The theorem at an unsupported distribution, and at no record without
    [max_time]. *)
Lemma generate_survival_data_errors_witness :
  fst (@generate_survival_data xreal xreal_Float xreal_Transcend
         xreal_FloatBits xreal_Power Reference.lcgx Reference.lcg_more
         Reference.statsx 10 (XFin 5) (lit 2 1) "gamma" (XFin 1) None None
         Reference.startx)
  = Raise ValueError
  /\ fst (@generate_survival_data xreal xreal_Float xreal_Transcend
            xreal_FloatBits xreal_Power Reference.lcgx Reference.lcg_more
            Reference.statsx 0 (XFin 5) (lit 2 1) "exponential" (XFin 1) None
            None Reference.startx)
     = Raise ValueError.
Proof.
  split.
  - apply (proj1 (@generate_survival_data_errors xreal xreal_Float
                    xreal_Transcend xreal_FloatBits xreal_Power Reference.lcgx
                    Reference.lcg_more lcg_more_laws Reference.statsx
                    10%Z (XFin 5) (lit 2 1) "gamma"%string (XFin 1) None None
                    Reference.startx)); discriminate.
  - apply (proj2 (@generate_survival_data_errors xreal xreal_Float
                    xreal_Transcend xreal_FloatBits xreal_Power Reference.lcgx
                    Reference.lcg_more lcg_more_laws Reference.statsx
                    0%Z (XFin 5) (lit 2 1) "exponential"%string (XFin 1) None
                    None Reference.startx)); reflexivity.
Defined.

(** The theorem at four survival times, the last two exposed, with the
    current ratio 1 and the target 2: the exposed times are halved. *)
Lemma adjust_hazard_ratio_frame_witness :
  exists w' : World,
    @SurvivalDataGenerator.adjust_hazard_ratio B64.binary64 B64.binary64_Float
      binary64_FloatBits Reference.lcg64
      {| SurvivalDataGenerator.random_seed := None |}
      [B64.of_Z 1; B64.of_Z 2; B64.of_Z 3; B64.of_Z 4] [0; 0; 1; 1]%Z
      (B64.of_Z 2) (Some (B64.of_Z 1)) Reference.start64
    = (Ok [B64.of_Z 1; B64.of_Z 2; B64.dec 15 1; B64.of_Z 2], w')
    /\ ([B64.of_Z 1; B64.of_Z 2; B64.dec 15 1; B64.of_Z 2]
        = [B64.of_Z 1; B64.of_Z 2; B64.of_Z 3; B64.of_Z 4]
        \/ exists c : B64.binary64,
             (c =? of_int 0)%fl = false
             /\ (forall given : B64.binary64,
                    Some (B64.of_Z 1) = Some given -> given = c)
             /\ length [B64.of_Z 1; B64.of_Z 2; B64.of_Z 3; B64.of_Z 4]
                = length [0; 0; 1; 1]%Z
             /\ [B64.of_Z 1; B64.of_Z 2; B64.dec 15 1; B64.of_Z 2]
                = zip_with (fun (s : B64.binary64) (b : bool) =>
                              if b then (s * (c / B64.of_Z 2))%fl else s)
                           [B64.of_Z 1; B64.of_Z 2; B64.of_Z 3; B64.of_Z 4]
                           (is_group 1 [0; 0; 1; 1]%Z)).
Proof.
  eexists. split.
  - apply run_of_fst. vm_compute. reflexivity.
  - apply (@adjust_hazard_ratio_frame B64.binary64 B64.binary64_Float
             binary64_FloatBits Reference.lcg64
             {| SurvivalDataGenerator.random_seed := None |}
             [B64.of_Z 1; B64.of_Z 2; B64.of_Z 3; B64.of_Z 4] [0; 0; 1; 1]%Z
             (B64.of_Z 2) (Some (B64.of_Z 1)) Reference.start64 _ _
             (run_of_fst _ _ eq_refl)).
Defined.

(** The theorem at four positive survival times with the medians 1.5 and 5
    and the target ratio 2. *)
Lemma adjust_hazard_ratio_reaches_target_witness :
  exists out : list R,
    SurvivalDataGenerator.adjust_hazard_ratio
      {| SurvivalDataGenerator.random_seed := None |}
      (map XFin [1; 2; 4; 6]%R) [0; 0; 1; 1]%Z (XFin 2) None Reference.startx
    = (Ok (map XFin out), Reference.startx)
    /\ SurvivalDataGenerator._estimate_hazard_ratio
         {| SurvivalDataGenerator.random_seed := None |}
         (map XFin out) [0; 0; 1; 1]%Z Reference.startx
       = (Ok (Some (XFin 2)), Reference.startx).
Proof.
  apply (@adjust_hazard_ratio_reaches_target Reference.lcgx
           {| SurvivalDataGenerator.random_seed := None |}
           [1; 2; 4; 6]%R [0; 0; 1; 1]%Z 2%R Reference.startx).
  - reflexivity.
  - repeat constructor; lra.
  - left. reflexivity.
  - right. right. left. reflexivity.
  - lra.
Defined.
